(** * A shallow embedding of the blog API (models and route handlers)

    The development follows the layout of the repository:
    - [CategoryModel]: the [pre('save')] hook of [models/Category.js];
    - [Router]: the registration order of the posts router and Express'
      first-match dispatch;
    - [Store]: the document collections (posts, comments, users, categories),
      cursors and validators;
    - [Guard]: the guards of [middleware/auth.js], which is not among the
      sources and is modelled from the specification;
    - [Posts]: the handlers of the posts router (list, fetch, by-category,
      trending, update);
    - [Comments]: the handlers of the comments router (create, update, delete,
      like, approve);
    - [Sample]: small stores on which the handlers are run;
    - [Routing], [CommentsRead], [PostsWrite], [Users]: the three routers'
      tables, the listings of comments, the creation and deletion of posts,
      the listing of the users;
    - [Paging]: the four paginated listings, and what it is to paginate.
    The properties follow in the second and third part.

    Conventions.  An [ObjectId] is a natural number and the driver's id
    generation is a counter kept with the store (what matters is that a new id
    was never handed out before).  A [Number] holding a count is a [Z] and time
    stamps are [Z] milliseconds; the view count, the one number that a handler
    adds to, is incremented as a double is ([Store.Number_succ]).  Strings are
    [string]s of 8-bit code units, so names are Latin-1 names. *)

From Stdlib Require Import ZArith QArith Qround Ascii String.
From stdpp Require Import base tactics option list sorting gmap strings.

Local Open Scope string_scope.
Local Open Scope list_scope.
Local Open Scope Z_scope.

Abbreviation ObjectId := nat (only parsing).

(* ===================================================================== *)
(** * models/Category.js *)
(* ===================================================================== *)

Module CategoryModel.

(** ** The two regular expressions of the hook, as scanners *)

Definition code (c : ascii) : nat := nat_of_ascii c.

Definition between (lo hi n : nat) : bool := (lo <=? n)%nat && (n <=? hi)%nat.

(** The character class [[a-z0-9]]. *)
Definition in_class (c : ascii) : bool :=
  between 97 122 (code c) || between 48 57 (code c).

(** [String.prototype.toLowerCase] on one code unit below 256: the ASCII
    capitals and the Latin-1 capitals (all of 0xC0..0xDE but the
    multiplication sign 0xD7) move up by 32. *)
Definition toLowerCase_unit (c : ascii) : ascii :=
  if between 65 90 (code c)
     || (between 192 222 (code c) && negb (code c =? 215)%nat)
  then ascii_of_nat (code c + 32)
  else c.

Definition toLowerCase (s : list ascii) : list ascii := map toLowerCase_unit s.

Definition hyphen : ascii := "-"%char.

Definition is_hyphen (c : ascii) : bool := bool_decide (c = hyphen).

(** [s.replace(/[^a-z0-9]+/g, '-')]: the scanner copies class members; at
    the first unit outside the class it emits one hyphen and, the [+] being
    greedy, swallows the units outside the class that follow
    ([in_match] is true while it does). *)
Fixpoint replace_non_class (in_match : bool) (s : list ascii) : list ascii :=
  match s with
  | [] => []
  | c :: s' =>
      if in_class c then c :: replace_non_class false s'
      else if in_match then replace_non_class true s'
      else hyphen :: replace_non_class true s'
  end.

(** [s.replace(/(^-|-$)/g, '')]: a hyphen is deleted when it stands at
    index 0 ([^-]) or when it is the last unit ([-$]); every other unit is
    copied. *)
Fixpoint replace_edge_hyphens (at_start : bool) (s : list ascii) : list ascii :=
  match s with
  | [] => []
  | c :: s' =>
      if is_hyphen c && (at_start || bool_decide (s' = []))
      then replace_edge_hyphens false s'
      else c :: replace_edge_hyphens false s'
  end.

(** The right-hand side of line 33. *)
Definition slugify_units (name : list ascii) : list ascii :=
  replace_edge_hyphens true (replace_non_class false (toLowerCase name)).

Definition slugify (name : string) : string :=
  string_of_list_ascii (slugify_units (list_ascii_of_string name)).

(** ** The document and the hook *)

Record Category := mkCategory {
  c_id : ObjectId;
  c_name : string;
  c_description : string;
  c_slug : string;
  c_isActive : bool;
  (** Mongoose's change tracking: the paths assigned a new value since the
      document was loaded (every path that was set, for a new document). *)
  c_modifiedPaths : list string
}.

Definition isModified (path : string) (c : Category) : bool :=
  bool_decide (path ∈ c_modifiedPaths c).

Definition set_slug (v : string) (c : Category) : Category :=
  mkCategory (c_id c) (c_name c) (c_description c) v (c_isActive c)
             (if isModified "slug" c then c_modifiedPaths c
              else "slug" :: c_modifiedPaths c).

(** [categorySchema.pre('save', ...)], lines 29-35. *)
Definition pre_save (c : Category) : Category :=
  if negb (isModified "name" c) then c
  else set_slug (slugify (c_name c)) c.

(** ** The slug as the specification words it *)

(** Alphanumeric, after lowercasing: a lowercase letter or a digit. *)
Definition alphanumeric (c : ascii) : bool :=
  between 97 122 (code c) || between 48 57 (code c).

(** The maximal runs of a string: consecutive units of the same kind
    (alphanumeric or not) are grouped together. *)
Definition runs (s : list ascii) : list (list ascii) :=
  foldr (fun c acc =>
           match acc with
           | (d :: r) :: acc' =>
               if bool_decide (alphanumeric c = alphanumeric d)
               then (c :: d :: r) :: acc'
               else [c] :: acc
           | _ => [c] :: acc
           end) [] s.

(** Every run of non-alphanumeric units becomes a single hyphen. *)
Definition collapse_run (r : list ascii) : list ascii :=
  match r with
  | c :: _ => if alphanumeric c then r else [hyphen]
  | [] => []
  end.

Definition collapse_runs (s : list ascii) : list ascii :=
  concat (map collapse_run (runs s)).

(** All the hyphens at the front, and all those at the back, are removed. *)
Fixpoint strip_leading (s : list ascii) : list ascii :=
  match s with
  | c :: s' => if is_hyphen c then strip_leading s' else s
  | [] => []
  end.

Definition strip_trailing (s : list ascii) : list ascii :=
  reverse (strip_leading (reverse s)).

Definition slug_spec_units (name : list ascii) : list ascii :=
  strip_trailing (strip_leading (collapse_runs (toLowerCase name))).

Definition slug_spec (name : string) : string :=
  string_of_list_ascii (slug_spec_units (list_ascii_of_string name)).

(** ** Shapes of intermediate strings

    No two hyphens stand side by side; the string starts with a hyphen. *)
Fixpoint no_double (s : list ascii) : bool :=
  match s with
  | a :: s' =>
      match s' with
      | b :: _ => negb (is_hyphen a && is_hyphen b)
      | [] => true
      end && no_double s'
  | [] => true
  end.

Definition starts_with_hyphen (s : list ascii) : bool :=
  match s with c :: _ => is_hyphen c | [] => false end.

End CategoryModel.

(* ===================================================================== *)
(** * The posts router: registration order and dispatch *)
(* ===================================================================== *)

Module Router.

Inductive Method := GET | POST | PUT | DELETE | PATCH.

#[global] Instance Method_eq_dec : EqDecision Method.
Proof. solve_decision. Defined.

(** A route path is a sequence of segments: a literal, or a named
    parameter [:name] that takes one whole non-empty segment. *)
Inductive Segment := Lit (s : string) | Param (name : string).

Inductive Handler :=
| ListPosts | GetPost | CreatePost | UpdatePost | DeletePost
| PostsByCategory | Trending.

#[global] Instance Handler_eq_dec : EqDecision Handler.
Proof. solve_decision. Defined.

Record Route := mkRoute {
  r_method : Method;
  r_path : list Segment;
  r_handler : Handler
}.

(** The [router.METHOD(path, ...)] calls of the posts router, in the order
    in which the file makes them. *)
Definition posts_routes : list Route :=
  [ mkRoute GET [] ListPosts;                                 (* '/' *)
    mkRoute GET [Param "id"] GetPost;                         (* '/:id' *)
    mkRoute POST [] CreatePost;                               (* '/' *)
    mkRoute PUT [Param "id"] UpdatePost;                      (* '/:id' *)
    mkRoute DELETE [Param "id"] DeletePost;                   (* '/:id' *)
    mkRoute GET [Lit "category"; Param "categoryId"] PostsByCategory;
    mkRoute GET [Lit "trending"] Trending ].                  (* '/trending' *)

(** Literals are compared without regard to case (the router is not
    created with [caseSensitive]). *)
Definition lower (s : string) : string :=
  string_of_list_ascii (CategoryModel.toLowerCase (list_ascii_of_string s)).

Definition lit_matches (l seg : string) : bool :=
  bool_decide (lower l = lower seg).

(** Matching a route path against the segments of a request path; the
    result binds the parameters ([req.params]). *)
Fixpoint match_path (pat : list Segment) (segs : list string)
  : option (list (string * string)) :=
  match pat, segs with
  | [], [] => Some []
  | Lit l :: pat', seg :: segs' =>
      if lit_matches l seg then match_path pat' segs' else None
  | Param x :: pat', seg :: segs' =>
      if bool_decide (seg = "") then None
      else option_map (cons (x, seg)) (match_path pat' segs')
  | _, _ => None
  end.

(** Express walks the stack in registration order and runs the first route
    whose method and path match; no handler of this router calls [next], so
    no later route is tried. *)
Fixpoint dispatch_in (routes : list Route) (m : Method) (segs : list string)
  : option (Handler * list (string * string)) :=
  match routes with
  | [] => None
  | r :: routes' =>
      if bool_decide (r_method r = m) then
        match match_path (r_path r) segs with
        | Some params => Some (r_handler r, params)
        | None => dispatch_in routes' m segs
        end
      else dispatch_in routes' m segs
  end.

Definition dispatch := dispatch_in posts_routes.

End Router.

(* ===================================================================== *)
(** * The collections *)
(* ===================================================================== *)

Module Store.

Inductive Status := draft | published | archived.

#[global] Instance Status_eq_dec : EqDecision Status.
Proof. solve_decision. Defined.

(** models/Post.js (the schema has [timestamps: true]). *)
Record Post := mkPost {
  p_title : string;
  p_content : string;
  p_excerpt : option string;
  p_author : ObjectId;
  p_category : ObjectId;
  p_tags : list string;
  p_featuredImage : string;
  p_status : Status;
  p_viewCount : Z;
  p_isFeatured : bool;
  p_createdAt : Z;
  p_updatedAt : Z
}.

(** models/Comment.js (the schema has [timestamps: true]). *)
Record Comment := mkComment {
  cm_text : string;
  cm_post : ObjectId;
  cm_author : ObjectId;
  cm_parentComment : option ObjectId;
  cm_replies : list ObjectId;
  cm_likes : list ObjectId;
  cm_isApproved : bool;
  cm_isEdited : bool;
  cm_createdAt : Z;
  cm_updatedAt : Z
}.

(** What the handlers read of a user document. *)
Record User := mkUser {
  u_name : string;
  u_avatar : string;
  u_bio : string
}.

Record CategoryDoc := mkCategoryDoc {
  cat_name : string;
  cat_description : string
}.

(** A collection maps the [_id] of a document to the document. *)
Record DB := mkDB {
  posts : gmap nat Post;
  comments : gmap nat Comment;
  users : gmap nat User;
  categories : gmap nat CategoryDoc;
  nextId : nat
}.

Definition with_posts (ps : gmap nat Post) (db : DB) : DB :=
  mkDB ps (comments db) (users db) (categories db) (nextId db).

Definition with_comments (cs : gmap nat Comment) (db : DB) : DB :=
  mkDB (posts db) cs (users db) (categories db) (nextId db).

(** The acting principal, as the auth resolver attaches it to the request. *)
Inductive RoleName := role_user | role_admin.

#[global] Instance RoleName_eq_dec : EqDecision RoleName.
Proof. solve_decision. Defined.

Record Principal := mkPrincipal {
  pr_id : ObjectId;
  pr_role : RoleName
}.

Inductive Response (A : Type) :=
| Ok (body : A)               (* 200 *)
| Created (body : A)          (* 201 *)
| BadRequest (msg : string)   (* 400 *)
| Unauthorized                (* 401 *)
| Forbidden                   (* 403 *)
| NotFound (msg : string)     (* 404 *)
| ServerError.                (* 500, the [catch] of every handler *)

Arguments Ok {A} body.
Arguments Created {A} body.
Arguments BadRequest {A} msg.
Arguments Unauthorized {A}.
Arguments Forbidden {A}.
Arguments NotFound {A} msg.
Arguments ServerError {A}.

(** ** Cursors *)

(** [parseInt(x, 10) || d]: [None] stands for [NaN] (the parameter is absent
    or does not start with a number); [NaN] and [0] are falsy. *)
Definition or_default (v : option Z) (d : Z) : Z :=
  match v with
  | Some 0 | None => d
  | Some n => n
  end.

(** [x += 1] on a [Number] path that holds an integer.  A [Number] is a
    double: every integer up to 2^53 in magnitude is one, so the sum is exact
    as long as it stays there.  From 2^53 to 2^54 the doubles are two apart,
    [x + 1] lies half-way between [x] and [x + 2] and is rounded to the one
    whose significand, [x / 2], is even.  Beyond, the doubles are four or
    more apart and the sum is rounded back to [x]. *)
Definition Number_succ (x : Z) : Z :=
  if decide (- 2 ^ 53 ≤ x < 2 ^ 53) then x + 1
  else if decide (Z.abs x < 2 ^ 54) then (if Z.even (x / 2) then x else x + 2)
  else x.

(** [.skip(s).limit(l)] on a result list: the server rejects a negative
    skip; a limit of zero means no limit and a negative limit is taken by
    its absolute value. *)
Definition skip_limit {A} (s l : Z) (docs : list A) : option (list A) :=
  if s <? 0 then None
  else if l =? 0 then Some (drop (Z.to_nat s) docs)
  else Some (take (Z.abs_nat l) (drop (Z.to_nat s) docs)).

(** [Math.ceil(total / limit)]. *)
Definition Math_ceil_div (total limit : Z) : Z :=
  Qceiling (inject_Z total / inject_Z limit).

Record Pagination := mkPagination {
  pg_current : Z;
  pg_pages : Z;
  pg_total : Z
}.

(** [.sort({ createdAt: -1 })]. *)
Definition newer_first (a b : nat * Post) : Prop :=
  p_createdAt b.2 ≤ p_createdAt a.2.

#[global] Instance newer_first_dec : RelDecision newer_first.
Proof. intros a b. unfold newer_first. apply _. Defined.

(** [Post.find(query).sort({ createdAt: -1 })]. *)
Definition find_posts (query : nat * Post → bool) (db : DB) : list (nat * Post) :=
  merge_sort newer_first
    (filter (fun kp => Is_true (query kp)) (map_to_list (posts db))).

(** The comments of a post (the virtual [comments], and the [$lookup] of
    the trending pipeline). *)
Definition comments_of (post : ObjectId) (db : DB) : list (nat * Comment) :=
  filter (fun kc => cm_post kc.2 = post) (map_to_list (comments db)).

(** A query without [sort] yields the documents in the order of their
    insertion, which is the order of their ids. *)
Definition older_id {A} (a b : nat * A) : Prop := (a.1 ≤ b.1)%nat.

#[global] Instance older_id_dec {A} : RelDecision (@older_id A).
Proof. intros a b. unfold older_id. apply _. Defined.

(** [populate({ path: 'comments', match: { isApproved: true } })]. *)
Definition approved_comments_of (post : ObjectId) (db : DB) : list (nat * Comment) :=
  merge_sort older_id
    (filter (fun kc => Is_true (cm_isApproved kc.2)) (comments_of post db)).

(** ** Validators

    The [trim] sanitizer: white space is cut from both ends. *)
Definition is_space (c : ascii) : bool :=
  let n := nat_of_ascii c in
  CategoryModel.between 9 13 n || (n =? 32)%nat || (n =? 160)%nat.

Fixpoint trim_start (s : list ascii) : list ascii :=
  match s with
  | c :: s' => if is_space c then trim_start s' else s
  | [] => []
  end.

Definition trim (s : string) : string :=
  string_of_list_ascii
    (reverse (trim_start (reverse (trim_start (list_ascii_of_string s))))).

(** An [optional()] chain [trim().isLength({min, max})]: an absent field
    passes; a present one is replaced by its trimmed value and must have a
    length within the bounds.  The outer [None] is a validation error. *)
Definition check_length (lo : nat) (hi : option nat) (v : option string)
  : option (option string) :=
  match v with
  | None => Some None
  | Some s =>
      let t := trim s in
      if (lo <=? String.length t)%nat
         && match hi with Some h => (String.length t <=? h)%nat | None => true end
      then Some (Some t) else None
  end.

End Store.

(* ===================================================================== *)
(** * The guards of middleware/auth.js *)
(* ===================================================================== *)

Module Guard.
Import Store.

(** Modelled from the spec: the auth resolver [protect] of middleware/auth.js
    is not among the sources.  The request carries what the resolver made of
    the bearer credential: a principal, or nothing when the credential is
    missing, invalid, or names an unknown or deactivated user; without a
    principal the request ends as unauthenticated. *)
Definition protect {A} (auth : option Principal)
  (next : Principal → Response A * DB) (db : DB) : Response A * DB :=
  match auth with
  | None => (Unauthorized, db)
  | Some u => next u
  end.

(** Modelled from the spec: the ownership check [isAuthor(Model)] of
    middleware/auth.js is not among the sources.  It loads the resource;
    "not found" if it is absent; it allows the principal who is the author of
    the resource, and any admin, handing the loaded resource on as
    [req.resource]; "forbidden" otherwise. *)
Definition isAuthor {D A} (resource : option D) (author_of : D → ObjectId)
  (u : Principal) (next : D → Response A * DB) (db : DB) : Response A * DB :=
  match resource with
  | None => (NotFound "Resource not found", db)
  | Some d =>
      if bool_decide (author_of d = pr_id u) || bool_decide (pr_role u = role_admin)
      then next d
      else (Forbidden, db)
  end.

(** Modelled from the spec: the role check [authorize('admin')] of
    middleware/auth.js is not among the sources.  The principal's role name
    must be in the allowed set. *)
Definition authorize {A} (allowed : list RoleName) (u : Principal)
  (next : Response A * DB) (db : DB) : Response A * DB :=
  if bool_decide (pr_role u ∈ allowed) then next else (Forbidden, db).

End Guard.

(* ===================================================================== *)
(** * The handlers of the posts router *)
(* ===================================================================== *)

Module Posts.
Import Store.

Record AuthorView := mkAuthorView {
  av_id : ObjectId;
  av_name : string;
  av_avatar : string;
  av_bio : option string          (* only the single-post response has it *)
}.

Record CategoryView := mkCategoryView {
  cv_id : ObjectId;
  cv_name : string
}.

(** The post object of a response; a field that a response does not carry
    is [None]. *)
Record PostView := mkPostView {
  v_id : ObjectId;
  v_title : string;
  v_content : string;
  v_excerpt : option string;
  v_author : AuthorView;
  v_category : CategoryView;
  v_tags : list string;
  v_featuredImage : string;
  v_status : option Status;
  v_viewCount : option Z;
  v_isFeatured : option bool;
  v_commentsCount : option Z;
  v_comments : list ObjectId;
  v_createdAt : option Z;
  v_updatedAt : option Z
}.

Record ListBody := mkListBody {
  lb_count : Z;
  lb_pagination : Pagination;
  lb_posts : list PostView
}.

Record ListQuery := mkListQuery {
  q_page : option Z;           (* parseInt(req.query.page, 10) *)
  q_limit : option Z;          (* parseInt(req.query.limit, 10) *)
  q_category : option string;
  q_search : option string
}.

(** A query-string or body value used as a condition: the empty string is
    falsy, as is an absent value. *)
Definition truthy (v : option string) : option string :=
  match v with
  | Some "" | None => None
  | Some s => Some s
  end.

(** [populate('author', ...)] and [populate('category', 'name')] leave [null]
    where the referenced document is gone, and the response code then reads
    [post.author._id] or [post.category._id]: a [TypeError], here [None]. *)
Definition populate_author (with_bio : bool) (db : DB) (p : Post) : option AuthorView :=
  u ← users db !! p_author p;
  Some (mkAuthorView (p_author p) (u_name u) (u_avatar u)
                     (if with_bio then Some (u_bio u) else None)).

Definition populate_category (db : DB) (p : Post) : option CategoryView :=
  c ← categories db !! p_category p;
  Some (mkCategoryView (p_category p) (cat_name c)).

Section handlers.

(** Mongoose's cast of a string of the request to an [ObjectId]; [None] is
    the [CastError] that the query throws. *)
Variable castObjectId : string → option ObjectId.

(** The matcher of [{ $regex: pattern, $options: 'i' }]; [None] when the
    server rejects the pattern. *)
Variable regex_i : string → option (string → bool).

(** [Category.findOne({ $or: [{ _id: i }, { name: ... }] })]. *)
Definition findOne_category (i : ObjectId) (name_ok : string → bool) (db : DB)
  : option (nat * CategoryDoc) :=
  List.find (fun kc => bool_decide (kc.1 = i) || name_ok (cat_name kc.2))
            (map_to_list (categories db)).

(** *** GET / *)

(** Lines 404-414: the category condition of the query.  The outer [None] is
    a thrown error; when no category is found the query gets no condition. *)
Definition category_condition (q : ListQuery) (db : DB)
  : option (nat * Post → bool) :=
  match truthy (q_category q) with
  | None => Some (fun _ => true)
  | Some s =>
      i ← castObjectId s;
      Some (match findOne_category i (String.eqb s) db with
            | Some (cid, _) => fun kp => bool_decide (p_category kp.2 = cid)
            | None => fun _ => true
            end)
  end.

(** Lines 416-421: the search condition. *)
Definition search_condition (q : ListQuery) : option (nat * Post → bool) :=
  match truthy (q_search q) with
  | None => Some (fun _ => true)
  | Some s =>
      re ← regex_i s;
      Some (fun kp => re (p_title kp.2) || re (p_content kp.2))
  end.

Definition is_published (kp : nat * Post) : bool :=
  bool_decide (p_status kp.2 = published).

Definition list_view (db : DB) (kp : nat * Post) : option PostView :=
  a ← populate_author false db kp.2;
  c ← populate_category db kp.2;
  let cs := approved_comments_of kp.1 db in
  Some (mkPostView kp.1 (p_title kp.2) (p_content kp.2) (p_excerpt kp.2) a c
          (p_tags kp.2) (p_featuredImage kp.2) None
          (Some (p_viewCount kp.2)) (Some (p_isFeatured kp.2))
          (Some (Z.of_nat (length cs))) (take 3 cs.*1)
          (Some (p_createdAt kp.2)) (Some (p_updatedAt kp.2))).

(** The tail shared by the two listings: skip and limit, count, shape. *)
Definition paginated (page limit : Z) (view : nat * Post → option PostView)
  (matching : list (nat * Post)) : Response ListBody :=
  let startIndex := (page - 1) * limit in
  match skip_limit startIndex limit matching with
  | None => ServerError
  | Some found =>
      let total := Z.of_nat (length matching) in
      match mapM view found with
      | None => ServerError
      | Some vs =>
          Ok (mkListBody (Z.of_nat (length found))
                (mkPagination page (Math_ceil_div total limit) total) vs)
      end
  end.

Definition list_query (q : ListQuery) (db : DB) : option (nat * Post → bool) :=
  catc ← category_condition q db;
  searchc ← search_condition q;
  Some (fun kp => is_published kp && catc kp && searchc kp).

Definition list_posts (q : ListQuery) (db : DB) : Response ListBody * DB :=
  let page := or_default (q_page q) 1 in
  let limit := or_default (q_limit q) 10 in
  match list_query q db with
  | None => (ServerError, db)
  | Some query => (paginated page limit (list_view db) (find_posts query db), db)
  end.

(** The same request for page [k]. *)
Definition with_page (k : Z) (q : ListQuery) : ListQuery :=
  mkListQuery (Some k) (q_limit q) (q_category q) (q_search q).

(** *** GET /:id *)

Definition set_viewCount (n : Z) (p : Post) : Post :=
  mkPost (p_title p) (p_content p) (p_excerpt p) (p_author p) (p_category p)
         (p_tags p) (p_featuredImage p) (p_status p) n (p_isFeatured p)
         (p_createdAt p) (p_updatedAt p).

Definition set_updatedAt (t : Z) (p : Post) : Post :=
  mkPost (p_title p) (p_content p) (p_excerpt p) (p_author p) (p_category p)
         (p_tags p) (p_featuredImage p) (p_status p) (p_viewCount p)
         (p_isFeatured p) (p_createdAt p) t.

Definition single_view (db : DB) (id : ObjectId) (p : Post) : option PostView :=
  a ← populate_author true db p;
  c ← populate_category db p;
  let cs := approved_comments_of id db in
  Some (mkPostView id (p_title p) (p_content p) (p_excerpt p) a c
          (p_tags p) (p_featuredImage p) None
          (Some (p_viewCount p)) (Some (p_isFeatured p))
          (Some (Z.of_nat (length cs))) cs.*1
          (Some (p_createdAt p)) (Some (p_updatedAt p))).

(** Lines 486-547.  [now] is the clock that [save] reads for [updatedAt];
    [save] writes, and moves [updatedAt], only when the count changed. *)
Definition get_post (now : Z) (id : string) (db : DB) : Response PostView * DB :=
  match castObjectId id with
  | None => (ServerError, db)
  | Some i =>
      match posts db !! i with
      | None => (NotFound "Post not found", db)
      | Some p =>
          let n := Number_succ (p_viewCount p) in
          let p' :=
            if decide (n = p_viewCount p) then p
            else set_updatedAt now (set_viewCount n p) in
          let db' :=
            if decide (n = p_viewCount p) then db
            else with_posts (<[i := p']> (posts db)) db in
          match single_view db' i p' with
          | None => (ServerError, db')
          | Some v => (Ok v, db')
          end
      end
  end.

(** *** GET /category/:categoryId *)

Definition category_view (db : DB) (kp : nat * Post) : option PostView :=
  a ← populate_author false db kp.2;
  c ← populate_category db kp.2;
  let cs := approved_comments_of kp.1 db in
  Some (mkPostView kp.1 (p_title kp.2) (p_content kp.2) (p_excerpt kp.2) a c
          (p_tags kp.2) (p_featuredImage kp.2) None
          (Some (p_viewCount kp.2)) (Some (p_isFeatured kp.2))
          (Some (Z.of_nat (length cs))) []
          (Some (p_createdAt kp.2)) None).

Definition posts_by_category (categoryId : string) (page limit : option Z) (db : DB)
  : Response ListBody * DB :=
  match castObjectId categoryId with
  | None => (ServerError, db)
  | Some cid =>
      match categories db !! cid with
      | None => (NotFound "Category not found", db)
      | Some _ =>
          let query kp := bool_decide (p_category kp.2 = cid) && is_published kp in
          (paginated (or_default page 1) (or_default limit 10)
                     (category_view db) (find_posts query db), db)
      end
  end.

(** *** PUT /:id *)

Record PostBody := mkPostBody {
  b_title : option string;
  b_content : option string;
  b_excerpt : option string;
  b_category : option string;
  b_tags : option (list string);
  b_featuredImage : option string;
  b_status : option string
}.

(** The [enum] of the schema's [status] path. *)
Definition status_of_string (s : string) : option Status :=
  if String.eqb s "draft" then Some draft
  else if String.eqb s "published" then Some published
  else if String.eqb s "archived" then Some archived
  else None.

#[global] Instance Post_eq_dec : EqDecision Post.
Proof. solve_decision. Defined.

Definition update_view (db : DB) (id : ObjectId) (p : Post) : option PostView :=
  a ← populate_author false db p;
  c ← populate_category db p;
  Some (mkPostView id (p_title p) (p_content p) (p_excerpt p) a c
          (p_tags p) (p_featuredImage p) (Some (p_status p)) None None None []
          None (Some (p_updatedAt p))).

(** The category of the body, lines 669-684: [inl] is the response that ends
    the request, [inr] the category of the post from here on. *)
Definition resolve_category (b : PostBody) (post : Post) (db : DB)
  : Response PostView + ObjectId :=
  match truthy (b_category b) with
  | None => inr (p_category post)
  | Some s =>
      match castObjectId s, regex_i ("^" ++ s ++ "$")%string with
      | Some i, Some re =>
          match findOne_category i re db with
          | None => inl (BadRequest "Category not found")
          | Some (cid, _) => inr cid
          end
      | _, _ => inl ServerError
      end
  end.

(** The assignments of lines 687-692 on the loaded document; [None] when
    [save] would reject the document (a status outside the enum, an excerpt
    of more than 200 characters). *)
Definition assign_fields (b : PostBody) (title content : option string)
  (category : ObjectId) (post : Post) : option Post :=
  st ← match truthy (b_status b) with
       | None => Some (p_status post)
       | Some s => status_of_string s
       end;
  let excerpt := match b_excerpt b with Some e => Some e | None => p_excerpt post end in
  if match excerpt with Some e => (200 <? String.length e)%nat | None => false end
  then None
  else
    Some (mkPost
            (match truthy title with Some t => t | None => p_title post end)
            (match truthy content with Some c => c | None => p_content post end)
            excerpt
            (p_author post)
            category
            (match b_tags b with Some ts => trim <$> ts | None => p_tags post end)
            (match b_featuredImage b with Some f => f | None => p_featuredImage post end)
            st
            (p_viewCount post) (p_isFeatured post)
            (p_createdAt post) (p_updatedAt post)).

(** The handler proper, lines 654-730, on the resource that the guard loaded.
    [save] writes, and moves [updatedAt], only when a path changed. *)
Definition update_post (now : Z) (id : ObjectId) (b : PostBody) (post : Post) (db : DB)
  : Response PostView * DB :=
  match check_length 5 (Some 100%nat) (b_title b),
        check_length 10 None (b_content b) with
  | Some title, Some content =>
      match resolve_category b post db with
      | inl r => (r, db)
      | inr category =>
          match assign_fields b title content category post with
          | None => (ServerError, db)
          | Some post' =>
              let saved :=
                if decide (post' = post) then post else set_updatedAt now post' in
              let db' :=
                if decide (post' = post) then db
                else with_posts (<[id := saved]> (posts db)) db in
              match update_view db' id saved with
              | None => (ServerError, db')
              | Some v => (Ok v, db')
              end
          end
      end
  | _, _ => (BadRequest "validation failed", db)
  end.

(** [router.put('/:id', protect, isAuthor(Post), [...], handler)]. *)
Definition put_post (now : Z) (auth : option Principal) (id : ObjectId)
  (b : PostBody) (db : DB) : Response PostView * DB :=
  Guard.protect auth
    (fun u => Guard.isAuthor (posts db !! id) p_author u
                (fun post => update_post now id b post db) db) db.

End handlers.

(** *** GET /trending *)

(** A document of the pipeline after [$lookup] and [$addFields]. *)
Record Joined := mkJoined {
  j_id : ObjectId;
  j_post : Post;
  j_comments : list (nat * Comment);
  j_author : option User;
  j_category : option CategoryDoc;
  j_commentsCount : Z
}.

Record TrendingEntry := mkTrendingEntry {
  t_id : ObjectId;
  t_title : string;
  t_content : string;
  t_excerpt : option string;
  t_author : option AuthorView;
  t_category : option CategoryView;
  t_tags : list string;
  t_featuredImage : string;
  t_viewCount : Z;
  t_isFeatured : bool;
  t_commentsCount : Z;
  t_createdAt : Z
}.

(** [$match: { status: 'published' }]. *)
Definition stage_match (db : DB) : list (nat * Post) :=
  filter (fun kp => p_status kp.2 = published) (map_to_list (posts db)).

(** The three [$lookup]s and [$addFields]. *)
Definition stage_join (db : DB) (kp : nat * Post) : Joined :=
  let cs := comments_of kp.1 db in
  mkJoined kp.1 kp.2 cs (users db !! p_author kp.2)
           (categories db !! p_category kp.2) (Z.of_nat (length cs)).

(** [$sort: { commentsCount: -1, viewCount: -1 }]: a document with comment
    count [c1] and view count [v1] may stand before one with [c2] and [v2]. *)
Definition ranks_before (c1 v1 c2 v2 : Z) : Prop :=
  c2 < c1 ∨ (c1 = c2 ∧ v2 ≤ v1).

Definition trending_order (a b : Joined) : Prop :=
  ranks_before (j_commentsCount a) (p_viewCount (j_post a))
               (j_commentsCount b) (p_viewCount (j_post b)).

#[global] Instance trending_order_dec : RelDecision trending_order.
Proof. intros a b. unfold trending_order, ranks_before. apply _. Defined.

Definition stage_sort (l : list Joined) : list Joined :=
  merge_sort trending_order l.

(** [$limit: 5]. *)
Definition stage_limit (l : list Joined) : list Joined := take 5 l.

(** [$project]. *)
Definition stage_project (j : Joined) : TrendingEntry :=
  let p := j_post j in
  mkTrendingEntry (j_id j) (p_title p) (p_content p) (p_excerpt p)
    (u ← j_author j; Some (mkAuthorView (p_author p) (u_name u) (u_avatar u) None))
    (c ← j_category j; Some (mkCategoryView (p_category p) (cat_name c)))
    (p_tags p) (p_featuredImage p) (p_viewCount p) (p_isFeatured p)
    (j_commentsCount j) (p_createdAt p).

Definition ranked (db : DB) : list Joined :=
  stage_sort (stage_join db <$> stage_match db).

Definition aggregate_trending (db : DB) : list TrendingEntry :=
  stage_project <$> stage_limit (ranked db).

(** The order of the [$sort], read on the entries of the response. *)
Definition entry_order (a b : TrendingEntry) : Prop :=
  ranks_before (t_commentsCount a) (t_viewCount a)
               (t_commentsCount b) (t_viewCount b).

(** Lines 842-924. *)
Definition trending (db : DB) : Response (Z * list TrendingEntry) * DB :=
  let ts := aggregate_trending db in
  (Ok (Z.of_nat (length ts), ts), db).

End Posts.

(* ===================================================================== *)
(** * The handlers of the comments router *)
(* ===================================================================== *)

Module Comments.
Import Store.

#[global] Instance Comment_eq_dec : EqDecision Comment.
Proof. solve_decision. Defined.

Definition set_text (t : string) (c : Comment) : Comment :=
  mkComment t (cm_post c) (cm_author c) (cm_parentComment c) (cm_replies c)
            (cm_likes c) (cm_isApproved c) (cm_isEdited c)
            (cm_createdAt c) (cm_updatedAt c).

Definition set_isEdited (e : bool) (c : Comment) : Comment :=
  mkComment (cm_text c) (cm_post c) (cm_author c) (cm_parentComment c)
            (cm_replies c) (cm_likes c) (cm_isApproved c) e
            (cm_createdAt c) (cm_updatedAt c).

Definition set_replies (r : list ObjectId) (c : Comment) : Comment :=
  mkComment (cm_text c) (cm_post c) (cm_author c) (cm_parentComment c) r
            (cm_likes c) (cm_isApproved c) (cm_isEdited c)
            (cm_createdAt c) (cm_updatedAt c).

Definition set_likes (l : list ObjectId) (c : Comment) : Comment :=
  mkComment (cm_text c) (cm_post c) (cm_author c) (cm_parentComment c)
            (cm_replies c) l (cm_isApproved c) (cm_isEdited c)
            (cm_createdAt c) (cm_updatedAt c).

Definition set_isApproved (a : bool) (c : Comment) : Comment :=
  mkComment (cm_text c) (cm_post c) (cm_author c) (cm_parentComment c)
            (cm_replies c) (cm_likes c) a (cm_isEdited c)
            (cm_createdAt c) (cm_updatedAt c).

Definition set_updatedAt (t : Z) (c : Comment) : Comment :=
  mkComment (cm_text c) (cm_post c) (cm_author c) (cm_parentComment c)
            (cm_replies c) (cm_likes c) (cm_isApproved c) (cm_isEdited c)
            (cm_createdAt c) t.

(** [doc.save()] of a loaded comment: nothing is written when no path
    changed; otherwise the document is stored with a new [updatedAt]. *)
Definition save (now : Z) (id : ObjectId) (old new : Comment) (db : DB) : Comment * DB :=
  if decide (new = old) then (old, db)
  else let c := set_updatedAt now new in
       (c, with_comments (<[id := c]> (comments db)) db).

(** [Comment.findByIdAndUpdate(id, update)]: no document, no change. *)
Definition findByIdAndUpdate (now : Z) (id : ObjectId) (update : Comment → Comment)
  (db : DB) : DB :=
  match comments db !! id with
  | None => db
  | Some c =>
      with_comments (<[id := set_updatedAt now (update c)]> (comments db)) db
  end.

Record CommentView := mkCommentView {
  w_id : ObjectId;
  w_text : string;
  w_author : ObjectId * string * string;     (* id, name, avatar *)
  w_parentComment : option ObjectId;
  w_likes : Z;
  w_isApproved : bool;
  w_isEdited : bool
}.

Definition comment_view (db : DB) (id : ObjectId) (c : Comment) : option CommentView :=
  u ← users db !! cm_author c;
  Some (mkCommentView id (cm_text c) (cm_author c, u_name u, u_avatar u)
          (cm_parentComment c) (Z.of_nat (length (cm_likes c)))
          (cm_isApproved c) (cm_isEdited c)).

(** *** POST / *)

Record CommentBody := mkCommentBody {
  cb_text : option string;
  cb_post : ObjectId;
  cb_parentComment : option ObjectId
}.

(** Lines 118-126: a parent is named and [findById] does not find it. *)
Definition parent_missing (parentComment : option ObjectId) (db : DB) : bool :=
  match parentComment with
  | Some parent =>
      match comments db !! parent with
      | None => true
      | Some _ => false
      end
  | None => false
  end.

(** Lines 95-171, for the principal [u]. *)
Definition create_comment (now : Z) (u : Principal) (b : CommentBody) (db : DB)
  : Response CommentView * DB :=
  match check_length 1 (Some 1000%nat) (Some (default "" (cb_text b))) with
  | Some (Some text) =>
      match posts db !! cb_post b with
      | None => (NotFound "Post not found", db)
      | Some _ =>
          if parent_missing (cb_parentComment b) db
          then (NotFound "Parent comment not found", db)
          else
            let id := nextId db in
            let comment :=
              mkComment text (cb_post b) (pr_id u) (cb_parentComment b)
                        [] [] true false now now in
            let db1 :=
              mkDB (posts db) (<[id := comment]> (comments db)) (users db)
                   (categories db) (S id) in
            let db2 :=
              match cb_parentComment b with
              | Some parent =>
                  findByIdAndUpdate now parent
                    (fun p => set_replies (cm_replies p ++ [id]) p) db1
              | None => db1
              end in
            match comment_view db2 id comment with
            | None => (ServerError, db2)
            | Some v => (Created v, db2)
            end
      end
  | _ => (BadRequest "validation failed", db)
  end.

(** *** PUT /:id *)

(** Lines 181-225, on the resource that the guard loaded. *)
Definition update_comment (now : Z) (id : ObjectId) (text : option string)
  (comment : Comment) (db : DB) : Response CommentView * DB :=
  match check_length 1 (Some 1000%nat) (Some (default "" text)) with
  | Some (Some t) =>
      let '(saved, db') :=
        save now id comment (set_isEdited true (set_text t comment)) db in
      match comment_view db' id saved with
      | None => (ServerError, db')
      | Some v => (Ok v, db')
      end
  | _ => (BadRequest "validation failed", db)
  end.

(** *** DELETE /:id *)

(** Lines 230-254, on the resource that the guard loaded. *)
Definition delete_comment (now : Z) (id : ObjectId) (comment : Comment) (db : DB)
  : Response unit * DB :=
  let db1 :=
    match cm_parentComment comment with
    | Some parent =>
        findByIdAndUpdate now parent
          (fun p => set_replies (filter (fun r => r ≠ id) (cm_replies p)) p) db
    | None => db
    end in
  (Ok (), with_comments (delete id (comments db1)) db1).

(** *** POST /:id/like *)

(** The branches of lines 269-277 on the likes array. *)
Definition toggle_like (user : ObjectId) (likes : list ObjectId) : list ObjectId :=
  if bool_decide (user ∈ likes)
  then filter (fun id => id ≠ user) likes
  else likes ++ [user].

(** Lines 259-296, for the principal [u]; the body of the response is the
    pair [likes], [isLiked]. *)
Definition like_comment (now : Z) (u : Principal) (id : ObjectId) (db : DB)
  : Response (Z * bool) * DB :=
  match comments db !! id with
  | None => (NotFound "Comment not found", db)
  | Some comment =>
      let userLiked := bool_decide (pr_id u ∈ cm_likes comment) in
      let '(saved, db') :=
        save now id comment
             (set_likes (toggle_like (pr_id u) (cm_likes comment)) comment) db in
      (Ok (Z.of_nat (length (cm_likes saved)), negb userLiked), db')
  end.

(** *** PATCH /:id/approve *)

(** Lines 301-333, past the guards. *)
Definition approve_comment (now : Z) (id : ObjectId) (isApproved : bool) (db : DB)
  : Response (ObjectId * bool) * DB :=
  match comments db !! id with
  | None => (NotFound "Comment not found", db)
  | Some comment =>
      let '(saved, db') := save now id comment (set_isApproved isApproved comment) db in
      (Ok (id, cm_isApproved saved), db')
  end.

(** ** The routes with their guards *)

Inductive Request :=
| ReqCreate (b : CommentBody)
| ReqUpdate (id : ObjectId) (text : option string)
| ReqDelete (id : ObjectId)
| ReqLike (id : ObjectId)
| ReqApprove (id : ObjectId) (isApproved : bool).

Definition drop_body {A} (r : Response A * DB) : DB := r.2.

(** The state after a request of the comments router made at time [now]
    with the credential resolved to [auth]. *)
Definition handle (now : Z) (auth : option Principal) (r : Request) (db : DB) : DB :=
  match r with
  | ReqCreate b =>
      drop_body (Guard.protect auth (fun u => create_comment now u b db) db)
  | ReqUpdate id text =>
      drop_body (Guard.protect auth
        (fun u => Guard.isAuthor (comments db !! id) cm_author u
                    (fun c => update_comment now id text c db) db) db)
  | ReqDelete id =>
      drop_body (Guard.protect auth
        (fun u => Guard.isAuthor (comments db !! id) cm_author u
                    (fun c => delete_comment now id c db) db) db)
  | ReqLike id =>
      drop_body (Guard.protect auth (fun u => like_comment now u id db) db)
  | ReqApprove id isApproved =>
      drop_body (Guard.protect auth
        (fun u => Guard.authorize [role_admin] u
                    (approve_comment now id isApproved db) db) db)
  end.

(** A store as the seeder leaves it: every comment is top-level and every id
    in use was handed out already. *)
Definition seeded (db : DB) : Prop :=
  ∀ id c, comments db !! id = Some c →
          (id < nextId db)%nat ∧ cm_parentComment c = None.

(** The states that the comment operations reach from a seeded store. *)
Inductive reachable : DB → Prop :=
| reachable_seeded db : seeded db → reachable db
| reachable_handle db now auth r :
    reachable db → reachable (handle now auth r db).

(** [parent_of db c p]: the stored comment [c] names [p] as its parent. *)
Definition parent_of (db : DB) (c p : ObjectId) : Prop :=
  ∃ d, comments db !! c = Some d ∧ cm_parentComment d = Some p.

(** [p] is an ancestor of [c]. *)
Definition ancestor (db : DB) (c p : ObjectId) : Prop := tc (parent_of db) c p.

(** ** Relations between a store and a later one *)

(** Every comment has an id below the counter and a parent, if any, with an
    id below its own. *)
Definition parents_older (db : DB) : Prop :=
  ∀ id c, comments db !! id = Some c →
          (id < nextId db)%nat
          ∧ ∀ p, cm_parentComment c = Some p → (p < id)%nat.

(** [db'] has no comment that [db] lacks, and no parent link has changed. *)
Definition keeps_parents (db db' : DB) : Prop :=
  nextId db' = nextId db
  ∧ ∀ j c', comments db' !! j = Some c' →
            ∃ c, comments db !! j = Some c
                 ∧ cm_parentComment c' = cm_parentComment c.

(** As [keeps_parents], but [db'] may also hold one new comment, under the
    id that the counter of [db] gives out, whose parent is a comment of [db]. *)
Definition adds_child_only (db db' : DB) : Prop :=
  (nextId db ≤ nextId db')%nat
  ∧ ∀ j c', comments db' !! j = Some c' →
            (j = nextId db ∧ (nextId db < nextId db')%nat
             ∧ ∀ p, cm_parentComment c' = Some p → is_Some (comments db !! p))
            ∨ (∃ c, comments db !! j = Some c
                    ∧ cm_parentComment c' = cm_parentComment c).

End Comments.

(* ===================================================================== *)
(** * Sample stores *)
(* ===================================================================== *)

Module Sample.
Import Store.
Local Open Scope nat_scope.

(** Requests name documents by decimal ids here. *)
Definition digit_value (c : ascii) : option nat :=
  let n := nat_of_ascii c in
  if CategoryModel.between 48 57 n then Some (n - 48)%nat else None.

Fixpoint decimal (acc : nat) (s : string) : option nat :=
  match s with
  | EmptyString => Some acc
  | String c s' => d ← digit_value c; decimal (10 * acc + d) s'
  end.

Definition castObjectId (s : string) : option ObjectId :=
  match s with
  | EmptyString => None
  | _ => decimal 0 s
  end.

(** A matcher that accepts no pattern: the sample requests carry none. *)
Definition regex_i (pattern : string) : option (string → bool) := None.

Definition john : User := mkUser "John Doe" "" "Software developer".
Definition jane : User := mkUser "Jane Smith" "" "Travel blogger".

Definition technology : CategoryDoc := mkCategoryDoc "Technology" "".

(** A draft by John (user 1) in Technology (category 3). *)
Definition draft_post : Post :=
  mkPost "Unfinished thoughts" "Notes that are not ready yet" None 1 3
         [] "" draft 0 false 100 100.

Definition intro_post : Post :=
  mkPost "Introduction to Node.js" "Node.js is a powerful runtime" None 1 3
         ["nodejs"] "" published 4 false 50 50.

Definition future_post : Post :=
  mkPost "The Future of Web Development" "Web development is evolving" None 2 3
         [] "" published 9 false 60 60.

Definition top_comment : Comment :=
  mkComment "Great article!" 5 2 None [8] [1; 2] true false 70 80.

Definition reply_comment : Comment :=
  mkComment "Thank you." 5 1 (Some 7) [9] [] true false 80 90.

Definition nested_comment : Comment :=
  mkComment "Agreed." 5 2 (Some 8) [] [] true false 90 90.

Definition db : DB :=
  mkDB {[ 4 := draft_post; 5 := intro_post; 6 := future_post ]}
       {[ 7 := top_comment; 8 := reply_comment; 9 := nested_comment ]}
       {[ 1 := john; 2 := jane ]}
       {[ 3 := technology ]}
       10.

(** A store as the seeder leaves it. *)
Definition seed_db : DB :=
  mkDB {[ 5 := intro_post ]}
       {[ 7 := mkComment "Great article!" 5 2 None [] [] true false 70 70 ]}
       {[ 1 := john; 2 := jane ]}
       {[ 3 := technology ]}
       10.

(** John replies to the seeded comment 7. *)
Definition reply_request : Comments.Request :=
  Comments.ReqCreate (Comments.mkCommentBody (Some "Thanks!") 5 (Some 7)).

Definition replied_db : DB :=
  Comments.handle 100 (Some (mkPrincipal 1 role_user)) reply_request seed_db.

End Sample.

(* ===================================================================== *)
(** * The comments router and the users router: registration order *)
(* ===================================================================== *)

Module Routing.
Import Router.

(** A route of a router whose handlers are of type [H]. *)
Record RouteTo (H : Type) := mkRouteTo {
  rt_method : Method;
  rt_path : list Segment;
  rt_handler : H
}.

Arguments mkRouteTo {H} _ _ _.
Arguments rt_method {H} _.
Arguments rt_path {H} _.
Arguments rt_handler {H} _.

(** First-match dispatch, as [Router.dispatch_in], for any handler type. *)
Fixpoint dispatch_to {H} (routes : list (RouteTo H)) (m : Method)
  (segs : list string) : option (H * list (string * string)) :=
  match routes with
  | [] => None
  | r :: routes' =>
      if bool_decide (rt_method r = m) then
        match match_path (rt_path r) segs with
        | Some params => Some (rt_handler r, params)
        | None => dispatch_to routes' m segs
        end
      else dispatch_to routes' m segs
  end.

Inductive CommentsHandler :=
| CommentsForPost | CreateComment | UpdateComment | DeleteComment
| LikeComment | ApproveComment | RepliesOfComment.

(** The [router.METHOD(path, ...)] calls of the comments router, in the
    order in which the file makes them. *)
Definition comments_routes : list (RouteTo CommentsHandler) :=
  [ mkRouteTo GET [Lit "post"; Param "postId"] CommentsForPost;
    mkRouteTo POST [] CreateComment;
    mkRouteTo PUT [Param "id"] UpdateComment;
    mkRouteTo DELETE [Param "id"] DeleteComment;
    mkRouteTo POST [Param "id"; Lit "like"] LikeComment;
    mkRouteTo PATCH [Param "id"; Lit "approve"] ApproveComment;
    mkRouteTo GET [Param "id"; Lit "replies"] RepliesOfComment ].

Definition dispatch_comments := dispatch_to comments_routes.

Inductive UsersHandler :=
| GetMe | ListUsers | GetUser | UpdateMe | SetUserStatus.

(** The [router.METHOD(path, ...)] calls of routes/users.js, in the order in
    which the file makes them. *)
Definition users_routes : list (RouteTo UsersHandler) :=
  [ mkRouteTo GET [Lit "me"] GetMe;
    mkRouteTo GET [] ListUsers;
    mkRouteTo GET [Param "id"] GetUser;
    mkRouteTo PUT [Lit "me"] UpdateMe;
    mkRouteTo PATCH [Param "id"; Lit "status"] SetUserStatus ].

Definition dispatch_users := dispatch_to users_routes.

(** The posts router as a table of this kind. *)
Definition posts_table : list (RouteTo Handler) :=
  (fun r => mkRouteTo (r_method r) (r_path r) (r_handler r)) <$> posts_routes.

End Routing.

(* ===================================================================== *)
(** * The read handlers of the comments router *)
(* ===================================================================== *)

Module CommentsRead.
Import Store.

(** A comment of a listing; the replies listing carries no reply count. *)
Record CommentItem := mkCommentItem {
  ci_id : ObjectId;
  ci_text : string;
  ci_author : ObjectId * string * string;     (* id, name, avatar *)
  ci_likes : Z;
  ci_replies : option Z;
  ci_isEdited : bool;
  ci_createdAt : Z;
  ci_updatedAt : Z
}.

Record CommentsBody := mkCommentsBody {
  cb_count : Z;
  cb_pagination : Pagination;
  cb_comments : list CommentItem
}.

(** [.sort({ createdAt: -1 })] and [.sort({ createdAt: 1 })] on comments. *)
Definition comment_newer_first (a b : nat * Comment) : Prop :=
  cm_createdAt b.2 ≤ cm_createdAt a.2.

Definition comment_older_first (a b : nat * Comment) : Prop :=
  cm_createdAt a.2 ≤ cm_createdAt b.2.

#[global] Instance comment_newer_first_dec : RelDecision comment_newer_first.
Proof. intros a b. unfold comment_newer_first. apply _. Defined.

#[global] Instance comment_older_first_dec : RelDecision comment_older_first.
Proof. intros a b. unfold comment_older_first. apply _. Defined.

(** [Comment.find(query)], before the sort. *)
Definition matching_comments (query : nat * Comment → bool) (db : DB)
  : list (nat * Comment) :=
  filter (fun kc => Is_true (query kc)) (map_to_list (comments db)).

(** [populate({ path: 'replies', match: { isApproved: true } })]: an id of
    the array stays, as the document, when the document exists and is
    approved, and is dropped otherwise. *)
Definition populate_replies (db : DB) (c : Comment) : list (nat * Comment) :=
  omap (fun r => d ← comments db !! r;
                 if cm_isApproved d then Some (r, d) else None)
       (cm_replies c).

(** The object of lines 59-72; [comment.author._id] throws when the author
    is gone. *)
Definition listing_item (db : DB) (kc : nat * Comment) : option CommentItem :=
  u ← users db !! cm_author kc.2;
  Some (mkCommentItem kc.1 (cm_text kc.2)
          (cm_author kc.2, u_name u, u_avatar u)
          (Z.of_nat (length (cm_likes kc.2)))
          (Some (Z.of_nat (length (populate_replies db kc.2))))
          (cm_isEdited kc.2) (cm_createdAt kc.2) (cm_updatedAt kc.2)).

(** The object of lines 359-371. *)
Definition reply_item (db : DB) (kc : nat * Comment) : option CommentItem :=
  u ← users db !! cm_author kc.2;
  Some (mkCommentItem kc.1 (cm_text kc.2)
          (cm_author kc.2, u_name u, u_avatar u)
          (Z.of_nat (length (cm_likes kc.2))) None
          (cm_isEdited kc.2) (cm_createdAt kc.2) (cm_updatedAt kc.2)).

(** The query of lines 26-30 and 44-48. *)
Definition top_level_approved (post : ObjectId) (kc : nat * Comment) : bool :=
  bool_decide (cm_post kc.2 = post)
  && bool_decide (cm_parentComment kc.2 = None)
  && cm_isApproved kc.2.

(** The query of lines 348-351. *)
Definition approved_reply_to (parent : ObjectId) (kc : nat * Comment) : bool :=
  bool_decide (cm_parentComment kc.2 = Some parent) && cm_isApproved kc.2.

Section handlers.

Variable castObjectId : string → option ObjectId.

(** GET /post/:postId, lines 12-82. *)
Definition comments_for_post (postId : string) (page limit : option Z) (db : DB)
  : Response CommentsBody * DB :=
  match castObjectId postId with
  | None => (ServerError, db)
  | Some pid =>
      match posts db !! pid with
      | None => (NotFound "Post not found", db)
      | Some _ =>
          let page := or_default page 1 in
          let limit := or_default limit 10 in
          let startIndex := (page - 1) * limit in
          let matching :=
            merge_sort comment_newer_first
                       (matching_comments (top_level_approved pid) db) in
          match skip_limit startIndex limit matching with
          | None => (ServerError, db)
          | Some found =>
              let total := Z.of_nat (length matching) in
              match mapM (listing_item db) found with
              | None => (ServerError, db)
              | Some items =>
                  (Ok (mkCommentsBody (Z.of_nat (length found))
                         (mkPagination page (Math_ceil_div total limit) total)
                         items), db)
              end
          end
      end
  end.

(** GET /:id/replies, lines 338-381; the body is [count] and [replies]. *)
Definition replies_of (id : string) (db : DB)
  : Response (Z * list CommentItem) * DB :=
  match castObjectId id with
  | None => (ServerError, db)
  | Some cid =>
      match comments db !! cid with
      | None => (NotFound "Comment not found", db)
      | Some _ =>
          let replies :=
            merge_sort comment_older_first
                       (matching_comments (approved_reply_to cid) db) in
          match mapM (reply_item db) replies with
          | None => (ServerError, db)
          | Some items => (Ok (Z.of_nat (length replies), items), db)
          end
      end
  end.

End handlers.

End CommentsRead.

(* ===================================================================== *)
(** * The write handlers of the posts router, and its requests *)
(* ===================================================================== *)

Module PostsWrite.
Import Store Posts.

Section handlers.

Variable castObjectId : string → option ObjectId.
Variable regex_i : string → option (string → bool).

(** *** POST / *)

(** The document of [Post.create], lines 592-601, with the defaults of the
    schema; [None] when the schema rejects it (a status outside the enum, an
    excerpt of more than 200 characters). *)
Definition new_post (now : Z) (u : Principal) (b : PostBody)
  (title content : string) (category : ObjectId) : option Post :=
  st ← match truthy (b_status b) with
       | None => Some published
       | Some s => status_of_string s
       end;
  if match b_excerpt b with Some e => (200 <? String.length e)%nat | None => false end
  then None
  else
    Some (mkPost title content (b_excerpt b) (pr_id u) category
                 (match b_tags b with Some ts => trim <$> ts | None => [] end)
                 (default "" (b_featuredImage b))
                 st 0 false now now).

Definition create_view (db : DB) (id : ObjectId) (p : Post) : option PostView :=
  a ← populate_author false db p;
  c ← populate_category db p;
  Some (mkPostView id (p_title p) (p_content p) (p_excerpt p) a c
          (p_tags p) (p_featuredImage p) (Some (p_status p)) None None None []
          (Some (p_createdAt p)) None).

(** Lines 564-638, for the principal [u]. *)
Definition create_post (now : Z) (u : Principal) (b : PostBody) (db : DB)
  : Response PostView * DB :=
  match check_length 5 (Some 100%nat) (Some (default "" (b_title b))),
        check_length 10 None (Some (default "" (b_content b))),
        truthy (b_category b) with
  | Some (Some title), Some (Some content), Some category =>
      match castObjectId category, regex_i ("^" ++ category ++ "$")%string with
      | Some i, Some re =>
          match findOne_category i re db with
          | None => (BadRequest "Category not found", db)
          | Some (cid, _) =>
              match new_post now u b title content cid with
              | None => (ServerError, db)
              | Some post =>
                  let id := nextId db in
                  let db' :=
                    mkDB (<[id := post]> (posts db)) (comments db) (users db)
                         (categories db) (S id) in
                  match create_view db' id post with
                  | None => (ServerError, db')
                  | Some v => (Created v, db')
                  end
              end
          end
      | _, _ => (ServerError, db)
      end
  | _, _, _ => (BadRequest "validation failed", db)
  end.

(** *** DELETE /:id *)

(** Lines 735-751, on the resource that the guard loaded. *)
Definition remove_post (id : ObjectId) (post : Post) (db : DB) : Response unit * DB :=
  (Ok (), with_posts (delete id (posts db)) db).

(** [router.delete('/:id', protect, isAuthor(Post), handler)]. *)
Definition delete_post (auth : option Principal) (id : ObjectId) (db : DB)
  : Response unit * DB :=
  Guard.protect auth
    (fun u => Guard.isAuthor (posts db !! id) p_author u
                (fun post => remove_post id post db) db) db.

(** ** The requests of the posts router *)

Inductive Request :=
| ReqList (q : ListQuery)
| ReqGet (id : string)
| ReqCreate (b : PostBody)
| ReqUpdate (id : ObjectId) (b : PostBody)
| ReqDelete (id : ObjectId)
| ReqByCategory (categoryId : string) (page limit : option Z).

(** The state after a request made at time [now] with the credential
    resolved to [auth]. *)
Definition handle (now : Z) (auth : option Principal) (r : Request) (db : DB) : DB :=
  match r with
  | ReqList q => (list_posts castObjectId regex_i q db).2
  | ReqGet id => (get_post castObjectId now id db).2
  | ReqCreate b => (Guard.protect auth (fun u => create_post now u b db) db).2
  | ReqUpdate id b => (put_post castObjectId regex_i now auth id b db).2
  | ReqDelete id => (delete_post auth id db).2
  | ReqByCategory categoryId page limit =>
      (posts_by_category castObjectId categoryId page limit db).2
  end.

End handlers.

End PostsWrite.

(* ===================================================================== *)
(** * Predicates on stores and responses *)
(* ===================================================================== *)

Module Shape.
Import Store.

(** A unit of a slug: a lowercase letter, a digit or a hyphen. *)
Definition slug_unit (c : ascii) : bool :=
  CategoryModel.in_class c || CategoryModel.is_hyphen c.

(** A digit 0-9, a letter A-Z or a letter a-z, by the code of the unit. *)
Definition ascii_alnum (c : ascii) : bool :=
  let n := nat_of_ascii c in
  ((48 <=? n) && (n <=? 57) || (65 <=? n) && (n <=? 90)
   || (97 <=? n) && (n <=? 122))%nat.

(** The [replies] arrays agree with the parent links: an id listed in the
    [replies] of a comment is the id of a stored comment whose parent is
    that comment; a stored comment whose parent is stored is listed in its
    [replies]; and no id is listed twice. *)
Definition replies_consistent (db : DB) : Prop :=
  (∀ p c r, comments db !! p = Some c → r ∈ cm_replies c →
            ∃ d, comments db !! r = Some d ∧ cm_parentComment d = Some p)
  ∧ (∀ r d p c, comments db !! r = Some d → cm_parentComment d = Some p →
                comments db !! p = Some c → r ∈ cm_replies c)
  ∧ (∀ p c, comments db !! p = Some c → NoDup (cm_replies c)).

(** A store as the seeder leaves it: the comments are top-level, have no
    replies, and their ids were handed out already. *)
Definition fresh_seed (db : DB) : Prop :=
  ∀ id c, comments db !! id = Some c →
          (id < nextId db)%nat ∧ cm_parentComment c = None ∧ cm_replies c = [].

(** The stores that requests to the comments router reach from [db0]. *)
Inductive reaches (db0 : DB) : DB → Prop :=
| reaches_start : reaches db0 db0
| reaches_handle db now auth r :
    reaches db0 db → reaches db0 (Comments.handle now auth r db).

(** What no request to the comments router changes in a comment. *)
Definition same_identity (c c' : Comment) : Prop :=
  cm_post c' = cm_post c ∧ cm_author c' = cm_author c
  ∧ cm_createdAt c' = cm_createdAt c
  ∧ (cm_isEdited c = true → cm_isEdited c' = true).

(** What a request of someone else leaves of a comment. *)
Definition same_content (c c' : Comment) : Prop :=
  cm_text c' = cm_text c ∧ cm_isEdited c' = cm_isEdited c
  ∧ cm_isApproved c' = cm_isApproved c.

(** What no request to the posts router changes in a post. *)
Definition same_origin (p p' : Post) : Prop :=
  p_author p' = p_author p ∧ p_createdAt p' = p_createdAt p
  ∧ p_isFeatured p' = p_isFeatured p ∧ p_viewCount p ≤ p_viewCount p'.

End Shape.

(* ===================================================================== *)
(** * Sequences of requests *)
(* ===================================================================== *)

Module Sequences.
Import Store.

(** The store after fetching the post [id] once at each of the times
    [nows], in this order. *)
Definition visits (castObjectId : string → option ObjectId) (nows : list Z)
  (id : string) (db : DB) : DB :=
  foldl (fun d now => (Posts.get_post castObjectId now id d).2) db nows.

End Sequences.

(* ===================================================================== *)
(** * The tree of comments *)
(* ===================================================================== *)

Module Tree.
Import Store.

(** What the reply tree is made of: for every stored comment its parent
    link and its [replies] array. *)
Definition links (c : Comment) : option ObjectId * list ObjectId :=
  (cm_parentComment c, cm_replies c).

Definition tree_of (db : DB) : gmap nat (option ObjectId * list ObjectId) :=
  links <$> comments db.

End Tree.

(* ===================================================================== *)
(** * routes/users.js: the listing of the users *)
(* ===================================================================== *)

Module Users.
Import Store.


(** Modelled from the spec: models/User.js is not among the sources.  The
    record has the fields of a user document that routes/users.js reads
    ([password] is deselected), as section 3 of the spec lists them; the
    schema has [timestamps: true]. *)
Record UserDoc := mkUserDoc {
  ud_name : string;
  ud_email : string;
  ud_role : ObjectId;
  ud_bio : string;
  ud_avatar : string;
  ud_isActive : bool;
  ud_createdAt : Z;
  ud_updatedAt : Z
}.




(** [.sort({ createdAt: -1 })]. *)
Definition user_newer_first (a b : nat * UserDoc) : Prop :=
  ud_createdAt b.2 ≤ ud_createdAt a.2.

#[global] Instance user_newer_first_dec : RelDecision user_newer_first.
Proof. intros a b. unfold user_newer_first. apply _. Defined.




End Users.

(* ===================================================================== *)
(** * The paginated listings *)
(* ===================================================================== *)

Module Paging.
Import Store.

(** What a paginated response says: its pagination block and the ids of its
    items, in their order. *)
Definition Page : Type := Pagination * list ObjectId.




Section listings.

Variable castObjectId : string → option ObjectId.
Variable regex_i : string → option (string → bool).




End listings.


(** ** The claim, in the words of the spec *)

Definition items (r : Response Page) : list ObjectId :=
  match r with
  | Ok (_, ids) => ids
  | _ => []
  end.





End Paging.

(* ===================================================================== *)
(** * More sample requests *)
(* ===================================================================== *)

Module Sample2.
Import Store.
Local Open Scope nat_scope.

(** A matcher for patterns without metacharacters: a pattern between [^]
    and [$] must be the whole subject, any other pattern must occur in it;
    letters match in any case. *)
Definition anchored (pattern : string) : option string :=
  match list_ascii_of_string pattern with
  | "^"%char :: rest =>
      match reverse rest with
      | "$"%char :: body => Some (string_of_list_ascii (reverse body))
      | _ => None
      end
  | _ => None
  end.

Definition occurs_in (needle subject : string) : bool :=
  match String.index 0 (Router.lower needle) (Router.lower subject) with
  | Some _ => true
  | None => false
  end.

Definition regex_i (pattern : string) : option (string → bool) :=
  Some (match anchored pattern with
        | Some body => fun subject => Router.lit_matches body subject
        | None => occurs_in pattern
        end).

Definition john : Principal := mkPrincipal 1 role_user.
Definition jane : Principal := mkPrincipal 2 role_user.

(** Jane posts in the category 3. *)
Definition new_post_body : Posts.PostBody :=
  Posts.mkPostBody (Some "  Travelling light ") (Some "Pack less, see more.")
                   None (Some "3") (Some [" travel "]) None None.

(** John retitles his post 5. *)
Definition retitle_body : Posts.PostBody :=
  Posts.mkPostBody (Some "Node.js, an introduction") None None None None None
                   None.

(** The posts whose title or content has "node" in it. *)
Definition search_node : Posts.ListQuery :=
  Posts.mkListQuery None None None (Some "node").

Definition first_page : Posts.ListQuery :=
  Posts.mkListQuery None (Some 1%Z) None None.

Definition whole_list : Posts.ListQuery :=
  Posts.mkListQuery None None None None.

(** Jane comments on post 5, in reply to comment 8. *)
Definition reply_body : Comments.CommentBody :=
  Comments.mkCommentBody (Some " Me too. ") 5 (Some 8).




End Sample2.

(* ===================================================================== *)
(** * Part II: properties *)
(* ===================================================================== *)

(** ** The slug hook *)

Module CategoryFacts.
Import CategoryModel.

Lemma in_class_not_hyphen c : in_class c = true → is_hyphen c = false.
Proof.
  intros Hc. unfold is_hyphen. case_bool_decide as Hh; [|done].
  subst c. vm_compute in Hc. discriminate.
Qed.

(** *** The scanner against the runs *)

Lemma runs_cons_shape c s : ∃ r acc, runs (c :: s) = (c :: r) :: acc.
Proof.
  unfold runs. simpl. destruct (foldr _ [] s) as [|[|d r] acc]; eauto.
  case_bool_decide; eauto.
Qed.

Lemma collapse_runs_nil : collapse_runs [] = [].
Proof. reflexivity. Qed.

Lemma collapse_runs_one c :
  collapse_runs [c] = if alphanumeric c then [c] else [hyphen].
Proof. unfold collapse_runs. simpl. destruct (alphanumeric c); reflexivity. Qed.

Lemma collapse_runs_two c d s :
  collapse_runs (c :: d :: s) =
    if alphanumeric c then c :: collapse_runs (d :: s)
    else if alphanumeric d then hyphen :: collapse_runs (d :: s)
    else collapse_runs (d :: s).
Proof.
  destruct (runs_cons_shape d s) as (r & acc & Hr).
  unfold collapse_runs.
  change (runs (c :: d :: s)) with
    (match runs (d :: s) with
     | (d' :: r') :: acc' =>
         if bool_decide (alphanumeric c = alphanumeric d')
         then (c :: d' :: r') :: acc' else [c] :: runs (d :: s)
     | _ => [c] :: runs (d :: s)
     end).
  rewrite Hr. simpl.
  destruct (alphanumeric c) eqn:Hc, (alphanumeric d) eqn:Hd; simpl;
    rewrite ?Hc, ?Hd; reflexivity.
Qed.

Lemma replace_non_class_collapse s :
  replace_non_class false s = collapse_runs s
  ∧ (∀ c s', s = c :: s' → alphanumeric c = false →
       hyphen :: replace_non_class true s = collapse_runs s).
Proof.
  induction s as [|c [|d s] IH].
  - split; [reflexivity | intros ?? [=]].
  - split.
    + rewrite collapse_runs_one. simpl. unfold in_class, alphanumeric.
      destruct (_ || _); reflexivity.
    + intros c' s' [= <- <-] Hc. rewrite collapse_runs_one, Hc. simpl.
      unfold in_class. unfold alphanumeric in Hc. rewrite Hc. reflexivity.
  - destruct IH as [IH0 IH1]. rewrite collapse_runs_two.
    assert (Hstep : ∀ b x t, replace_non_class b (x :: t) =
              if alphanumeric x then x :: replace_non_class false t
              else if b then replace_non_class true t
              else hyphen :: replace_non_class true t) by reflexivity.
    split.
    + rewrite Hstep, IH0. destruct (alphanumeric c); [done|].
      destruct (alphanumeric d) eqn:Hd.
      * rewrite <- IH0, !Hstep, Hd. done.
      * exact (IH1 d s eq_refl Hd).
    + intros c' s' [= <- <-] Hc. rewrite Hc, Hstep, Hc.
      destruct (alphanumeric d) eqn:Hd.
      * rewrite <- IH0, !Hstep, Hd. done.
      * exact (IH1 d s eq_refl Hd).
Qed.

(** *** No two hyphens in a row after the first replacement *)

Lemma replace_non_class_no_double s :
  no_double (replace_non_class false s) = true
  ∧ no_double (replace_non_class true s) = true
  ∧ starts_with_hyphen (replace_non_class true s) = false.
Proof.
  induction s as [|c s (IH0 & IH1 & IH2)]; [done|].
  cbn [replace_non_class]. destruct (in_class c) eqn:Hc.
  - pose proof (in_class_not_hyphen _ Hc) as Hh.
    assert (no_double (c :: replace_non_class false s) = true) as Hn.
    { cbn [no_double]. rewrite IH0, Hh.
      by destruct (replace_non_class false s). }
    by rewrite Hn.
  - repeat split; try done.
    cbn [no_double]. rewrite IH1.
    destruct (replace_non_class true s) as [|b t] eqn:E; [done|].
    simpl in IH2. rewrite IH2. by rewrite andb_false_r.
Qed.

(** *** The second replacement against stripping *)

Lemma strip_leading_no_hyphen s :
  starts_with_hyphen s = false → strip_leading s = s.
Proof. destruct s as [|c s]; [done|]. simpl. by intros ->. Qed.

Lemma replace_edge_last v c :
  replace_edge_hyphens false (v ++ [c]) = v ++ (if is_hyphen c then [] else [c]).
Proof.
  induction v as [|a v IH]; simpl.
  - by destruct (is_hyphen c).
  - rewrite bool_decide_false by (by destruct v).
    rewrite andb_false_r. by rewrite IH.
Qed.

Lemma no_double_snoc v c :
  no_double (v ++ [c]) = true →
  no_double v = true
  ∧ (is_hyphen c = true → starts_with_hyphen (reverse v) = false).
Proof.
  induction v as [|a v IH]; [done|].
  change ((a :: v) ++ [c]) with (a :: (v ++ [c])).
  cbn [no_double]. intros [Ha Hv]%andb_true_iff.
  destruct (IH Hv) as [IH1 IH2]. split.
  - cbn [no_double]. rewrite IH1, andb_true_r.
    destruct v as [|b v]; [done|]. exact Ha.
  - intros Hc. rewrite reverse_cons.
    destruct v as [|b v].
    + simpl in *. rewrite Hc, andb_true_r in Ha. by destruct (is_hyphen a).
    + specialize (IH2 Hc). rewrite reverse_cons in *.
      destruct (reverse v ++ [b]) eqn:E; [by destruct (reverse v)|].
      exact IH2.
Qed.

Lemma replace_edge_strip_trailing u :
  no_double u = true → replace_edge_hyphens false u = strip_trailing u.
Proof.
  destruct u as [|c v _] using rev_ind; [done|].
  intros [Hv Hc]%no_double_snoc.
  rewrite replace_edge_last. unfold strip_trailing.
  rewrite reverse_snoc. cbn [strip_leading].
  destruct (is_hyphen c).
  - rewrite strip_leading_no_hyphen by auto.
    by rewrite reverse_involutive, app_nil_r.
  - by rewrite reverse_cons, reverse_involutive.
Qed.

Lemma no_double_tail c s : no_double (c :: s) = true → no_double s = true.
Proof. cbn [no_double]. by intros [_ ?]%andb_true_iff. Qed.

Lemma replace_edge_strip t :
  no_double t = true →
  replace_edge_hyphens true t = strip_trailing (strip_leading t).
Proof.
  destruct t as [|c t]; [done|]. intros Hn.
  cbn [replace_edge_hyphens strip_leading]. rewrite orb_true_l, andb_true_r.
  destruct (is_hyphen c) eqn:Hc.
  - assert (starts_with_hyphen t = false) as Ht.
    { destruct t as [|b t]; [done|]. simpl in Hn |- *.
      rewrite Hc in Hn. by destruct (is_hyphen b). }
    rewrite (strip_leading_no_hyphen _ Ht).
    apply replace_edge_strip_trailing. by eapply no_double_tail.
  - rewrite <- (replace_edge_strip_trailing (c :: t) Hn).
    cbn [replace_edge_hyphens]. by rewrite Hc.
Qed.

Lemma slugify_units_spec name : slugify_units name = slug_spec_units name.
Proof.
  unfold slugify_units, slug_spec_units.
  destruct (replace_non_class_collapse (toLowerCase name)) as [<- _].
  apply replace_edge_strip, replace_non_class_no_double.
Qed.

Lemma slugify_spec name : slugify name = slug_spec name.
Proof. unfold slugify, slug_spec. by rewrite slugify_units_spec. Qed.

End CategoryFacts.

Example slug_of_padded_name :
  CategoryModel.slug_spec "  --Tech   Notes!!" = "tech-notes".
Proof. vm_compute. reflexivity. Qed.

Example slug_latin1_capital :
  CategoryModel.slugify ("Caf" ++ String (ascii_of_nat 201) "s")%string = "caf-s".
Proof. vm_compute. reflexivity. Qed.

Example slug_of_symbols_only : CategoryModel.slugify "!!" = "".
Proof. vm_compute. reflexivity. Qed.

Example runs_of_name :
  CategoryModel.runs (list_ascii_of_string "a, b")
  = [list_ascii_of_string "a"; list_ascii_of_string ", "; list_ascii_of_string "b"].
Proof. vm_compute. reflexivity. Qed.

Section slug_on_save.
Import CategoryModel.

(** C9.  Saving a category leaves in [slug] the name lowercased, with every
    maximal run of non-alphanumeric characters collapsed to one hyphen and
    the hyphens at both ends stripped, when the name was modified, and the
    slug it had otherwise; the name itself is not touched.  A category saved
    under the name "Tech Notes!!" gets the slug "tech-notes". *)
Theorem slug_recomputed_on_name_change (c : Category) :
  c_slug (pre_save c)
    = (if isModified "name" c then slug_spec (c_name c) else c_slug c)
  ∧ c_name (pre_save c) = c_name c
  ∧ (∀ id description slug isActive,
       c_slug (pre_save (mkCategory id "Tech Notes!!" description slug isActive
                                    ["name"]))
       = "tech-notes").
Proof.
  split; [|split].
  - unfold pre_save. destruct (isModified "name" c); simpl; [|done].
    apply CategoryFacts.slugify_spec.
  - unfold pre_save. by destruct (isModified "name" c).
  - intros. reflexivity.
Qed.

End slug_on_save.

(** ** Dispatch in the posts router *)

Section dispatch.
Import Router.

Lemma match_path_param x seg :
  seg ≠ "" → match_path [Param x] [seg] = Some [(x, seg)].
Proof. intros Hs. simpl. by rewrite bool_decide_false. Qed.

(** A request never reaches a route registered behind one that matches it. *)
Lemma dispatch_in_first r routes m segs params :
  r_method r = m → match_path (r_path r) segs = Some params →
  dispatch_in (r :: routes) m segs = Some (r_handler r, params).
Proof. intros Hm Hp. simpl. by rewrite bool_decide_true, Hp. Qed.

Lemma get_one_segment seg :
  seg ≠ "" → dispatch GET [seg] = Some (GetPost, [("id", seg)]).
Proof.
  intros Hs. unfold dispatch, posts_routes. simpl.
  by rewrite bool_decide_false.
Qed.

Example category_route_reached :
  dispatch GET ["category"; "3"] = Some (PostsByCategory, [("categoryId", "3")]).
Proof. reflexivity. Qed.

Example put_route_reached :
  dispatch PUT ["trending"] = Some (UpdatePost, [("id", "trending")]).
Proof. reflexivity. Qed.

(** C3.  A GET request for the one segment [trending] is dispatched to the
    handler of ['/:id'] with [id] bound to ["trending"], that route being
    registered first; and no request at all is dispatched to the trending
    handler. *)
Theorem trending_route_shadowed :
  dispatch GET ["trending"] = Some (GetPost, [("id", "trending")])
  ∧ ∀ m segs params, dispatch m segs ≠ Some (Trending, params).
Proof.
  split; [reflexivity|].
  intros m segs params. unfold dispatch, posts_routes.
  destruct m; simpl; try by repeat (case_match; simplify_eq).
  destruct segs as [|s1 [|s2 [|s3 segs]]]; simpl; try done.
  - case_bool_decide; simpl; [|done]. by subst s1.
  - repeat (case_match; simplify_eq/=); done.
  - repeat (case_match; simplify_eq/=); done.
Qed.

End dispatch.

(** ** The public read paths over posts *)

Section read_paths.
Import Store Posts.

Variable castObjectId : string → option ObjectId.
Variable regex_i : string → option (string → bool).

Lemma find_posts_elem query db kp :
  kp ∈ find_posts query db ↔ posts db !! kp.1 = Some kp.2 ∧ query kp = true.
Proof.
  unfold find_posts.
  rewrite merge_sort_Permutation, list_elem_of_filter, elem_of_map_to_list'.
  rewrite Is_true_true. tauto.
Qed.

Lemma skip_limit_subseteq {A} s l (docs found : list A) :
  skip_limit s l docs = Some found → found ⊆ docs.
Proof.
  unfold skip_limit. repeat case_match; intros [= <-]; try done.
  - apply subseteq_drop.
  - etrans; [apply subseteq_take | apply subseteq_drop].
Qed.

Lemma mapM_elem {A B} (f : A → option B) l k y :
  mapM f l = Some k → y ∈ k → ∃ x, x ∈ l ∧ f x = Some y.
Proof.
  intros HF%mapM_Some_1 Hy.
  induction HF as [|x y' l k Hxy HF IH]; [by apply elem_of_nil in Hy|].
  apply elem_of_cons in Hy as [->|Hy].
  - exists x. split; [left | done].
  - destruct (IH Hy) as (x' & ? & ?). exists x'. split; [by right | done].
Qed.

Lemma paginated_elem page limit view matching body v :
  paginated page limit view matching = Ok body → v ∈ lb_posts body →
  ∃ kp, kp ∈ matching ∧ view kp = Some v.
Proof.
  unfold paginated. destruct (skip_limit _ _ _) as [found|] eqn:Hs; [|done].
  destruct (mapM view found) as [vs|] eqn:Hm; [|done].
  intros [= <-]. simpl. intros Hv.
  destruct (mapM_elem _ _ _ _ Hm Hv) as (kp & Hkp & Hview).
  exists kp. split; [|done]. by eapply skip_limit_subseteq.
Qed.

Lemma list_view_id db kp v : list_view db kp = Some v → v_id v = kp.1.
Proof. unfold list_view. intros; simplify_option_eq. done. Qed.

Lemma category_view_id db kp v : category_view db kp = Some v → v_id v = kp.1.
Proof. unfold category_view. intros; simplify_option_eq. done. Qed.

(** The listing of [GET /] shows published posts only. *)
Lemma list_posts_published q db body v :
  (list_posts castObjectId regex_i q db).1 = Ok body → v ∈ lb_posts body →
  ∃ p, posts db !! v_id v = Some p ∧ p_status p = published.
Proof.
  unfold list_posts.
  destruct (list_query _ _ q db) as [query|] eqn:Hq; [|done]. simpl.
  intros Hb Hv. destruct (paginated_elem _ _ _ _ _ _ Hb Hv) as (kp & Hkp & Hview).
  apply find_posts_elem in Hkp as [Hkp Hquery].
  rewrite (list_view_id _ _ _ Hview). exists kp.2. split; [done|].
  unfold list_query in Hq. simplify_option_eq.
  apply andb_true_iff in Hquery as [[Hp _]%andb_true_iff _].
  by apply bool_decide_eq_true in Hp.
Qed.

(** So does the listing of [GET /category/:categoryId]. *)
Lemma posts_by_category_published categoryId page limit db body v :
  (posts_by_category castObjectId categoryId page limit db).1 = Ok body →
  v ∈ lb_posts body →
  ∃ p, posts db !! v_id v = Some p ∧ p_status p = published.
Proof.
  unfold posts_by_category.
  destruct (castObjectId categoryId) as [cid|]; [|done].
  destruct (categories db !! cid); [|done]. simpl.
  intros Hb Hv. destruct (paginated_elem _ _ _ _ _ _ Hb Hv) as (kp & Hkp & Hview).
  apply find_posts_elem in Hkp as [Hkp Hquery].
  rewrite (category_view_id _ _ _ Hview). exists kp.2. split; [done|].
  apply andb_true_iff in Hquery as [_ Hp].
  by apply bool_decide_eq_true in Hp.
Qed.

(** [GET /:id] looks the post up by its id alone: whatever its status, a
    stored post whose author and category exist is returned. *)
Lemma get_post_any_status now id i p db :
  castObjectId id = Some i → posts db !! i = Some p →
  is_Some (users db !! p_author p) → is_Some (categories db !! p_category p) →
  ∃ v, (get_post castObjectId now id db).1 = Ok v
       ∧ v_id v = i ∧ v_title v = p_title p ∧ v_content v = p_content p.
Proof.
  intros Hc Hp [u Hu] [c Hcat]. unfold get_post. rewrite Hc, Hp.
  unfold single_view, populate_author, populate_category.
  destruct (decide _); simpl; rewrite Hu, Hcat; simpl; eauto.
Qed.

End read_paths.

Section fetch_by_id.
Import Store Posts.

(** C1 (the code departs from it).  The store [Sample.db] holds a draft under
    id 4; the public [GET /4] answers 200 with that post, title and content
    included, where the two listings leave every draft out. *)
Theorem fetch_by_id_returns_draft :
  posts Sample.db !! 4%nat = Some Sample.draft_post
  ∧ p_status Sample.draft_post = draft
  ∧ ∃ v, (get_post Sample.castObjectId 200 "4" Sample.db).1 = Ok v
         ∧ v_id v = 4%nat
         ∧ v_title v = "Unfinished thoughts"
         ∧ v_content v = "Notes that are not ready yet".
Proof.
  split; [reflexivity|]. split; [reflexivity|].
  eexists. split; [vm_compute; reflexivity|]. by simpl.
Qed.

End fetch_by_id.

(** ** The view count *)

Section view_count.
Import Store Posts.

Variable castObjectId : string → option ObjectId.
Variable regex_i : string → option (string → bool).

(** Up to 2^53 in magnitude the sum is the exact one. *)
Lemma Number_succ_exact x : - 2 ^ 53 ≤ x < 2 ^ 53 → Number_succ x = x + 1.
Proof. intros Hx. unfold Number_succ. by rewrite decide_True. Qed.

(** At 2^53 the count stops. *)
Lemma Number_succ_limit : Number_succ (2 ^ 53) = 2 ^ 53.
Proof. reflexivity. Qed.

Lemma Number_succ_ge x : x ≤ Number_succ x.
Proof. unfold Number_succ. repeat case_match; lia. Qed.

Lemma get_post_store now id i p db :
  castObjectId id = Some i → posts db !! i = Some p →
  (get_post castObjectId now id db).2
  = if decide (Number_succ (p_viewCount p) = p_viewCount p) then db
    else with_posts
           (<[i := set_updatedAt now
                     (set_viewCount (Number_succ (p_viewCount p)) p)]>
              (posts db)) db.
Proof.
  intros Hc Hp. unfold get_post. rewrite Hc, Hp.
  destruct (decide _); by case_match.
Qed.

Lemma get_post_store_exact now id i p db :
  castObjectId id = Some i → posts db !! i = Some p →
  - 2 ^ 53 ≤ p_viewCount p < 2 ^ 53 →
  (get_post castObjectId now id db).2
  = with_posts (<[i := set_updatedAt now (set_viewCount (p_viewCount p + 1) p)]>
                  (posts db)) db.
Proof.
  intros Hc Hp Hv. rewrite (get_post_store _ _ _ _ _ Hc Hp).
  rewrite (Number_succ_exact _ Hv). by rewrite decide_False by lia.
Qed.

(** A post whose count stands at 2^53 is fetched without a write: the count
    and [updatedAt] stay. *)
Lemma get_post_at_limit now id i p db :
  castObjectId id = Some i → posts db !! i = Some p →
  p_viewCount p = 2 ^ 53 →
  (get_post castObjectId now id db).2 = db.
Proof.
  intros Hc Hp Hv. rewrite (get_post_store _ _ _ _ _ Hc Hp), Hv.
  by rewrite Number_succ_limit.
Qed.

Lemma list_posts_store q db : (list_posts castObjectId regex_i q db).2 = db.
Proof. unfold list_posts. by case_match. Qed.

Lemma posts_by_category_store categoryId page limit db :
  (posts_by_category castObjectId categoryId page limit db).2 = db.
Proof. unfold posts_by_category. by repeat case_match. Qed.

(** C6, as the code has it.  Take a stored post whose [viewCount] is within
    the integers that a [Number] counts exactly, from -2^53 to 2^53 - 1.  A
    fetch by id stores the post again with [viewCount] one higher and
    [updatedAt] set to the time of the save; every other field of the post,
    every other post and every other collection is as before.  The two
    listings leave the store as it is.  After a second fetch the view count
    is two higher, when the first one left it below 2^53. *)
Theorem fetch_increments_viewCount now id i p db :
  castObjectId id = Some i → posts db !! i = Some p →
  - 2 ^ 53 ≤ p_viewCount p < 2 ^ 53 →
  let db' := (get_post castObjectId now id db).2 in
  posts db' !! i
    = Some (mkPost (p_title p) (p_content p) (p_excerpt p) (p_author p)
                   (p_category p) (p_tags p) (p_featuredImage p) (p_status p)
                   (p_viewCount p + 1) (p_isFeatured p) (p_createdAt p) now)
  ∧ (∀ j, j ≠ i → posts db' !! j = posts db !! j)
  ∧ comments db' = comments db ∧ users db' = users db
  ∧ categories db' = categories db ∧ nextId db' = nextId db
  ∧ (∀ q, (list_posts castObjectId regex_i q db).2 = db)
  ∧ (∀ categoryId page limit,
       (posts_by_category castObjectId categoryId page limit db).2 = db)
  ∧ (p_viewCount p + 1 < 2 ^ 53 →
       ∀ now2, ∃ p2,
         posts (get_post castObjectId now2 id db').2 !! i = Some p2
         ∧ p_viewCount p2 = p_viewCount p + 2).
Proof.
  intros Hc Hp Hv db'. subst db'.
  rewrite (get_post_store_exact _ _ _ _ _ Hc Hp Hv).
  split; [by simpl; rewrite lookup_insert_eq|].
  split; [by intros j Hj; simpl; rewrite lookup_insert_ne|].
  do 4 (split; [done|]).
  split; [intros q; apply list_posts_store|].
  split; [intros ???; apply posts_by_category_store|].
  intros Hv2 now2. eexists.
  erewrite get_post_store_exact;
    [|done|by simpl; rewrite lookup_insert_eq|simpl; lia].
  simpl. rewrite lookup_insert_eq. split; [done|]. simpl. lia.
Qed.

End view_count.

Lemma fetch_increments_viewCount_witness :
  Store.posts (Posts.get_post Sample.castObjectId 200 "5" Sample.db).2 !! 5%nat
  = Some (Store.mkPost "Introduction to Node.js" "Node.js is a powerful runtime"
            None 1 3 ["nodejs"] "" Store.published 5 false 50 200).
Proof.
  apply (fetch_increments_viewCount Sample.castObjectId Sample.regex_i
           200 "5" 5%nat Sample.intro_post Sample.db eq_refl eq_refl).
  vm_compute. split; [discriminate|reflexivity].
Defined.

(** C6 as it was claimed fails on one field: the post stored by a fetch at
    time 200 is not the old post with only [viewCount] raised, since its
    [updatedAt] moved from 50 to 200. *)
Lemma fetch_moves_updatedAt :
  Store.posts Sample.db !! 5%nat = Some Sample.intro_post
  ∧ Store.posts (Posts.get_post Sample.castObjectId 200 "5" Sample.db).2 !! 5%nat
    ≠ Some (Posts.set_viewCount (Store.p_viewCount Sample.intro_post + 1)
                                Sample.intro_post)
  ∧ Store.p_updatedAt Sample.intro_post = 50
  ∧ Store.p_updatedAt
      <$> Store.posts (Posts.get_post Sample.castObjectId 200 "5" Sample.db).2 !! 5%nat
    = Some 200.
Proof.
  split; [reflexivity|]. split; [|split; reflexivity].
  vm_compute. intros [=].
Qed.

(** ** The ownership guard on [PUT /:id] *)

Section put_guard.
Import Store Posts.

Variable castObjectId : string → option ObjectId.
Variable regex_i : string → option (string → bool).

(** C10.  When the principal is neither the author of the post named by the
    request nor an admin, [PUT /:id] answers "forbidden" if the post exists
    and "not found" if it does not, and in both cases the store is the one
    it was. *)
Theorem put_post_refused now u id b db :
  (∀ post, posts db !! id = Some post →
           p_author post ≠ pr_id u ∧ pr_role u ≠ role_admin) →
  put_post castObjectId regex_i now (Some u) id b db
  = (match posts db !! id with
     | Some _ => Forbidden
     | None => NotFound "Resource not found"
     end, db).
Proof.
  intros Hno. unfold put_post, Guard.protect, Guard.isAuthor.
  destruct (posts db !! id) as [post|]; [|done].
  destruct (Hno post eq_refl) as [Ha Hr].
  by rewrite !bool_decide_false.
Qed.

End put_guard.

Lemma put_post_refused_witness :
  Posts.put_post Sample.castObjectId Sample.regex_i 300
    (Some (Store.mkPrincipal 2 Store.role_user)) 5%nat
    (Posts.mkPostBody (Some "A title of my own") None None None None None None)
    Sample.db
  = (Store.Forbidden, Sample.db).
Proof.
  apply (put_post_refused Sample.castObjectId Sample.regex_i 300
           (Store.mkPrincipal 2 Store.role_user) 5%nat).
  intros post [= <-]. split; [vm_compute; lia | discriminate].
Defined.

(** The author's own update goes through: the title is stored trimmed and
    [updatedAt] moves. *)
Example put_post_by_author :
  let r := Posts.put_post Sample.castObjectId Sample.regex_i 300
             (Some (Store.mkPrincipal 1 Store.role_user)) 5%nat
             (Posts.mkPostBody (Some "  Node.js, an introduction ") None None
                               None None None (Some "archived"))
             Sample.db in
  (Store.p_title <$> Store.posts r.2 !! 5%nat,
   Store.p_status <$> Store.posts r.2 !! 5%nat,
   Store.p_updatedAt <$> Store.posts r.2 !! 5%nat)
  = (Some "Node.js, an introduction", Some Store.archived, Some 300).
Proof. vm_compute. reflexivity. Qed.

Example put_post_missing :
  Posts.put_post Sample.castObjectId Sample.regex_i 300
    (Some (Store.mkPrincipal 2 Store.role_user)) 42%nat
    (Posts.mkPostBody None None None None None None None) Sample.db
  = (Store.NotFound "Resource not found", Sample.db).
Proof. reflexivity. Qed.

(** ** Trending *)

Section trending.
Import Store Posts.

#[local] Instance trending_order_total : Total trending_order.
Proof. intros a b. unfold trending_order, ranks_before. lia. Qed.

#[local] Instance trending_order_trans : Transitive trending_order.
Proof. intros a b c. unfold trending_order, ranks_before. lia. Qed.

Lemma stage_match_elem db kp :
  kp ∈ stage_match db ↔ posts db !! kp.1 = Some kp.2 ∧ p_status kp.2 = published.
Proof.
  unfold stage_match. rewrite list_elem_of_filter, elem_of_map_to_list'. tauto.
Qed.

Lemma stage_match_NoDup db : NoDup (stage_match db).*1.
Proof.
  apply (sublist_NoDup _ (map_to_list (posts db)).*1).
  - apply NoDup_fst_map_to_list.
  - apply fmap_sublist, sublist_filter.
Qed.

Lemma ranked_Permutation db : ranked db ≡ₚ stage_join db <$> stage_match db.
Proof. apply merge_sort_Permutation. Qed.

Lemma ranked_sorted db : StronglySorted trending_order (ranked db).
Proof. apply StronglySorted_merge_sort; apply _. Qed.

Lemma ranked_ids db : j_id <$> ranked db ≡ₚ (stage_match db).*1.
Proof.
  rewrite ranked_Permutation, <- list_fmap_compose. done.
Qed.

Lemma ranked_elem db j :
  j ∈ ranked db ↔ ∃ kp, j = stage_join db kp ∧ kp ∈ stage_match db.
Proof. by rewrite ranked_Permutation, list_elem_of_fmap. Qed.

Lemma project_ids (l : list Joined) :
  t_id <$> (stage_project <$> l) = j_id <$> l.
Proof. by rewrite <- list_fmap_compose. Qed.

(** C2.  For every store the trending response lists entries that each stand
    for a different published post, with the view count of the post and, as
    comment count, the number of stored comments that refer to it; there are
    five of them, or as many as there are published posts if fewer; they are
    in order of comment count descending, ties by view count descending; and
    every published post left out ranks no higher than any entry listed. *)
Theorem trending_top_five db :
  let out := aggregate_trending db in
  (trending db).1 = Ok (Z.of_nat (length out), out)
  ∧ (length out ≤ 5)%nat
  ∧ length out
    = (5 `min` length (filter (λ kp : nat * Post, p_status kp.2 = published)
                              (map_to_list (posts db))))%nat
  ∧ NoDup (t_id <$> out)
  ∧ (∀ e, e ∈ out →
       ∃ p, posts db !! t_id e = Some p ∧ p_status p = published
            ∧ t_viewCount e = p_viewCount p
            ∧ t_commentsCount e
              = Z.of_nat (length (filter (λ kc : nat * Comment, cm_post kc.2 = t_id e)
                                         (map_to_list (comments db)))))
  ∧ StronglySorted entry_order out
  ∧ (∀ e i p, e ∈ out →
       posts db !! i = Some p → p_status p = published → i ∉ t_id <$> out →
       ranks_before (t_commentsCount e) (t_viewCount e)
                    (Z.of_nat (length (comments_of i db))) (p_viewCount p)).
Proof.
  intros out. subst out. unfold aggregate_trending, stage_limit.
  assert (Hlen : length (stage_project <$> take 5 (ranked db))
                 = (5 `min` length (stage_match db))%nat).
  { rewrite length_fmap, length_take, ranked_Permutation, length_fmap. done. }
  split; [done|]. split; [lia|]. split; [exact Hlen|].
  split; [|split; [|split]].
  - rewrite project_ids, fmap_take.
    apply (sublist_NoDup _ (j_id <$> ranked db)); [|apply sublist_take].
    rewrite ranked_ids. apply stage_match_NoDup.
  - intros e (j & -> & Hj)%list_elem_of_fmap.
    apply subseteq_take, ranked_elem in Hj as (kp & -> & Hkp).
    apply stage_match_elem in Hkp as [Hkp Hpub].
    exists kp.2. done.
  - apply (StronglySorted_fmap _ trending_order); [done|].
    eapply StronglySorted_app_1_l. rewrite take_drop. apply ranked_sorted.
  - intros e i p (j & -> & Hj)%list_elem_of_fmap Hp Hpub Hout.
    assert (stage_join db (i, p) ∈ ranked db) as Hin.
    { apply ranked_elem. exists (i, p). split; [done|].
      by apply stage_match_elem. }
    rewrite <- (take_drop 5 (ranked db)) in Hin.
    apply elem_of_app in Hin as [Hin|Hin].
    + destruct Hout. rewrite project_ids.
      by apply (list_elem_of_fmap_2 j_id) in Hin.
    + pose proof (ranked_sorted db) as Hs.
      rewrite <- (take_drop 5 (ranked db)) in Hs.
      exact (StronglySorted_app_1_elem_of _ _ _ _ _ Hs Hj Hin).
Qed.

End trending.

Example trending_sample :
  Posts.t_id <$> Posts.aggregate_trending Sample.db = [5; 6]%nat.
Proof. vm_compute. reflexivity. Qed.

(** ** Pagination *)

Section pagination.
Import Store Posts.

Variable castObjectId : string → option ObjectId.
Variable regex_i : string → option (string → bool).

















#[local] Instance paging_comment_newer_total :
  Total CommentsRead.comment_newer_first.
Proof. intros a b. unfold CommentsRead.comment_newer_first. lia. Qed.



#[local] Instance user_newer_first_total : Total Users.user_newer_first.
Proof. intros a b. unfold Users.user_newer_first. lia. Qed.



End pagination.





(** ** The like toggle *)

Section like_toggle.
Import Store Comments.

Lemma toggle_like_present user (likes : list ObjectId) :
  user ∈ likes → toggle_like user likes = filter (λ x, x ≠ user) likes.
Proof. intros H. unfold toggle_like. by rewrite bool_decide_true. Qed.

Lemma toggle_like_absent user (likes : list ObjectId) :
  user ∉ likes → toggle_like user likes = likes ++ [user].
Proof. intros H. unfold toggle_like. by rewrite bool_decide_false. Qed.

Lemma filter_absent user (likes : list ObjectId) :
  user ∉ likes → filter (λ x, x ≠ user) likes = likes.
Proof.
  induction likes as [|x likes IH]; [done|].
  intros [Hx Hl]%not_elem_of_cons.
  rewrite filter_cons_True by done. by rewrite IH.
Qed.

Lemma toggle_like_flips user (likes : list ObjectId) :
  user ∈ toggle_like user likes ↔ user ∉ likes.
Proof.
  destruct (decide (user ∈ likes)) as [Hin|Hout].
  - rewrite toggle_like_present, list_elem_of_filter by done. tauto.
  - rewrite toggle_like_absent, elem_of_app, list_elem_of_singleton by done.
    tauto.
Qed.

Lemma toggle_like_length user (likes : list ObjectId) :
  length (toggle_like user likes) ≠ length likes.
Proof.
  destruct (decide (user ∈ likes)) as [Hin|Hout].
  - rewrite toggle_like_present by done.
    pose proof (length_filter_lt (λ x, x ≠ user) likes user Hin
                  ltac:(intros H; by apply H)).
    lia.
  - rewrite toggle_like_absent, length_app by done. simpl. lia.
Qed.

Lemma toggle_like_NoDup user (likes : list ObjectId) :
  NoDup likes → NoDup (toggle_like user likes).
Proof.
  intros Hnd. destruct (decide (user ∈ likes)) as [Hin|Hout].
  - rewrite toggle_like_present by done. by apply NoDup_filter.
  - rewrite toggle_like_absent by done. apply NoDup_app.
    split; [done|]. split; [|apply NoDup_singleton].
    intros x Hx ->%list_elem_of_singleton. done.
Qed.

Lemma toggle_like_twice_absent user (likes : list ObjectId) :
  user ∉ likes → toggle_like user (toggle_like user likes) = likes.
Proof.
  intros Hout. rewrite (toggle_like_absent _ _ Hout).
  rewrite toggle_like_present by (apply elem_of_app; right; by left).
  rewrite filter_app, filter_absent by done.
  rewrite filter_cons_False by (intros H; by apply H). by rewrite app_nil_r.
Qed.

Lemma toggle_like_twice_present user (likes : list ObjectId) :
  user ∈ likes →
  toggle_like user (toggle_like user likes)
  = filter (λ x, x ≠ user) likes ++ [user].
Proof.
  intros Hin. rewrite (toggle_like_present _ _ Hin).
  apply toggle_like_absent. rewrite list_elem_of_filter. tauto.
Qed.

Lemma toggle_like_twice_Permutation user (likes : list ObjectId) :
  NoDup likes → toggle_like user (toggle_like user likes) ≡ₚ likes.
Proof.
  intros Hnd. destruct (decide (user ∈ likes)) as [Hin|Hout].
  - rewrite toggle_like_twice_present by done.
    apply NoDup_Permutation; [|done|].
    + apply NoDup_app. split; [by apply NoDup_filter|].
      split; [|apply NoDup_singleton].
      intros x [Hx _]%list_elem_of_filter ->%list_elem_of_singleton. done.
    + intros x. rewrite elem_of_app, list_elem_of_filter, list_elem_of_singleton.
      destruct (decide (x = user)) as [->|]; tauto.
  - by rewrite toggle_like_twice_absent.
Qed.

Lemma like_comment_store now u id c db :
  comments db !! id = Some c →
  like_comment now u id db
  = (Ok (Z.of_nat (length (toggle_like (pr_id u) (cm_likes c))),
         negb (bool_decide (pr_id u ∈ cm_likes c))),
     with_comments
       (<[id := Comments.set_updatedAt now
                  (set_likes (toggle_like (pr_id u) (cm_likes c)) c)]>
          (comments db)) db).
Proof.
  intros Hc. unfold like_comment, save. rewrite Hc.
  rewrite decide_False; [done|].
  intros Heq. apply (f_equal cm_likes), (f_equal length) in Heq.
  by apply toggle_like_length in Heq.
Qed.

(** C4, as the code has it.  On a stored comment the like request of a
    principal answers with the new number of likes and with "now liked" the
    negation of the principal's earlier membership, and stores the toggled
    list: the list without the principal's id if it was in it, the list with
    the id appended if not.  A list without duplicates stays so.  Starting
    from a comment that the principal has not liked, like, unlike, like ends
    with one like more than at the start, and two toggles give back the very
    list; from a comment that the principal has liked, two toggles give back
    a duplicate-free list up to the order of its entries. *)
Theorem like_toggle now u id c db :
  comments db !! id = Some c →
  let user := pr_id u in
  let likes := cm_likes c in
  let likes' := toggle_like user likes in
  (like_comment now u id db).1
  = Ok (Z.of_nat (length likes'), negb (bool_decide (user ∈ likes)))
  ∧ cm_likes <$> comments (like_comment now u id db).2 !! id = Some likes'
  ∧ (∀ now2, cm_likes <$> comments (like_comment now2 u id
                                      (like_comment now u id db).2).2 !! id
             = Some (toggle_like user likes'))
  ∧ (user ∈ likes → likes' = filter (λ x, x ≠ user) likes)
  ∧ (user ∉ likes → likes' = likes ++ [user])
  ∧ (user ∈ likes' ↔ user ∉ likes)
  ∧ (NoDup likes → NoDup likes')
  ∧ (user ∉ likes →
       length (toggle_like user (toggle_like user likes')) = S (length likes))
  ∧ (user ∉ likes → toggle_like user likes' = likes)
  ∧ (NoDup likes → toggle_like user likes' ≡ₚ likes).
Proof.
  intros Hc user likes likes'. rewrite (like_comment_store _ _ _ _ _ Hc). simpl.
  split; [done|]. split; [by rewrite lookup_insert_eq|].
  split.
  { intros now2. erewrite like_comment_store; [|by simpl; rewrite lookup_insert_eq].
    simpl. by rewrite lookup_insert_eq. }
  split; [apply toggle_like_present|]. split; [apply toggle_like_absent|].
  split; [apply toggle_like_flips|]. split; [apply toggle_like_NoDup|].
  split; [|split; [apply toggle_like_twice_absent
                  |apply toggle_like_twice_Permutation]].
  intros Hout. subst likes'.
  rewrite (toggle_like_twice_absent user likes Hout).
  rewrite toggle_like_absent, length_app by done. simpl. lia.
Qed.

End like_toggle.

Lemma like_toggle_witness :
  (Comments.like_comment 100 (Store.mkPrincipal 1 Store.role_user) 8 Sample.db).1
  = Store.Ok (1, true).
Proof.
  exact (proj1 (like_toggle 100 (Store.mkPrincipal 1 Store.role_user) 8%nat
                  Sample.reply_comment Sample.db eq_refl)).
Defined.

(** C4 as it was claimed fails on its last clause: comment 7 is liked by
    users 1 and 2, in this order; after two like requests of user 1 the list
    is 2, 1. *)
Lemma two_toggles_reorder_likes :
  Store.cm_likes <$> Store.comments Sample.db !! 7%nat = Some [1; 2]%nat
  ∧ Store.cm_likes
      <$> Store.comments
            (Comments.like_comment 102 (Store.mkPrincipal 1 Store.role_user) 7
               (Comments.like_comment 101 (Store.mkPrincipal 1 Store.role_user) 7
                  Sample.db).2).2 !! 7%nat
    = Some [2; 1]%nat
  ∧ Comments.toggle_like 1 (Comments.toggle_like 1 [1; 2]%nat) ≠ [1; 2]%nat.
Proof.
  split; [reflexivity|]. split; [vm_compute; reflexivity|].
  vm_compute. intros [=].
Qed.

(** ** Deleting a comment *)

Section delete_comment.
Import Store Comments.

Lemma findByIdAndUpdate_lookup now id update db j :
  comments (findByIdAndUpdate now id update db) !! j
  = if decide (id = j)
    then Comments.set_updatedAt now ∘ update <$> comments db !! j
    else comments db !! j.
Proof.
  unfold findByIdAndUpdate. destruct (comments db !! id) as [c|] eqn:Hc; simpl.
  - rewrite lookup_insert. case_decide; [subst; by rewrite Hc|done].
  - case_decide; [subst; by rewrite Hc|done].
Qed.

Lemma findByIdAndUpdate_rest now id update db :
  posts (findByIdAndUpdate now id update db) = posts db
  ∧ users (findByIdAndUpdate now id update db) = users db
  ∧ categories (findByIdAndUpdate now id update db) = categories db
  ∧ nextId (findByIdAndUpdate now id update db) = nextId db.
Proof. unfold findByIdAndUpdate. by case_match. Qed.

(** C5.  Deleting the stored comment [c] of id [id] answers 200, removes
    the comment, and leaves every other comment in the store: the parent of
    [c], if [c] has one, with its [replies] filtered to the ids other than
    [id] (and a new [updatedAt]), so that [id] is no longer among them, all
    the others exactly as they were.  So no [replies] list changes when [c]
    is top-level, and the comments whose parent is [c] stay, their
    [parentComment] still naming the comment that is gone. *)
Theorem delete_comment_detaches now id c db :
  comments db !! id = Some c →
  let db' := (delete_comment now id c db).2 in
  (delete_comment now id c db).1 = Ok ()
  ∧ comments db' !! id = None
  ∧ (∀ j d, j ≠ id → comments db !! j = Some d →
       comments db' !! j
       = Some (if decide (cm_parentComment c = Some j)
               then mkComment (cm_text d) (cm_post d) (cm_author d)
                      (cm_parentComment d)
                      (filter (λ r, r ≠ id) (cm_replies d))
                      (cm_likes d) (cm_isApproved d) (cm_isEdited d)
                      (cm_createdAt d) now
               else d))
  ∧ (∀ j d', cm_parentComment c = Some j → comments db' !! j = Some d' →
       (id ∉ cm_replies d')
       ∧ ∃ d, comments db !! j = Some d
              ∧ ∀ r, r ∈ cm_replies d' ↔ r ∈ cm_replies d ∧ r ≠ id)
  ∧ (∀ j, comments db !! j = None → comments db' !! j = None)
  ∧ (cm_parentComment c = None →
       ∀ j d, j ≠ id → comments db !! j = Some d → comments db' !! j = Some d)
  ∧ (∀ j d, j ≠ id → comments db !! j = Some d → cm_parentComment d = Some id →
       ∃ d', comments db' !! j = Some d' ∧ cm_parentComment d' = Some id
             ∧ comments db' !! id = None)
  ∧ posts db' = posts db ∧ users db' = users db
  ∧ categories db' = categories db ∧ nextId db' = nextId db.
Proof.
  intros Hc db'.
  assert (Hother : ∀ j d, j ≠ id → comments db !! j = Some d →
            comments db' !! j
            = Some (if decide (cm_parentComment c = Some j)
                    then mkComment (cm_text d) (cm_post d) (cm_author d)
                           (cm_parentComment d)
                           (filter (λ r, r ≠ id) (cm_replies d))
                           (cm_likes d) (cm_isApproved d) (cm_isEdited d)
                           (cm_createdAt d) now
                    else d)).
  { intros j d Hj Hd. subst db'. unfold delete_comment. simpl.
    rewrite lookup_delete_ne by done.
    destruct (cm_parentComment c) as [parent|].
    - rewrite findByIdAndUpdate_lookup, Hd.
      destruct (decide (parent = j)) as [->|Hne].
      + by rewrite decide_True.
      + by rewrite decide_False by congruence.
    - by rewrite decide_False. }
  assert (Hgone : comments db' !! id = None).
  { subst db'. unfold delete_comment. simpl. apply lookup_delete_eq. }
  assert (Hnone : ∀ j, comments db !! j = None → comments db' !! j = None).
  { intros j Hnone. subst db'. unfold delete_comment. simpl.
    destruct (decide (id = j)) as [->|Hne]; [apply lookup_delete_eq|].
    rewrite lookup_delete_ne by done.
    destruct (cm_parentComment c) as [parent|]; [|done].
    rewrite findByIdAndUpdate_lookup, Hnone. by case_decide. }
  split; [done|]. split; [exact Hgone|]. split; [exact Hother|].
  split; [|split; [|split; [|split]]].
  - intros j d' Hpar Hd'.
    destruct (decide (j = id)) as [->|Hj]; [congruence|].
    destruct (comments db !! j) as [d|] eqn:Hd;
      [|rewrite (Hnone j Hd) in Hd'; done].
    rewrite (Hother j d Hj Hd), decide_True in Hd' by done.
    injection Hd' as <-. simpl. split.
    + rewrite list_elem_of_filter. tauto.
    + exists d. split; [done|]. intros r.
      rewrite list_elem_of_filter. tauto.
  - intros j Hnone'. subst db'. unfold delete_comment. simpl.
    destruct (decide (id = j)) as [->|Hne]; [apply lookup_delete_eq|].
    rewrite lookup_delete_ne by done.
    destruct (cm_parentComment c) as [parent|]; [|done].
    rewrite findByIdAndUpdate_lookup, Hnone'. by case_decide.
  - intros Htop j d Hj Hd. rewrite (Hother j d Hj Hd), Htop.
    by rewrite decide_False.
  - intros j d Hj Hd Hpar. rewrite (Hother j d Hj Hd).
    eexists. split; [done|]. split; [|exact Hgone].
    by case_decide; simpl; rewrite Hpar.
  - subst db'. unfold delete_comment. simpl.
    destruct (cm_parentComment c); [|done].
    apply findByIdAndUpdate_rest.
Qed.

End delete_comment.

Lemma delete_comment_detaches_witness :
  Store.cm_replies Sample.top_comment = [8%nat]
  ∧ Store.comments
      (Comments.delete_comment 200 8 Sample.reply_comment Sample.db).2 !! 7%nat
    = Some (Store.mkComment "Great article!" 5 2 None [] [1; 2]%nat
                            true false 70 200)
  ∧ ∃ d', Store.comments
            (Comments.delete_comment 200 8 Sample.reply_comment Sample.db).2 !! 9%nat
          = Some d'
          ∧ Store.cm_parentComment d' = Some 8%nat
          ∧ Store.comments
              (Comments.delete_comment 200 8 Sample.reply_comment Sample.db).2 !! 8%nat
            = None.
Proof.
  destruct (delete_comment_detaches 200 8%nat Sample.reply_comment Sample.db
              eq_refl) as (_ & _ & Hother & _ & _ & _ & Hchild & _).
  split; [reflexivity|]. split.
  - exact (Hother 7%nat Sample.top_comment ltac:(lia) eq_refl).
  - apply (Hchild 9%nat Sample.nested_comment); [lia|reflexivity|reflexivity].
Defined.

(** ** The parent links *)

Section parent_links.
Import Store Comments.

Lemma keeps_parents_refl db : keeps_parents db db.
Proof. split; [done|]. eauto. Qed.

Lemma keeps_parents_trans db1 db2 db3 :
  keeps_parents db1 db2 → keeps_parents db2 db3 → keeps_parents db1 db3.
Proof.
  intros [Hn1 H1] [Hn2 H2]. split; [congruence|].
  intros j c3 Hc3. destruct (H2 j c3 Hc3) as (c2 & Hc2 & Hp2).
  destruct (H1 j c2 Hc2) as (c1 & Hc1 & Hp1). exists c1. split; [done|congruence].
Qed.

Lemma save_keeps now id old new db :
  comments db !! id = Some old →
  cm_parentComment new = cm_parentComment old →
  keeps_parents db (save now id old new db).2.
Proof.
  intros Hold Hpar. unfold save. case_decide; [apply keeps_parents_refl|].
  split; [done|]. simpl. intros j c'. rewrite lookup_insert.
  case_decide; [|eauto]. intros [= <-]. subst j. exists old. done.
Qed.

Lemma findByIdAndUpdate_keeps now id update db :
  (∀ c, cm_parentComment (update c) = cm_parentComment c) →
  keeps_parents db (findByIdAndUpdate now id update db).
Proof.
  intros Hupd. split; [apply findByIdAndUpdate_rest|].
  intros j c'. rewrite findByIdAndUpdate_lookup. case_decide; [|eauto].
  destruct (comments db !! j) as [c|]; [|done]. simpl.
  intros [= <-]. exists c. split; [done|]. simpl. apply Hupd.
Qed.

Lemma remove_keeps id db :
  keeps_parents db (with_comments (delete id (comments db)) db).
Proof.
  split; [done|]. simpl. intros j c'. rewrite lookup_delete.
  case_decide; [done|eauto].
Qed.

Lemma keeps_adds_child_only db db' : keeps_parents db db' → adds_child_only db db'.
Proof. intros [Hn H]. split; [lia|]. intros j c' Hc'. right. eauto. Qed.

Lemma update_comment_keeps now id text c db :
  comments db !! id = Some c →
  keeps_parents db (update_comment now id text c db).2.
Proof.
  intros Hc. unfold update_comment.
  destruct (check_length _ _ _) as [[t|]|]; try apply keeps_parents_refl.
  pose proof (save_keeps now id c (set_isEdited true (set_text t c)) db Hc eq_refl)
    as Hk.
  destruct (save _ _ _ _ _) as [saved db']. by case_match.
Qed.

Lemma delete_comment_keeps now id c db :
  keeps_parents db (delete_comment now id c db).2.
Proof.
  unfold delete_comment. simpl. destruct (cm_parentComment c) as [parent|].
  - eapply keeps_parents_trans; [|apply remove_keeps].
    by apply findByIdAndUpdate_keeps.
  - apply remove_keeps.
Qed.

Lemma like_comment_keeps now u id db :
  keeps_parents db (like_comment now u id db).2.
Proof.
  unfold like_comment. destruct (comments db !! id) as [c|] eqn:Hc;
    [|apply keeps_parents_refl].
  pose proof (save_keeps now id c
                (set_likes (toggle_like (pr_id u) (cm_likes c)) c) db Hc eq_refl)
    as Hk.
  by destruct (save _ _ _ _ _) as [saved db'].
Qed.

Lemma approve_comment_keeps now id isApproved db :
  keeps_parents db (approve_comment now id isApproved db).2.
Proof.
  unfold approve_comment. destruct (comments db !! id) as [c|] eqn:Hc;
    [|apply keeps_parents_refl].
  pose proof (save_keeps now id c (set_isApproved isApproved c) db Hc eq_refl)
    as Hk.
  by destruct (save _ _ _ _ _) as [saved db'].
Qed.

Lemma create_comment_adds_child now u b db :
  adds_child_only db (create_comment now u b db).2.
Proof.
  unfold create_comment.
  destruct (check_length _ _ _) as [[text|]|];
    try apply keeps_adds_child_only, keeps_parents_refl.
  destruct (posts db !! cb_post b);
    [|apply keeps_adds_child_only, keeps_parents_refl].
  destruct (parent_missing _ _) eqn:Hmiss;
    [apply keeps_adds_child_only, keeps_parents_refl|].
  set (comment := mkComment text _ _ _ _ _ _ _ _ _).
  set (db1 := mkDB _ _ _ _ _).
  set (db2 := match cb_parentComment b with Some _ => _ | None => _ end).
  assert (keeps_parents db1 db2) as [Hn Hk].
  { subst db2. destruct (cb_parentComment b); [|apply keeps_parents_refl].
    by apply findByIdAndUpdate_keeps. }
  assert (adds_child_only db db2) as Hadd.
  { split; [rewrite Hn; simpl; lia|].
    intros j c' Hc'. destruct (Hk j c' Hc') as (c1 & Hc1 & Hp).
    subst db1. simpl in Hc1. rewrite lookup_insert in Hc1.
    case_decide as Hj.
    - left. split; [done|]. split; [rewrite Hn; simpl; lia|].
      simplify_eq. intros parent. rewrite Hp. simpl. intros Hpar.
      unfold parent_missing in Hmiss. rewrite Hpar in Hmiss.
      by destruct (comments db !! parent).
    - right. exists c1. done. }
  by case_match.
Qed.

Lemma handle_adds_child_only now auth r db :
  adds_child_only db (handle now auth r db).
Proof.
  destruct r as [b|id text|id|id|id isApproved];
    unfold handle, drop_body, Guard.protect, Guard.isAuthor, Guard.authorize;
    destruct auth as [u|]; try apply keeps_adds_child_only, keeps_parents_refl.
  - apply create_comment_adds_child.
  - destruct (comments db !! id) as [c|] eqn:Hc;
      [|apply keeps_adds_child_only, keeps_parents_refl].
    case_match; [|apply keeps_adds_child_only, keeps_parents_refl].
    by apply keeps_adds_child_only, update_comment_keeps.
  - destruct (comments db !! id) as [c|] eqn:Hc;
      [|apply keeps_adds_child_only, keeps_parents_refl].
    case_match; [|apply keeps_adds_child_only, keeps_parents_refl].
    apply keeps_adds_child_only, delete_comment_keeps.
  - apply keeps_adds_child_only, like_comment_keeps.
  - case_match; [|apply keeps_adds_child_only, keeps_parents_refl].
    apply keeps_adds_child_only, approve_comment_keeps.
Qed.

Lemma parents_older_step db db' :
  parents_older db → adds_child_only db db' → parents_older db'.
Proof.
  intros Hinv [Hn Hstep] j c' Hc'.
  destruct (Hstep j c' Hc') as [(-> & Hlt & Hpar)|(c & Hc & Hp)].
  - split; [done|]. intros p [c Hc]%Hpar. by apply Hinv in Hc as [? _].
  - destruct (Hinv j c Hc) as [Hlt Hpar]. split; [lia|].
    intros p. rewrite Hp. apply Hpar.
Qed.

Lemma seeded_parents_older db : seeded db → parents_older db.
Proof.
  intros Hs j c Hc. destruct (Hs j c Hc) as [Hlt Hnone].
  split; [done|]. by rewrite Hnone.
Qed.

Lemma reachable_parents_older db : reachable db → parents_older db.
Proof.
  induction 1 as [db Hs|db now auth r _ IH].
  - by apply seeded_parents_older.
  - eapply parents_older_step; [exact IH|apply handle_adds_child_only].
Qed.

Lemma ancestor_older db c p : parents_older db → ancestor db c p → (p < c)%nat.
Proof.
  intros Hinv. induction 1 as [x y (d & Hd & Hp)|x y z (d & Hd & Hq) _ IH].
  - by apply (Hinv x d Hd).
  - pose proof (proj2 (Hinv x d Hd) y Hq). lia.
Qed.

(** C7.  In every store reached from a seeded one by requests to the
    comments router no comment is its own ancestor.  A request leaves the
    [parentComment] of every comment that was there as it was, and the
    [parentComment] of a comment that it adds is null or the id of a comment
    that was there. *)
Theorem parent_links_form_forest db :
  reachable db →
  (∀ c, ¬ ancestor db c c)
  ∧ (∀ now auth r id c',
       comments (handle now auth r db) !! id = Some c' →
       match comments db !! id with
       | Some c => cm_parentComment c' = cm_parentComment c
       | None => ∀ p, cm_parentComment c' = Some p → is_Some (comments db !! p)
       end).
Proof.
  intros Hinv%reachable_parents_older. split.
  - intros c Hc%(ancestor_older _ _ _ Hinv). lia.
  - intros now auth r id c' Hc'.
    destruct (handle_adds_child_only now auth r db) as [_ Hstep].
    destruct (Hstep id c' Hc') as [(-> & _ & Hpar)|(c & Hc & Hp)].
    + destruct (comments db !! nextId db) as [c|] eqn:Hc; [|done].
      apply Hinv in Hc as [? _]. lia.
    + by rewrite Hc.
Qed.

End parent_links.

Lemma seed_db_seeded : Comments.seeded Sample.seed_db.
Proof.
  intros id c Hc. unfold Sample.seed_db in *. simpl in *.
  apply lookup_singleton_Some in Hc as [<- <-]. split; [lia|reflexivity].
Defined.

Example reply_is_stored :
  Store.cm_parentComment <$> Store.comments Sample.replied_db !! 10%nat
  = Some (Some 7%nat)
  ∧ Store.cm_replies <$> Store.comments Sample.replied_db !! 7%nat
    = Some [10%nat].
Proof. split; vm_compute; reflexivity. Qed.

Lemma parent_links_form_forest_witness :
  ¬ Comments.ancestor Sample.replied_db 10 10.
Proof.
  apply (parent_links_form_forest Sample.replied_db).
  apply Comments.reachable_handle, Comments.reachable_seeded, seed_db_seeded.
Defined.

(* ===================================================================== *)
(** * Part III: further properties of the code *)
(* ===================================================================== *)

(** ** The alphabet and the shape of a slug *)

Module SlugShape.
Import CategoryModel CategoryFacts Shape.

Lemma slug_unit_lower c : slug_unit c = true → toLowerCase_unit c = c.
Proof.
  destruct c as [[|] [|] [|] [|] [|] [|] [|] [|]]; vm_compute;
    first [reflexivity | discriminate].
Qed.

Lemma in_class_slug_unit c : in_class c = true → slug_unit c = true.
Proof. unfold slug_unit. by intros ->. Qed.

Lemma hyphen_slug_unit : slug_unit hyphen = true.
Proof. reflexivity. Qed.

Lemma replace_non_class_units b s :
  Forall (λ c, slug_unit c = true) (replace_non_class b s).
Proof.
  revert b. induction s as [|c s IH]; intros b; [constructor|].
  cbn [replace_non_class]. destruct (in_class c) eqn:Hc.
  - constructor; [by apply in_class_slug_unit | apply IH].
  - destruct b; [apply IH|]. constructor; [apply hyphen_slug_unit | apply IH].
Qed.

Lemma replace_edge_start c t :
  replace_edge_hyphens true (c :: t)
  = if is_hyphen c then replace_edge_hyphens false t
    else replace_edge_hyphens false (c :: t).
Proof.
  cbn [replace_edge_hyphens]. rewrite orb_true_l, andb_true_r.
  by destruct (is_hyphen c).
Qed.

Lemma replace_edge_false_elem b s c :
  c ∈ replace_edge_hyphens b s → c ∈ s.
Proof.
  revert b. induction s as [|a s IH]; intros b; [done|].
  cbn [replace_edge_hyphens]. destruct (_ && _).
  - intros Hin%IH. by right.
  - intros [->|Hin%IH]%elem_of_cons; [left | by right].
Qed.

Lemma replace_edge_keeps b s c :
  c ∈ s → is_hyphen c = false → c ∈ replace_edge_hyphens b s.
Proof.
  revert b. induction s as [|a s IH]; intros b; [by intros ?%elem_of_nil|].
  intros [->|Hin]%elem_of_cons Hc; cbn [replace_edge_hyphens].
  - rewrite Hc. simpl. left.
  - destruct (_ && _); [by apply IH|]. right. by apply IH.
Qed.

Lemma replace_non_class_keeps b s c :
  c ∈ s → in_class c = true → c ∈ replace_non_class b s.
Proof.
  revert b. induction s as [|a s IH]; intros b; [by intros ?%elem_of_nil|].
  intros [->|Hin]%elem_of_cons Hc; cbn [replace_non_class].
  - rewrite Hc. left.
  - destruct (in_class a); [right; by apply IH|].
    destruct b; [by apply IH|]. right. by apply IH.
Qed.

Lemma replace_non_class_swallows s :
  Forall (λ c, in_class c = false) s → replace_non_class true s = [].
Proof.
  induction 1 as [|c s Hc _ IH]; [done|].
  cbn [replace_non_class]. by rewrite Hc.
Qed.

Lemma replace_non_class_none b s :
  Forall (λ c, in_class c = false) s →
  replace_non_class b s = [] ∨ replace_non_class b s = [hyphen].
Proof.
  intros Hs. destruct b; [left; by apply replace_non_class_swallows|].
  destruct Hs as [|c s Hc Hs]; [by left|]. right.
  cbn [replace_non_class]. by rewrite Hc, replace_non_class_swallows.
Qed.

(** The first replacement leaves a slug as it is. *)
Lemma replace_non_class_fixed b s :
  Forall (λ c, slug_unit c = true) s → no_double s = true →
  (b = true → starts_with_hyphen s = false) →
  replace_non_class b s = s.
Proof.
  intros Hs. revert b. induction Hs as [|c s Hc _ IH]; intros b Hn Hb; [done|].
  cbn [replace_non_class]. pose proof (no_double_tail _ _ Hn) as Hn'.
  destruct (in_class c) eqn:Hcls.
  - rewrite IH by done. done.
  - assert (is_hyphen c = true) as Hh.
    { unfold slug_unit in Hc. rewrite Hcls in Hc. done. }
    destruct b; [simpl in Hb; rewrite Hh in Hb; by specialize (Hb eq_refl)|].
    apply bool_decide_eq_true in Hh as ->. f_equal. apply IH; [done|].
    intros _. destruct s as [|d s]; [done|]. simpl in Hn |- *.
    apply andb_true_iff in Hn as [Hn _].
    change (is_hyphen hyphen) with true in Hn. by destruct (is_hyphen d).
Qed.

Lemma strip_trailing_no_hyphen s :
  starts_with_hyphen (reverse s) = false → strip_trailing s = s.
Proof.
  intros H. unfold strip_trailing.
  by rewrite strip_leading_no_hyphen, reverse_involutive.
Qed.

(** What the second replacement yields on a string without two hyphens in
    a row. *)
Lemma replace_edge_shape t :
  no_double t = true →
  let s := replace_edge_hyphens true t in
  starts_with_hyphen s = false ∧ starts_with_hyphen (reverse s) = false
  ∧ no_double s = true.
Proof.
  intros Hn s.
  assert (∃ t1, s = replace_edge_hyphens false t1 ∧ no_double t1 = true
                ∧ starts_with_hyphen t1 = false) as (t1 & Hs & Hn1 & Hst).
  { subst s. destruct t as [|c t]; [by exists []|].
    rewrite replace_edge_start. destruct (is_hyphen c) eqn:Hc.
    - exists t. split; [done|]. split; [by eapply no_double_tail|].
      destruct t as [|b t]; [done|]. simpl in Hn |- *. rewrite Hc in Hn.
      by destruct (is_hyphen b).
    - exists (c :: t). split; [done|]. split; [done|]. simpl. by rewrite Hc. }
  rewrite Hs. clear Hs s Hn t.
  destruct t1 as [|c v _] using rev_ind; [done|].
  rewrite replace_edge_last.
  apply no_double_snoc in Hn1 as Hv. destruct Hv as [Hv Hlast].
  destruct (is_hyphen c) eqn:Hc.
  - rewrite app_nil_r. split; [|split; [by apply Hlast | done]].
    destruct v as [|a v]; [done|]. exact Hst.
  - split; [done|]. split; [|done]. rewrite reverse_snoc. simpl. by rewrite Hc.
Qed.

Lemma slug_units_shape name :
  let s := slugify_units name in
  Forall (λ c, slug_unit c = true) s
  ∧ starts_with_hyphen s = false ∧ starts_with_hyphen (reverse s) = false
  ∧ no_double s = true.
Proof.
  intros s. subst s. unfold slugify_units.
  pose proof (replace_non_class_no_double (toLowerCase name)) as (Hn & _ & _).
  split; [|by apply replace_edge_shape].
  apply Forall_forall. intros c Hc%replace_edge_false_elem.
  pose proof (replace_non_class_units false (toLowerCase name)) as Hall.
  rewrite Forall_forall in Hall. by apply Hall.
Qed.

Lemma slugify_units_fixed s :
  Forall (λ c, slug_unit c = true) s →
  starts_with_hyphen s = false → starts_with_hyphen (reverse s) = false →
  no_double s = true →
  slugify_units s = s.
Proof.
  intros Hu Hs He Hn. unfold slugify_units.
  assert (toLowerCase s = s) as ->.
  { unfold toLowerCase. clear -Hu. induction Hu as [|c s Hc _ IH]; [done|].
    simpl. by rewrite IH, slug_unit_lower. }
  rewrite replace_non_class_fixed by done.
  rewrite replace_edge_strip by done.
  by rewrite strip_leading_no_hyphen, strip_trailing_no_hyphen.
Qed.

End SlugShape.

Section slug_shape.
Import CategoryModel Shape.

(** X1.  Whatever the name, the slug that the hook computes consists of
    lowercase letters, digits and hyphens only, neither begins nor ends with
    a hyphen, and has no two hyphens in a row. *)
Theorem slug_is_url_safe (name : string) :
  let s := list_ascii_of_string (slugify name) in
  Forall (λ c, slug_unit c = true) s
  ∧ head s ≠ Some hyphen ∧ last s ≠ Some hyphen
  ∧ (∀ i, ¬ (s !! i = Some hyphen ∧ s !! S i = Some hyphen)).
Proof.
  intros s. subst s. unfold slugify.
  rewrite list_ascii_of_string_of_list_ascii.
  destruct (SlugShape.slug_units_shape (list_ascii_of_string name))
    as (Hu & Hs & He & Hn).
  set (s := slugify_units _) in *. clearbody s.
  split; [done|]. split; [|split].
  - destruct s as [|c s]; [done|]. simpl in *. intros [= ->]. done.
  - rewrite <- head_reverse. destruct (reverse s) as [|c r]; [done|].
    simpl in *. intros [= ->]. done.
  - clear Hu Hs He. induction s as [|a s IH]; intros i [H1 H2]; [done|].
    destruct i as [|i].
    + destruct s as [|b s]; [done|]. simpl in *.
      injection H1 as ->. injection H2 as ->. done.
    + apply (IH (CategoryFacts.no_double_tail _ _ Hn) i). done.
Qed.

(** X2.  Computing the slug of a slug changes nothing. *)
Theorem slugify_idempotent (name : string) :
  slugify (slugify name) = slugify name.
Proof.
  unfold slugify. rewrite list_ascii_of_string_of_list_ascii. f_equal.
  destruct (SlugShape.slug_units_shape (list_ascii_of_string name))
    as (Hu & Hs & He & Hn).
  by apply SlugShape.slugify_units_fixed.
Qed.

(** Among the units below 256, lower-casing takes exactly the digits and
    the letters A-Z and a-z into the class [[a-z0-9]]. *)
Lemma in_class_lower_alnum c :
  in_class (toLowerCase_unit c) = Shape.ascii_alnum c.
Proof. by destruct c as [[] [] [] [] [] [] [] []]. Qed.

(** X3.  For a name of Latin-1 characters, that is, of code units below 256,
    which are the units that the strings of this development hold: the slug
    is empty exactly when the name has no letter a-z or A-Z and no digit.
    (Above 255 [toLowerCase] takes some units to ASCII letters, the Kelvin
    sign U+212A to [k]; the equivalence does not extend to such names.) *)
Theorem slug_empty_iff (name : string) :
  slugify name = ""
  ↔ Forall (λ c, Shape.ascii_alnum c = false) (list_ascii_of_string name).
Proof.
  unfold slugify, slugify_units. set (n := list_ascii_of_string name).
  setoid_rewrite <- in_class_lower_alnum.
  split.
  - intros Hempty. apply Forall_forall. intros c Hc.
    destruct (in_class (toLowerCase_unit c)) eqn:Hcls; [|done].
    assert (toLowerCase_unit c
            ∈ replace_edge_hyphens true (replace_non_class false (toLowerCase n)))
      as Hin.
    { apply SlugShape.replace_edge_keeps;
        [|by apply CategoryFacts.in_class_not_hyphen].
      apply SlugShape.replace_non_class_keeps; [|done].
      unfold toLowerCase. apply list_elem_of_In, in_map.
      by apply list_elem_of_In. }
    destruct (replace_edge_hyphens _ _) as [|a l] eqn:E; [|done].
    by apply elem_of_nil in Hin.
  - intros Hn.
    assert (Forall (λ c, in_class c = false) (toLowerCase n)) as Hl.
    { unfold toLowerCase. clear -Hn. induction Hn; simpl; by constructor. }
    by destruct (SlugShape.replace_non_class_none false _ Hl) as [-> | ->].
Qed.

End slug_shape.

Lemma slug_empty_iff_witness : CategoryModel.slugify "?!" = "".
Proof.
  apply slug_empty_iff. repeat constructor.
Defined.

(** ** Dispatch in the three routers *)

Section routers.
Import Router Routing.

Lemma dispatch_posts_table m segs :
  dispatch_to posts_table m segs = dispatch m segs.
Proof. reflexivity. Qed.

(** X4.  In the posts router every handler but the trending one is reached
    by some request, and the trending one by none. *)
Theorem posts_handlers_reached (h : Handler) :
  (∃ m segs params, dispatch m segs = Some (h, params)) ↔ h ≠ Trending.
Proof.
  split.
  - intros (m & segs & params & Hd) ->. revert Hd.
    unfold dispatch, posts_routes.
    destruct m; simpl; try by repeat (case_match; simplify_eq).
    destruct segs as [|s1 [|s2 [|s3 segs]]]; simpl; try done.
    + case_bool_decide; simpl; [|done]. by subst s1.
    + repeat (case_match; simplify_eq/=); done.
    + repeat (case_match; simplify_eq/=); done.
  - intros Hh. destruct h; try done.
    + by exists GET, [], [].
    + by exists GET, ["1"], [("id", "1")].
    + by exists POST, [], [].
    + by exists PUT, ["1"], [("id", "1")].
    + by exists DELETE, ["1"], [("id", "1")].
    + by exists GET, ["category"; "1"], [("categoryId", "1")].
Qed.

(** X5.  In the comments router every handler is reached by some request.
    A GET of two segments goes to the listing of a post's comments whenever
    the first segment is [post], whatever the second (also [replies]), and
    to the replies of a comment only when the first segment is not [post]. *)
Theorem comments_handlers_reached :
  (∀ h, ∃ m segs params, dispatch_comments m segs = Some (h, params))
  ∧ (∀ a b, lit_matches "post" a = true → b ≠ "" →
       dispatch_comments GET [a; b] = Some (CommentsForPost, [("postId", b)]))
  ∧ (∀ a b params,
       dispatch_comments GET [a; b] = Some (RepliesOfComment, params) →
       lit_matches "post" a = false ∧ lit_matches "replies" b = true
       ∧ params = [("id", a)]).
Proof.
  split; [|split].
  - intros []; [by exists GET, ["post"; "1"], [("postId", "1")]
               |by exists POST, [], []
               |by exists PUT, ["1"], [("id", "1")]
               |by exists DELETE, ["1"], [("id", "1")]
               |by exists POST, ["1"; "like"], [("id", "1")]
               |by exists PATCH, ["1"; "approve"], [("id", "1")]
               |by exists GET, ["1"; "replies"], [("id", "1")]].
  - intros a b Ha Hb. unfold dispatch_comments, comments_routes. simpl.
    by rewrite Ha, bool_decide_false.
  - intros a b params. unfold dispatch_comments, comments_routes. simpl.
    destruct (lit_matches "post" a); simpl.
    + case_bool_decide; simpl; [|done]. subst b.
      change (lit_matches "replies" "") with false.
      by case_bool_decide.
    + case_bool_decide; simpl; [done|].
      destruct (lit_matches "replies" b); simpl; [|done].
      by intros [= <-].
Qed.

(** X6.  In the users router ['/me'] is registered before ['/:id']: a GET
    of one segment goes to the profile handler when the segment is [me] in
    any case, and to the by-id handler with that segment as [id] otherwise;
    every handler of the router is reached by some request. *)
Theorem users_me_before_id :
  (∀ seg, dispatch_users GET [seg]
          = if lit_matches "me" seg then Some (GetMe, [])
            else if bool_decide (seg = "") then None
            else Some (GetUser, [("id", seg)]))
  ∧ (∀ h, ∃ m segs params, dispatch_users m segs = Some (h, params)).
Proof.
  split.
  - intros seg. unfold dispatch_users, users_routes. simpl.
    destruct (lit_matches "me" seg); [done|].
    by case_bool_decide.
  - intros []; [by exists GET, ["me"], []
               |by exists GET, [], []
               |by exists GET, ["7"], [("id", "7")]
               |by exists PUT, ["me"], []
               |by exists PATCH, ["7"; "status"], [("id", "7")]].
Qed.

End routers.

Lemma comments_handlers_reached_witness :
  Routing.dispatch_comments Router.GET ["post"; "replies"]
  = Some (Routing.CommentsForPost, [("postId", "replies")]).
Proof.
  apply (proj1 (proj2 comments_handlers_reached)); [reflexivity | discriminate].
Defined.
(** ** The listings of posts *)

Section listings.
Import Store Posts.

Variable castObjectId : string → option ObjectId.
Variable regex_i : string → option (string → bool).

#[local] Instance newer_first_total : Total newer_first.
Proof. intros a b. unfold newer_first. lia. Qed.

#[local] Instance newer_first_trans : Transitive newer_first.
Proof. intros a b c. unfold newer_first. lia. Qed.

Lemma find_posts_sorted query db : StronglySorted newer_first (find_posts query db).
Proof. apply StronglySorted_merge_sort; apply _. Qed.

Lemma StronglySorted_take_drop {A} (R : relation A) n m (l : list A) :
  StronglySorted R l → StronglySorted R (take n (drop m l)).
Proof.
  intros Hl. rewrite <- (take_drop m l) in Hl.
  apply StronglySorted_app_1_r in Hl.
  rewrite <- (take_drop n (drop m l)) in Hl.
  by apply StronglySorted_app_1_l in Hl.
Qed.

Lemma skip_limit_sorted {A} (R : relation A) s l (docs found : list A) :
  StronglySorted R docs → skip_limit s l docs = Some found →
  StronglySorted R found.
Proof.
  intros Hd. unfold skip_limit. repeat case_match; intros [= <-]; try done.
  - rewrite <- (take_drop (Z.to_nat s) docs) in Hd.
    by apply StronglySorted_app_1_r in Hd.
  - by apply StronglySorted_take_drop.
Qed.

Lemma skip_limit_length {A} s l (docs found : list A) :
  l ≠ 0 → skip_limit s l docs = Some found →
  (length found ≤ Z.abs_nat l)%nat.
Proof.
  intros Hl. unfold skip_limit. destruct (s <? 0); [done|].
  rewrite (proj2 (Z.eqb_neq _ _)) by done. intros [= <-].
  rewrite length_take. lia.
Qed.

Lemma StronglySorted_lookup {A} (R : relation A) (l : list A) i j a b :
  StronglySorted R l → (i < j)%nat → l !! i = Some a → l !! j = Some b → R a b.
Proof.
  intros Hl. revert i j. induction Hl as [|x l _ IH Hx]; intros i j Hij Hi Hj;
    [done|].
  destruct i as [|i], j as [|j]; try lia; simpl in *.
  - injection Hi as <-. rewrite Forall_forall in Hx.
    apply Hx. by eapply list_elem_of_lookup_2.
  - apply (IH i j); [lia|done|done].
Qed.

Lemma or_default_nonzero v d : d ≠ 0 → or_default v d ≠ 0.
Proof. intros Hd. unfold or_default. by repeat case_match. Qed.

Lemma findOne_category_None i name_ok db :
  findOne_category i name_ok db = None
  ↔ ∀ cid c, categories db !! cid = Some c → cid ≠ i ∧ name_ok (cat_name c) = false.
Proof.
  unfold findOne_category. split.
  - intros Hnone cid c Hc.
    pose proof (find_none _ _ Hnone (cid, c)) as Hf.
    rewrite <- list_elem_of_In, elem_of_map_to_list in Hf.
    specialize (Hf Hc). simpl in Hf.
    apply orb_false_iff in Hf as [Hf ?]. apply bool_decide_eq_false in Hf. done.
  - intros Hall. destruct (find _ _) as [[cid c]|] eqn:Hf; [|done].
    apply find_some in Hf as [Hin Hf].
    rewrite <- list_elem_of_In, elem_of_map_to_list in Hin.
    destruct (Hall cid c Hin) as [Hne Hname]. simpl in Hf.
    rewrite Hname, bool_decide_false in Hf by done. done.
Qed.

Lemma findOne_category_Some i name_ok db cid c :
  findOne_category i name_ok db = Some (cid, c) →
  categories db !! cid = Some c ∧ (cid = i ∨ name_ok (cat_name c) = true).
Proof.
  unfold findOne_category. intros [Hin Hf]%find_some.
  rewrite <- list_elem_of_In, elem_of_map_to_list in Hin. split; [done|].
  simpl in Hf. apply orb_true_iff in Hf as [Hf|Hf]; [left|by right].
  by apply bool_decide_eq_true in Hf.
Qed.

Lemma category_condition_given q s i db :
  truthy (q_category q) = Some s → castObjectId s = Some i →
  category_condition castObjectId q db
  = Some (match findOne_category i (String.eqb s) db with
          | Some (cid, _) => fun kp => bool_decide (p_category kp.2 = cid)
          | None => fun _ => true
          end).
Proof. intros Ht Hc. unfold category_condition. by rewrite Ht, Hc. Qed.

(** X7.  The category parameter of [GET /] goes into the query for the
    category as an [_id] and as a name, so it is cast to an id.  When the
    cast fails, as it does for a parameter that is only a name, the request
    is answered with the server error.  When the parameter is an id and no
    category has that id, or has it, letter for letter, as its name, the
    parameter is ignored: the answer is the one of the same request without
    it.  When a category has, every post of the answer belongs to a category
    with that id or name. *)
Theorem list_category_filter q s db :
  q_category q = Some s → s ≠ "" →
  (castObjectId s = None →
     list_posts castObjectId regex_i q db = (ServerError, db))
  ∧ (∀ i, castObjectId s = Some i →
       ((∀ cid c, categories db !! cid = Some c → cid ≠ i ∧ cat_name c ≠ s) →
          list_posts castObjectId regex_i q db
          = list_posts castObjectId regex_i
              (mkListQuery (q_page q) (q_limit q) None (q_search q)) db)
       ∧ (∀ body v,
            (∃ cid c, categories db !! cid = Some c
                      ∧ (cid = i ∨ cat_name c = s)) →
            (list_posts castObjectId regex_i q db).1 = Ok body →
            v ∈ lb_posts body →
            ∃ p c, posts db !! v_id v = Some p
                   ∧ categories db !! p_category p = Some c
                   ∧ (p_category p = i ∨ cat_name c = s))).
Proof.
  intros Hq Hs.
  assert (truthy (q_category q) = Some s) as Ht.
  { rewrite Hq. destruct s; [done|reflexivity]. }
  split.
  { intros Hcast. unfold list_posts, list_query, category_condition.
    by rewrite Ht, Hcast. }
  intros i Hcast. split.
  - intros Hnone.
    assert (findOne_category i (String.eqb s) db = None) as Hf.
    { apply findOne_category_None. intros cid c Hc.
      destruct (Hnone cid c Hc) as [? Hname]. split; [done|].
      apply String.eqb_neq. congruence. }
    unfold list_posts, list_query.
    rewrite (category_condition_given q s i db Ht Hcast), Hf. done.
  - intros body v (cid0 & c0 & Hc0 & Hmatch).
    unfold list_posts, list_query.
    rewrite (category_condition_given q s i db Ht Hcast).
    destruct (findOne_category i (String.eqb s) db) as [[cid c]|] eqn:Hf.
    + apply findOne_category_Some in Hf as [Hc Hor].
      destruct (search_condition regex_i q) as [sc|]; [|done]. simpl.
      intros Hb Hv.
      destruct (paginated_elem _ _ _ _ _ _ Hb Hv) as (kp & Hkp & Hview).
      apply find_posts_elem in Hkp as [Hkp Hquery].
      rewrite (list_view_id _ _ _ Hview). exists kp.2, c.
      apply andb_true_iff in Hquery as [[_ Hcat]%andb_true_iff _].
      apply bool_decide_eq_true in Hcat. rewrite Hcat.
      split; [done|]. split; [done|].
      destruct Hor as [->|Hn]; [by left|right]. by apply String.eqb_eq in Hn.
    + exfalso. rewrite findOne_category_None in Hf.
      destruct (Hf cid0 c0 Hc0) as [Hne Hname].
      destruct Hmatch as [->|<-]; [done|].
      by rewrite String.eqb_refl in Hname.
Qed.

(** X8.  With a search parameter that the matcher accepts, the title or the
    content of every post of the answer of [GET /] matches it. *)
Theorem list_search_matches q s re db body v :
  q_search q = Some s → s ≠ "" → regex_i s = Some re →
  (list_posts castObjectId regex_i q db).1 = Ok body → v ∈ lb_posts body →
  re (v_title v) = true ∨ re (v_content v) = true.
Proof.
  intros Hq Hs Hre.
  assert (truthy (q_search q) = Some s) as Ht.
  { rewrite Hq. destruct s; [done|reflexivity]. }
  unfold list_posts, list_query, search_condition. rewrite Ht, Hre.
  destruct (category_condition castObjectId q db) as [cc|]; [|done]. simpl.
  intros Hb Hv.
  destruct (paginated_elem _ _ _ _ _ _ Hb Hv) as (kp & Hkp & Hview).
  apply find_posts_elem in Hkp as [_ Hquery].
  apply andb_true_iff in Hquery as [_ Hsearch].
  unfold list_view in Hview. simplify_option_eq.
  by apply orb_true_iff.
Qed.

Lemma list_view_createdAt db kp v :
  list_view db kp = Some v → v_createdAt v = Some (p_createdAt kp.2).
Proof. unfold list_view. intros; simplify_option_eq. done. Qed.

Lemma paginated_found page limit view matching body :
  paginated page limit view matching = Ok body →
  ∃ found, skip_limit ((page - 1) * limit) limit matching = Some found
           ∧ mapM view found = Some (lb_posts body)
           ∧ lb_count body = Z.of_nat (length found).
Proof.
  unfold paginated. destruct (skip_limit _ _ _) as [found|]; [|done].
  destruct (mapM view found) as [vs|] eqn:Hm; [|done].
  intros [= <-]. exists found. done.
Qed.

(** X9.  A page of [GET /] is in order of creation, newest first, holds at
    most as many posts as the limit says (10 when the parameter is absent or
    zero, the absolute value when it is negative), and [count] is its
    length. *)
Theorem list_page_ordered q db body :
  (list_posts castObjectId regex_i q db).1 = Ok body →
  (∀ i j a b, (i < j)%nat →
     lb_posts body !! i = Some a → lb_posts body !! j = Some b →
     ∃ x y, v_createdAt a = Some x ∧ v_createdAt b = Some y ∧ y ≤ x)
  ∧ (length (lb_posts body) ≤ Z.abs_nat (or_default (q_limit q) 10))%nat
  ∧ lb_count body = Z.of_nat (length (lb_posts body)).
Proof.
  unfold list_posts.
  destruct (list_query _ _ q db) as [query|]; [|done]. simpl.
  intros (found & Hskip & Hviews & Hcount)%paginated_found.
  apply mapM_Some_1 in Hviews.
  pose proof (Forall2_length _ _ _ Hviews) as Hlen.
  split; [|split].
  - intros i j a b Hij Ha Hb.
    destruct (Forall2_lookup_r _ _ _ _ _ Hviews Ha) as (ka & Hka & Hva).
    destruct (Forall2_lookup_r _ _ _ _ _ Hviews Hb) as (kb & Hkb & Hvb).
    exists (p_createdAt ka.2), (p_createdAt kb.2).
    split; [by apply list_view_createdAt in Hva|].
    split; [by apply list_view_createdAt in Hvb|].
    pose proof (skip_limit_sorted newer_first _ _ _ _
                  (find_posts_sorted query db) Hskip) as Hs.
    exact (StronglySorted_lookup _ _ _ _ _ _ Hs Hij Hka Hkb).
  - rewrite <- Hlen. eapply skip_limit_length; [|exact Hskip].
    by apply or_default_nonzero.
  - by rewrite Hcount, Hlen.
Qed.

Lemma comments_of_elem post db kc :
  kc ∈ comments_of post db ↔ comments db !! kc.1 = Some kc.2 ∧ cm_post kc.2 = post.
Proof.
  unfold comments_of. rewrite list_elem_of_filter, elem_of_map_to_list'. tauto.
Qed.

Lemma approved_comments_of_elem post db kc :
  kc ∈ approved_comments_of post db
  ↔ comments db !! kc.1 = Some kc.2 ∧ cm_post kc.2 = post
    ∧ cm_isApproved kc.2 = true.
Proof.
  unfold approved_comments_of.
  rewrite merge_sort_Permutation.
  rewrite list_elem_of_filter, comments_of_elem, Is_true_true. tauto.
Qed.

#[local] Instance older_id_total {A} : Total (@older_id A).
Proof. intros a b. unfold older_id. lia. Qed.

#[local] Instance older_id_trans {A} : Transitive (@older_id A).
Proof. intros a b c. unfold older_id. lia. Qed.



(** X11.  With a positive limit, a page of [GET /] past the last one is
    answered with an empty list and the same totals, and a negative page
    number with a server error. *)
Theorem list_page_out_of_range q db query k :
  list_query castObjectId regex_i q db = Some query →
  0 < or_default (q_limit q) 10 →
  let D := find_posts query db in
  let L := or_default (q_limit q) 10 in
  (1 ≤ k → Z.of_nat (length D) ≤ (k - 1) * L →
     (list_posts castObjectId regex_i (with_page k q) db).1
     = Ok (mkListBody 0
             (mkPagination k (Math_ceil_div (Z.of_nat (length D)) L)
                           (Z.of_nat (length D))) []))
  ∧ (k < 0 → (list_posts castObjectId regex_i (with_page k q) db).1 = ServerError).
Proof.
  intros Hq HL D L.
  assert (Hpage : k ≠ 0 →
            (list_posts castObjectId regex_i (with_page k q) db).1
            = paginated k L (list_view db) D).
  { intros Hk. unfold list_posts.
    change (list_query castObjectId regex_i (with_page k q) db)
      with (list_query castObjectId regex_i q db).
    rewrite Hq. simpl. destruct k; done. }
  split.
  - intros Hk Hpast. rewrite Hpage by lia. unfold paginated, skip_limit.
    rewrite (proj2 (Z.ltb_ge _ _)) by nia.
    rewrite (proj2 (Z.eqb_neq _ _)) by lia.
    rewrite drop_ge by lia. by rewrite take_nil.
  - intros Hk. rewrite Hpage by lia. unfold paginated, skip_limit.
    by rewrite (proj2 (Z.ltb_lt _ _)) by nia.
Qed.

(** X12.  [GET /category/:categoryId] answers "not found" for an id that no
    category has; otherwise every post of the answer is a stored post of
    that category, and is listed without embedded comments. *)
Theorem by_category_lists_category categoryId cid page limit db :
  castObjectId categoryId = Some cid →
  (categories db !! cid = None →
     posts_by_category castObjectId categoryId page limit db
     = (NotFound "Category not found", db))
  ∧ (∀ body v,
       (posts_by_category castObjectId categoryId page limit db).1 = Ok body →
       v ∈ lb_posts body →
       is_Some (categories db !! cid) ∧ v_comments v = []
       ∧ ∃ p, posts db !! v_id v = Some p ∧ p_category p = cid).
Proof.
  intros Hcast. unfold posts_by_category. rewrite Hcast. split.
  - by intros ->.
  - intros body v. destruct (categories db !! cid) as [c|]; [|done]. simpl.
    intros Hb Hv. split; [done|].
    destruct (paginated_elem _ _ _ _ _ _ Hb Hv) as (kp & Hkp & Hview).
    apply find_posts_elem in Hkp as [Hkp Hquery].
    apply andb_true_iff in Hquery as [Hcat _].
    apply bool_decide_eq_true in Hcat.
    unfold category_view in Hview. simplify_option_eq. eauto.
Qed.

(** ** Repeated fetches *)

Lemma visits_snoc nows now id db :
  Sequences.visits castObjectId (nows ++ [now]) id db
  = (get_post castObjectId now id (Sequences.visits castObjectId nows id db)).2.
Proof. unfold Sequences.visits. by rewrite foldl_app. Qed.

(** X13.  Take a stored post whose view count is an integer from -2^53 on.
    Fetching it once at each of the times of a list raises the count by the
    length of the list, as long as that does not take it beyond 2^53, leaves
    its [updatedAt] at the last of the times, and changes no other field of
    it.  Once the count stands at 2^53, no number of fetches changes the
    store any more. *)
Theorem visits_count nows id i p db :
  castObjectId id = Some i → posts db !! i = Some p →
  (- 2 ^ 53 ≤ p_viewCount p →
   p_viewCount p + Z.of_nat (length nows) ≤ 2 ^ 53 →
   posts (Sequences.visits castObjectId nows id db) !! i
   = Some (mkPost (p_title p) (p_content p) (p_excerpt p) (p_author p)
                  (p_category p) (p_tags p) (p_featuredImage p) (p_status p)
                  (p_viewCount p + Z.of_nat (length nows)) (p_isFeatured p)
                  (p_createdAt p) (default (p_updatedAt p) (last nows))))
  ∧ (p_viewCount p = 2 ^ 53 →
     Sequences.visits castObjectId nows id db = db).
Proof.
  intros Hc Hp. split.
  - intros Hlo. induction nows as [|now nows IH] using rev_ind; intros Hhi.
    + simpl. rewrite Hp, Z.add_0_r. by destruct p.
    + rewrite length_app in Hhi. simpl in Hhi.
      specialize (IH ltac:(lia)).
      rewrite visits_snoc.
      rewrite (get_post_store_exact _ _ _ _ _ _ Hc IH) by (simpl; lia).
      simpl.
      rewrite lookup_insert_eq, last_snoc, length_app. simpl.
      unfold set_updatedAt, set_viewCount. simpl. do 2 f_equal. lia.
  - intros Hv. induction nows as [|now nows IH] using rev_ind; [done|].
    rewrite visits_snoc, IH. by apply get_post_at_limit with i p.
Qed.

End listings.
(** ** Creating, updating and deleting posts *)

Section posts_write.
Import Store Posts PostsWrite Shape.

Variable castObjectId : string → option ObjectId.
Variable regex_i : string → option (string → bool).

Lemma check_length_bounds lo hi v t :
  check_length lo hi (Some v) = Some (Some t) →
  t = trim v ∧ (lo ≤ String.length t)%nat
  ∧ ∀ h, hi = Some h → (String.length t ≤ h)%nat.
Proof.
  unfold check_length. case_match eqn:Hc; [|done]. intros [= <-].
  apply andb_true_iff in Hc as [Hlo Hhi]. apply Nat.leb_le in Hlo.
  split; [done|]. split; [done|]. intros h ->. by apply Nat.leb_le.
Qed.

Lemma new_post_fields now u b title content category post :
  new_post now u b title content category = Some post →
  p_title post = title ∧ p_content post = content
  ∧ p_author post = pr_id u ∧ p_category post = category
  ∧ p_viewCount post = 0 ∧ p_isFeatured post = false
  ∧ p_createdAt post = now ∧ p_updatedAt post = now
  ∧ (truthy (b_status b) = None → p_status post = published)
  ∧ (∀ e, p_excerpt post = Some e → (String.length e ≤ 200)%nat).
Proof.
  unfold new_post. intros H.
  destruct (match truthy (b_status b) with
            | Some s => status_of_string s
            | None => Some published
            end) as [st|] eqn:Hst; [|done].
  simpl in H. case_match eqn:He; [done|]. injection H as <-. simpl.
  repeat (split; [done|]). split.
  - intros Hnone. rewrite Hnone in Hst. by injection Hst as <-.
  - intros e Hex. rewrite Hex in He. apply Nat.ltb_ge in He. done.
Qed.

(** X14.  When [POST /] answers 201, the store holds one post more, under
    the id that its counter gave out and that the answer names: its author
    is the principal, its title and content are the trimmed ones of the body
    within the bounds of the validators, its category is a stored one, its
    view count is 0 and it is published unless the body names a status;
    every other post, and every comment, is as before.  When it answers 400
    the store is as before. *)
Theorem create_post_stores now u b db r db' :
  create_post castObjectId regex_i now u b db = (r, db') →
  (∀ v, r = Created v →
     ∃ post, posts db' !! nextId db = Some post
       ∧ v_id v = nextId db ∧ nextId db' = S (nextId db)
       ∧ p_author post = pr_id u
       ∧ p_title post = trim (default "" (b_title b))
       ∧ (5 ≤ String.length (p_title post) ≤ 100)%nat
       ∧ p_content post = trim (default "" (b_content b))
       ∧ (10 ≤ String.length (p_content post))%nat
       ∧ is_Some (categories db !! p_category post)
       ∧ p_viewCount post = 0 ∧ p_isFeatured post = false
       ∧ p_createdAt post = now
       ∧ (truthy (b_status b) = None → p_status post = published)
       ∧ (∀ j, j ≠ nextId db → posts db' !! j = posts db !! j)
       ∧ comments db' = comments db)
  ∧ (∀ msg, r = BadRequest msg → db' = db).
Proof.
  unfold create_post.
  destruct (check_length 5 _ _) as [[title|]|] eqn:Ht;
    try (intros [= <- <-]; split; [by intros ? [=] | done]).
  destruct (check_length 10 _ _) as [[content|]|] eqn:Hc;
    try (intros [= <- <-]; split; [by intros ? [=] | done]).
  destruct (truthy (b_category b)) as [category|];
    try (intros [= <- <-]; split; [by intros ? [=] | done]).
  destruct (castObjectId category) as [i|];
    try (intros [= <- <-]; split; by intros ? [=]).
  destruct (regex_i _) as [re|];
    try (intros [= <- <-]; split; by intros ? [=]).
  destruct (findOne_category i re db) as [[cid c]|] eqn:Hf;
    try (intros [= <- <-]; split; [by intros ? [=] | done]).
  destruct (new_post now u b title content cid) as [post|] eqn:Hn;
    try (intros [= <- <-]; split; by intros ? [=]).
  apply check_length_bounds in Ht as (Ht & Htlo & Hthi).
  apply check_length_bounds in Hc as (Hc & Hclo & _).
  apply new_post_fields in Hn
    as (Hp1 & Hp2 & Hp3 & Hp4 & Hp5 & Hp6 & Hp7 & Hp8 & Hp9 & _).
  apply findOne_category_Some in Hf as [Hcat _].
  destruct (create_view _ _ post) as [view|] eqn:Hv;
    intros [= <- <-]; (split; [|by intros ? [=]]); [|by intros ? [=]].
  intros v [= <-]. exists post. simpl. rewrite lookup_insert_eq.
  split; [done|]. split.
  { unfold create_view in Hv. by simplify_option_eq. }
  split; [done|]. split; [done|]. rewrite Hp1, Hp2, Hp4.
  split; [done|]. split; [split; [done|by apply Hthi]|].
  split; [done|]. split; [done|]. split; [by rewrite Hcat|].
  do 4 (split; [done|]). split; [|done].
  intros j Hj. by rewrite lookup_insert_ne.
Qed.

Lemma create_post_store now u b db :
  (create_post castObjectId regex_i now u b db).2 = db
  ∨ ∃ post, (create_post castObjectId regex_i now u b db).2
            = mkDB (<[nextId db := post]> (posts db)) (comments db) (users db)
                   (categories db) (S (nextId db)).
Proof.
  unfold create_post. repeat case_match; simpl; eauto.
Qed.

(** X15.  For its author or an admin, [DELETE /:id] answers 200 and removes
    the post and nothing else: the other posts stay, and so do all comments,
    those on the removed post included. *)
Theorem delete_post_keeps_comments u id post db :
  posts db !! id = Some post →
  p_author post = pr_id u ∨ pr_role u = role_admin →
  let db' := (delete_post (Some u) id db).2 in
  (delete_post (Some u) id db).1 = Ok ()
  ∧ posts db' !! id = None
  ∧ (∀ j, j ≠ id → posts db' !! j = posts db !! j)
  ∧ comments db' = comments db
  ∧ comments_of id db' = comments_of id db.
Proof.
  intros Hp Hallowed db'. subst db'.
  unfold delete_post, Guard.protect, Guard.isAuthor. rewrite Hp.
  assert (bool_decide (p_author post = pr_id u)
          || bool_decide (pr_role u = role_admin) = true) as ->.
  { apply orb_true_iff. destruct Hallowed; [left|right];
      by apply bool_decide_eq_true. }
  simpl. split; [done|]. split; [apply lookup_delete_eq|].
  split; [intros j Hj; by apply lookup_delete_ne|]. done.
Qed.

Lemma assign_fields_origin b title content category post post' :
  assign_fields b title content category post = Some post' →
  p_author post' = p_author post ∧ p_viewCount post' = p_viewCount post
  ∧ p_isFeatured post' = p_isFeatured post
  ∧ p_createdAt post' = p_createdAt post
  ∧ p_updatedAt post' = p_updatedAt post
  ∧ p_category post' = category.
Proof.
  unfold assign_fields. intros H.
  destruct (match truthy (b_status b) with
            | Some s => status_of_string s
            | None => Some (p_status post)
            end) as [st|]; [|done].
  simpl in H. case_match; [done|]. by injection H as <-.
Qed.

Lemma update_post_store now id b post db r db' :
  update_post castObjectId regex_i now id b post db = (r, db') →
  db' = db
  ∨ ∃ category post',
      resolve_category castObjectId regex_i b post db = inr category
      ∧ assign_fields b
          (default None (check_length 5 (Some 100%nat) (b_title b)))
          (default None (check_length 10 None (b_content b)))
          category post = Some post'
      ∧ post' ≠ post
      ∧ db' = with_posts (<[id := Posts.set_updatedAt now post']> (posts db)) db.
Proof.
  unfold update_post.
  destruct (check_length 5 _ _) as [title|]; [|intros [= <- <-]; by left].
  destruct (check_length 10 _ _) as [content|]; [|intros [= <- <-]; by left].
  destruct (resolve_category _ _ b post db) as [resp|category] eqn:Hr;
    [intros [= <- <-]; by left|].
  destruct (assign_fields _ _ _ _ _) as [post'|] eqn:Ha;
    [|intros [= <- <-]; by left].
  destruct (decide (post' = post)) as [->|Hne].
  - case_match; intros [= <- <-]; by left.
  - case_match; intros [= <- <-]; right; by exists category, post'.
Qed.

(** X16.  Whatever its answer, [PUT /:id] leaves the author, the view
    count, the featured flag and the creation time of every stored post as
    they were, changes no post other than the one named, and no comment. *)
Theorem put_post_frame now auth id b db j p :
  posts db !! j = Some p →
  let db' := (put_post castObjectId regex_i now auth id b db).2 in
  (∃ p', posts db' !! j = Some p'
         ∧ p_author p' = p_author p ∧ p_viewCount p' = p_viewCount p
         ∧ p_isFeatured p' = p_isFeatured p ∧ p_createdAt p' = p_createdAt p
         ∧ (j ≠ id → p' = p))
  ∧ comments db' = comments db ∧ nextId db' = nextId db.
Proof.
  intros Hp db'. subst db'.
  unfold put_post, Guard.protect, Guard.isAuthor.
  destruct auth as [u|]; [|by eauto 10].
  destruct (posts db !! id) as [post|] eqn:Hpost; [|by eauto 10].
  case_match; [|by eauto 10].
  destruct (update_post _ _ now id b post db) as [r db'] eqn:Hu.
  apply update_post_store in Hu
    as [->|(category & post' & _ & Ha & _ & ->)]; [by eauto 10|].
  simpl. split; [|done].
  destruct (decide (j = id)) as [->|Hne].
  - rewrite lookup_insert_eq. eexists. split; [done|].
    apply assign_fields_origin in Ha as (? & ? & ? & ? & _).
    simpl. simplify_eq. done.
  - rewrite lookup_insert_ne by done. eauto 10.
Qed.

Lemma assign_fields_again b title content category post post' now :
  assign_fields b title content category post = Some post' →
  assign_fields b title content category (Posts.set_updatedAt now post')
  = Some (Posts.set_updatedAt now post').
Proof.
  unfold assign_fields, Posts.set_updatedAt.
  destruct (truthy (b_status b)) as [s|]; [destruct (status_of_string s)|];
    simpl; try done;
    destruct (b_excerpt b) as [e|], (b_tags b), (b_featuredImage b),
             (truthy title), (truthy content); simpl;
    try destruct (200 <? String.length e)%nat eqn:He; try done;
    try (intros [= <-]; simpl; by rewrite ?He);
    destruct (p_excerpt post) as [e'|] eqn:Hex; simpl;
    try destruct (200 <? String.length e')%nat eqn:He'; try done;
    intros [= <-]; simpl; by rewrite ?He'.
Qed.

(** X17.  A [PUT /:id] that was answered 200, made again with the same
    body, is answered 200 with the same post and writes nothing: the store,
    [updatedAt] included, stays as the first request left it. *)
Theorem put_post_twice now now2 auth id b db v db' :
  put_post castObjectId regex_i now auth id b db = (Ok v, db') →
  put_post castObjectId regex_i now2 auth id b db' = (Ok v, db').
Proof.
  unfold put_post, Guard.protect, Guard.isAuthor.
  destruct auth as [u|]; [|done].
  destruct (posts db !! id) as [post|] eqn:Hpost; [|done].
  destruct (bool_decide _ || bool_decide _) eqn:Hallowed; [|done].
  unfold update_post.
  destruct (check_length 5 _ _) as [title|]; [|done].
  destruct (check_length 10 _ _) as [content|]; [|done].
  destruct (resolve_category _ _ b post db) as [resp|category] eqn:Hr.
  { intros [= -> <-]. by rewrite Hpost, Hallowed, Hr. }
  destruct (assign_fields _ _ _ _ post) as [post'|] eqn:Ha; [|done].
  pose proof (assign_fields_origin _ _ _ _ _ _ Ha) as (Hauth & _ & _ & _ & _ & Hcat).
  destruct (decide (post' = post)) as [->|Hne].
  - destruct (update_view db id post) as [v'|] eqn:Hv; [|done].
    intros [= <- <-]. rewrite Hpost, Hallowed, Hr, Ha.
    destruct (decide (post = post)); [|done]. by rewrite Hv.
  - destruct (update_view _ id _) as [v'|] eqn:Hv; [|done].
    intros [= <- <-]. simpl. rewrite lookup_insert_eq. simpl.
    rewrite Hauth, Hallowed.
    assert (resolve_category castObjectId regex_i b
              (Posts.set_updatedAt now post')
              (with_posts (<[id:=Posts.set_updatedAt now post']> (posts db)) db)
            = inr category) as ->.
    { destruct (truthy (b_category b)) as [s|] eqn:Hs.
      - rewrite <- Hr. unfold resolve_category. by rewrite Hs.
      - unfold resolve_category in *. rewrite Hs in *. simpl.
        injection Hr as <-. by rewrite Hcat. }
    rewrite (assign_fields_again _ _ _ _ _ _ now Ha).
    destruct (decide (Posts.set_updatedAt now post' = Posts.set_updatedAt now post'));
      [|done].
    by rewrite Hv.
Qed.

(** ** The requests of the posts router *)

Lemma get_post_origin now id db j p :
  posts db !! j = Some p →
  ∃ p', posts (get_post castObjectId now id db).2 !! j = Some p'
        ∧ same_origin p p'.
Proof.
  intros Hp.
  destruct (castObjectId id) as [i|] eqn:Hc;
    [|unfold get_post; rewrite Hc; exists p; by repeat split].
  destruct (posts db !! i) as [q|] eqn:Hq;
    [|unfold get_post; rewrite Hc, Hq; exists p; by repeat split].
  rewrite (get_post_store _ _ _ _ _ _ Hc Hq).
  destruct (decide _); [exists p; by repeat split|].
  simpl. destruct (decide (i = j)) as [->|Hne].
  - rewrite lookup_insert_eq. eexists. split; [done|].
    assert (q = p) as -> by congruence. repeat split; simpl.
    apply Number_succ_ge.
  - rewrite lookup_insert_ne by done. exists p. by repeat split.
Qed.

(** X18.  Take a store in which every post has an id below the counter, a
    post of it, and any request to the posts router.  After the request the
    post is there with the same author, creation time and featured flag and
    a view count that is not lower, unless the request is the deletion of
    that very post by its author or an admin; and the comments are the ones
    that were there. *)
Theorem posts_requests_keep_origin now auth r db j p :
  (∀ k, is_Some (posts db !! k) → (k < nextId db)%nat) →
  posts db !! j = Some p →
  let db' := handle castObjectId regex_i now auth r db in
  match posts db' !! j with
  | Some p' => same_origin p p'
  | None =>
      r = ReqDelete j
      ∧ ∃ u, auth = Some u ∧ (p_author p = pr_id u ∨ pr_role u = role_admin)
  end
  ∧ comments db' = comments db.
Proof.
  intros Hids Hp db'. subst db'.
  assert (Hrefl : same_origin p p) by (by repeat split).
  destruct r as [q|id|b|id b|id|cid page limit]; simpl.
  - rewrite list_posts_store, Hp. done.
  - destruct (get_post_origin now id db j p Hp) as (p' & -> & Ho).
    split; [done|]. unfold get_post. by repeat case_match.
  - unfold Guard.protect. destruct auth as [u|]; [|simpl; by rewrite Hp].
    assert (nextId db ≠ j) as Hj.
    { pose proof (Hids j ltac:(by rewrite Hp)). lia. }
    destruct (create_post_store now u b db) as [->|[post ->]];
      [by rewrite Hp|].
    simpl. by rewrite lookup_insert_ne, Hp.
  - unfold put_post, Guard.protect, Guard.isAuthor.
    destruct auth as [u|]; [|simpl; by rewrite Hp].
    destruct (posts db !! id) as [post|] eqn:Hpost; [|simpl; by rewrite Hp].
    destruct (bool_decide _ || bool_decide _); [|simpl; by rewrite Hp].
    destruct (update_post _ _ now id b post db) as [resp db'] eqn:Hu.
    apply update_post_store in Hu
      as [->|(category & post' & _ & Ha & _ & ->)]; [simpl; by rewrite Hp|].
    simpl. split; [|done].
    destruct (decide (id = j)) as [->|Hne].
    + rewrite lookup_insert_eq.
      apply assign_fields_origin in Ha as (Hau & Hvc & Hfe & Hcr & _).
      assert (post = p) as -> by congruence.
      repeat split; simpl; [done..|lia].
    + by rewrite lookup_insert_ne, Hp.
  - unfold delete_post, Guard.protect, Guard.isAuthor.
    destruct auth as [u|]; [|simpl; by rewrite Hp].
    destruct (posts db !! id) as [post|] eqn:Hpost; [|simpl; by rewrite Hp].
    destruct (bool_decide _ || bool_decide _) eqn:Hallowed;
      [|simpl; by rewrite Hp].
    simpl. destruct (decide (id = j)) as [->|Hne].
    + rewrite lookup_delete_eq. split; [|done]. split; [done|].
      exists u. split; [done|]. assert (post = p) as -> by congruence.
      apply orb_true_iff in Hallowed as [H|H]; [left|right];
        by apply bool_decide_eq_true in H.
    + by rewrite lookup_delete_ne, Hp.
  - rewrite posts_by_category_store, Hp. done.
Qed.

End posts_write.
(** ** The listings of comments *)

Section comment_listings.
Import Store CommentsRead.

Variable castObjectId : string → option ObjectId.

#[local] Instance comment_newer_first_total : Total comment_newer_first.
Proof. intros a b. unfold comment_newer_first. lia. Qed.

#[local] Instance comment_newer_first_trans : Transitive comment_newer_first.
Proof. intros a b c. unfold comment_newer_first. lia. Qed.

#[local] Instance comment_older_first_total : Total comment_older_first.
Proof. intros a b. unfold comment_older_first. lia. Qed.

#[local] Instance comment_older_first_trans : Transitive comment_older_first.
Proof. intros a b c. unfold comment_older_first. lia. Qed.

Lemma matching_comments_elem query db kc :
  kc ∈ matching_comments query db
  ↔ comments db !! kc.1 = Some kc.2 ∧ query kc = true.
Proof.
  unfold matching_comments.
  rewrite list_elem_of_filter, elem_of_map_to_list', Is_true_true. tauto.
Qed.

Lemma matching_comments_NoDup query db : NoDup (matching_comments query db).*1.
Proof.
  apply (sublist_NoDup _ (map_to_list (comments db)).*1).
  - apply NoDup_fst_map_to_list.
  - apply fmap_sublist, sublist_filter.
Qed.

Lemma populate_replies_elem db c rd :
  rd ∈ populate_replies db c
  ↔ rd.1 ∈ cm_replies c ∧ comments db !! rd.1 = Some rd.2
    ∧ cm_isApproved rd.2 = true.
Proof.
  unfold populate_replies. rewrite list_elem_of_omap. split.
  - intros (r & Hr & Hf). destruct (comments db !! r) as [d|] eqn:Hd; [|done].
    simpl in Hf. destruct (cm_isApproved d) eqn:Ha; [|done].
    injection Hf as <-. done.
  - intros (Hr & Hd & Ha). exists rd.1. split; [done|].
    rewrite Hd. simpl. rewrite Ha. by destruct rd.
Qed.

Lemma listing_item_fields db kc item :
  listing_item db kc = Some item →
  ci_id item = kc.1 ∧ ci_text item = cm_text kc.2
  ∧ ci_createdAt item = cm_createdAt kc.2
  ∧ ci_likes item = Z.of_nat (length (cm_likes kc.2))
  ∧ ci_replies item = Some (Z.of_nat (length (populate_replies db kc.2))).
Proof. unfold listing_item. intros; simplify_option_eq. done. Qed.

Lemma reply_item_fields db kc item :
  reply_item db kc = Some item →
  ci_id item = kc.1 ∧ ci_text item = cm_text kc.2
  ∧ ci_createdAt item = cm_createdAt kc.2.
Proof. unfold reply_item. intros; simplify_option_eq. done. Qed.

Lemma comments_for_post_found postId page limit db body :
  (comments_for_post castObjectId postId page limit db).1 = Ok body →
  ∃ pid found,
    castObjectId postId = Some pid ∧ is_Some (posts db !! pid)
    ∧ skip_limit ((or_default page 1 - 1) * or_default limit 10)
                 (or_default limit 10)
                 (merge_sort comment_newer_first
                    (matching_comments (top_level_approved pid) db))
      = Some found
    ∧ mapM (listing_item db) found = Some (cb_comments body)
    ∧ cb_count body = Z.of_nat (length found)
    ∧ pg_total (cb_pagination body)
      = Z.of_nat (length (matching_comments (top_level_approved pid) db)).
Proof.
  unfold comments_for_post.
  destruct (castObjectId postId) as [pid|]; [|done].
  destruct (posts db !! pid) eqn:Hp; [|done].
  destruct (skip_limit _ _ _) as [found|] eqn:Hs; [|done].
  destruct (mapM _ found) as [items|] eqn:Hm; [|done].
  intros [= <-]. exists pid, found. simpl.
  rewrite (Permutation_length (merge_sort_Permutation _ _)). eauto 10.
Qed.

(** X19.  [GET /post/:postId] answers "not found" when the post is not
    stored.  When it answers 200, every comment of the answer is a stored,
    approved, top-level comment on that post; the comments are in order of
    creation, newest first, no more of them than the limit says; [total]
    counts all the approved top-level comments on the post; and the number
    of replies that a comment shows is the number of ids in its [replies]
    array that name a stored, approved comment. *)
Theorem comments_listing_top_level postId pid page limit db :
  castObjectId postId = Some pid →
  (posts db !! pid = None →
     comments_for_post castObjectId postId page limit db
     = (NotFound "Post not found", db))
  ∧ (∀ body,
       (comments_for_post castObjectId postId page limit db).1 = Ok body →
       (∀ item, item ∈ cb_comments body →
          ∃ c, comments db !! ci_id item = Some c
               ∧ cm_post c = pid ∧ cm_parentComment c = None
               ∧ cm_isApproved c = true ∧ ci_text item = cm_text c
               ∧ ci_replies item
                 = Some (Z.of_nat (length (filter
                      (λ r, cm_isApproved <$> comments db !! r = Some true)
                      (cm_replies c)))))
       ∧ (∀ i j a b, (i < j)%nat →
            cb_comments body !! i = Some a → cb_comments body !! j = Some b →
            ci_createdAt b ≤ ci_createdAt a)
       ∧ (length (cb_comments body) ≤ Z.abs_nat (or_default limit 10))%nat
       ∧ pg_total (cb_pagination body)
         = Z.of_nat (length (filter
              (λ kc : nat * Comment,
                 cm_post kc.2 = pid ∧ cm_parentComment kc.2 = None
                 ∧ cm_isApproved kc.2 = true)
              (map_to_list (comments db))))).
Proof.
  intros Hcast. split.
  - intros Hp. unfold comments_for_post. by rewrite Hcast, Hp.
  - intros body Hb.
    apply comments_for_post_found in Hb
      as (pid' & found & Hcast' & _ & Hskip & Hitems & _ & Htotal).
    assert (pid' = pid) as -> by congruence.
    apply mapM_Some_1 in Hitems.
    pose proof (Forall2_length _ _ _ Hitems) as Hlen.
    split; [|split; [|split]].
    + intros item Hitem.
      apply list_elem_of_lookup in Hitem as [i Hi].
      destruct (Forall2_lookup_r _ _ _ _ _ Hitems Hi) as (kc & Hkc & Hv).
      apply list_elem_of_lookup_2, (skip_limit_subseteq _ _ _ _ Hskip) in Hkc.
      rewrite merge_sort_Permutation in Hkc.
      apply matching_comments_elem in Hkc as [Hstored Hq].
      unfold top_level_approved in Hq.
      apply andb_true_iff in Hq as [[Hp Hpar]%andb_true_iff Happ].
      apply bool_decide_eq_true in Hp, Hpar.
      apply listing_item_fields in Hv as (-> & -> & _ & _ & ->).
      exists kc.2. repeat (split; [done|]). do 2 f_equal.
      unfold populate_replies. clear. induction (cm_replies kc.2) as [|r l IH];
        [done|].
      csimpl. destruct (comments db !! r) as [d|] eqn:Hd; simpl.
      * destruct (cm_isApproved d) eqn:Ha.
        -- rewrite filter_cons_True by (by rewrite Hd; simpl; rewrite Ha).
           simpl. by rewrite IH.
        -- rewrite filter_cons_False; [done|].
           rewrite Hd. simpl. rewrite Ha. done.
      * rewrite filter_cons_False; [done|]. by rewrite Hd.
    + intros i j a b Hij Ha Hb.
      destruct (Forall2_lookup_r _ _ _ _ _ Hitems Ha) as (ka & Hka & Hva).
      destruct (Forall2_lookup_r _ _ _ _ _ Hitems Hb) as (kb & Hkb & Hvb).
      apply listing_item_fields in Hva as (_ & _ & -> & _).
      apply listing_item_fields in Hvb as (_ & _ & -> & _).
      assert (StronglySorted comment_newer_first found) as Hs.
      { eapply skip_limit_sorted; [|exact Hskip].
        apply StronglySorted_merge_sort; apply _. }
      exact (StronglySorted_lookup _ _ _ _ _ _ Hs Hij Hka Hkb).
    + rewrite <- Hlen. eapply skip_limit_length; [|exact Hskip].
      by apply or_default_nonzero.
    + rewrite Htotal. f_equal. unfold matching_comments. f_equal.
      apply list_filter_iff. intros kc. unfold top_level_approved.
      rewrite Is_true_true, !andb_true_iff, !bool_decide_eq_true. tauto.
Qed.

Lemma replies_of_found id db n items :
  (replies_of castObjectId id db).1 = Ok (n, items) →
  ∃ cid, castObjectId id = Some cid ∧ is_Some (comments db !! cid)
         ∧ mapM (reply_item db)
                (merge_sort comment_older_first
                   (matching_comments (approved_reply_to cid) db))
           = Some items
         ∧ n = Z.of_nat (length items).
Proof.
  unfold replies_of.
  destruct (castObjectId id) as [cid|]; [|done].
  destruct (comments db !! cid) eqn:Hc; [|done].
  destruct (mapM _ _) as [items'|] eqn:Hm; [|done].
  intros [= <- <-]. exists cid. split; [done|]. split; [done|].
  split; [done|]. apply mapM_Some_1, Forall2_length in Hm. by rewrite Hm.
Qed.

Lemma mapM_ids {A B} (f : A → option B) (ia : A → nat) (ib : B → nat) l k :
  (∀ x y, f x = Some y → ib y = ia x) →
  mapM f l = Some k → ib <$> k = ia <$> l.
Proof.
  intros Hf HF%mapM_Some_1.
  induction HF as [|x y l k Hxy _ IH]; [done|].
  csimpl. by rewrite IH, (Hf x y Hxy).
Qed.

(** X20.  [GET /:id/replies] answers "not found" when the comment is not
    stored.  When it answers 200, the replies of the answer are exactly the
    stored, approved comments whose parent is that comment, each once, in
    order of creation, oldest first, and [count] is their number; whether
    the comment itself is approved plays no part. *)
Theorem replies_listing id cid db :
  castObjectId id = Some cid →
  (comments db !! cid = None →
     replies_of castObjectId id db = (NotFound "Comment not found", db))
  ∧ (∀ n items,
       (replies_of castObjectId id db).1 = Ok (n, items) →
       (∀ k, k ∈ ci_id <$> items
             ↔ ∃ c, comments db !! k = Some c
                    ∧ cm_parentComment c = Some cid ∧ cm_isApproved c = true)
       ∧ NoDup (ci_id <$> items)
       ∧ (∀ i j a b, (i < j)%nat → items !! i = Some a → items !! j = Some b →
            ci_createdAt a ≤ ci_createdAt b)
       ∧ n = Z.of_nat (length items)).
Proof.
  intros Hcast. split.
  - intros Hc. unfold replies_of. by rewrite Hcast, Hc.
  - intros n items (cid' & Hcast' & _ & Hitems & Hn)%replies_of_found.
    assert (cid' = cid) as -> by congruence.
    pose proof (mapM_ids _ fst ci_id _ _
                  (λ x y H, proj1 (reply_item_fields db x y H)) Hitems) as Hids.
    split; [|split; [|split]]; [| | |done].
    + intros k. rewrite Hids, merge_sort_Permutation, list_elem_of_fmap. split.
      * intros (kc & -> & Hkc). apply matching_comments_elem in Hkc as [Hs Hq].
        unfold approved_reply_to in Hq. apply andb_true_iff in Hq as [Hp Ha].
        apply bool_decide_eq_true in Hp. eauto.
      * intros (c & Hc & Hp & Ha). exists (k, c). split; [done|].
        apply matching_comments_elem. split; [done|].
        unfold approved_reply_to. simpl. rewrite Ha, andb_true_r.
        by apply bool_decide_eq_true.
    + rewrite Hids, merge_sort_Permutation. apply matching_comments_NoDup.
    + intros i j a b Hij Ha Hb. apply mapM_Some_1 in Hitems.
      destruct (Forall2_lookup_r _ _ _ _ _ Hitems Ha) as (ka & Hka & Hva).
      destruct (Forall2_lookup_r _ _ _ _ _ Hitems Hb) as (kb & Hkb & Hvb).
      apply reply_item_fields in Hva as (_ & _ & ->).
      apply reply_item_fields in Hvb as (_ & _ & ->).
      assert (StronglySorted comment_older_first
                (merge_sort comment_older_first
                   (matching_comments (approved_reply_to cid) db))) as Hs
        by (apply StronglySorted_merge_sort; apply _).
      exact (StronglySorted_lookup _ _ _ _ _ _ Hs Hij Hka Hkb).
Qed.

(** X21.  Once a comment is deleted, [GET /:id/replies] for it answers "not
    found", although its replies are still stored; once a post is deleted by
    its author or an admin, the listing of its comments answers "not found"
    and a new comment on it is refused ("not found", or "bad request" when
    its text is not valid), although its comments are still stored. *)
Theorem deleted_parents_hide_children :
  (∀ now id s c db,
     comments db !! id = Some c → castObjectId s = Some id →
     let db' := (Comments.delete_comment now id c db).2 in
     replies_of castObjectId s db' = (NotFound "Comment not found", db')
     ∧ ∀ j d, j ≠ id → comments db !! j = Some d →
              cm_parentComment d = Some id →
              ∃ d', comments db' !! j = Some d'
                    ∧ cm_parentComment d' = Some id)
  ∧ (∀ now u v id s post page limit b db,
       posts db !! id = Some post → castObjectId s = Some id →
       p_author post = pr_id u ∨ pr_role u = role_admin →
       Comments.cb_post b = id →
       let db' := (PostsWrite.delete_post (Some u) id db).2 in
       comments_for_post castObjectId s page limit db'
       = (NotFound "Post not found", db')
       ∧ (Comments.create_comment now v b db' = (NotFound "Post not found", db')
          ∨ Comments.create_comment now v b db'
            = (BadRequest "validation failed", db'))
       ∧ comments db' = comments db).
Proof.
  split.
  - intros now id s c db Hc Hcast db'. split.
    + unfold replies_of. rewrite Hcast.
      assert (comments db' !! id = None) as ->; [|done].
      subst db'. unfold Comments.delete_comment. simpl. apply lookup_delete_eq.
    + intros j d Hj Hd Hpar. subst db'. unfold Comments.delete_comment. simpl.
      rewrite lookup_delete_ne by done.
      destruct (cm_parentComment c) as [parent|]; [|eauto].
      rewrite findByIdAndUpdate_lookup, Hd. case_decide; simpl; eauto.
  - intros now u v id s post page limit b db Hp Hcast Hallowed Hb db'.
    assert (posts db' !! id = None ∧ comments db' = comments db) as [Hgone Hcm].
    { subst db'. unfold PostsWrite.delete_post, Guard.protect, Guard.isAuthor.
      rewrite Hp.
      assert (bool_decide (p_author post = pr_id u)
              || bool_decide (pr_role u = role_admin) = true) as ->.
      { apply orb_true_iff. destruct Hallowed; [left|right];
          by apply bool_decide_eq_true. }
      simpl. split; [apply lookup_delete_eq|done]. }
    split; [|split; [|done]].
    + unfold comments_for_post. by rewrite Hcast, Hgone.
    + unfold Comments.create_comment. rewrite Hb, Hgone.
      destruct (check_length _ _ _) as [[t|]|]; by eauto.
Qed.

End comment_listings.
(** ** What a request to the comments router can do to a comment *)

Section comment_footprint.
Import Store Comments Shape.

Lemma save_lookup now id old new db j :
  comments (save now id old new db).2 !! j
  = if decide (new = old) then comments db !! j
    else if decide (id = j) then Some (Comments.set_updatedAt now new)
    else comments db !! j.
Proof.
  unfold save. case_decide; [done|]. simpl. rewrite lookup_insert.
  by case_decide.
Qed.

Lemma update_comment_lookup now id text c db j :
  comments (update_comment now id text c db).2 !! j = comments db !! j
  ∨ (id = j ∧ ∃ t, comments (update_comment now id text c db).2 !! j
                   = Some (Comments.set_updatedAt now
                             (set_isEdited true (set_text t c)))).
Proof.
  unfold update_comment.
  destruct (check_length _ _ _) as [[t|]|]; [|by left..].
  pose proof (save_lookup now id c (set_isEdited true (set_text t c)) db j) as Hs.
  destruct (save _ _ _ _ _) as [saved db'] eqn:Hsave. simpl in Hs.
  assert (comments (match comment_view db' id saved with
                    | Some v => (Ok v, db')
                    | None => (ServerError, db')
                    end).2 = comments db') as ->
    by (by destruct (comment_view db' id saved)).
  rewrite Hs. repeat case_decide; eauto.
Qed.

Lemma create_comment_lookup now u b db j :
  j ≠ nextId db →
  comments (create_comment now u b db).2 !! j = comments db !! j
  ∨ (cb_parentComment b = Some j
     ∧ ∃ c, comments db !! j = Some c
            ∧ comments (create_comment now u b db).2 !! j
              = Some (Comments.set_updatedAt now
                        (set_replies (cm_replies c ++ [nextId db]) c))).
Proof.
  intros Hj. unfold create_comment.
  destruct (check_length _ _ _) as [[text|]|]; [|by left..].
  destruct (posts db !! cb_post b); [|by left].
  destruct (parent_missing _ _); [by left|].
  set (comment := mkComment text _ _ _ _ _ _ _ _ _).
  set (db1 := mkDB _ _ _ _ _).
  set (db2 := match cb_parentComment b with Some _ => _ | None => _ end).
  assert (comments (match comment_view db2 (nextId db) comment with
                    | Some v => (Created v, db2)
                    | None => (ServerError, db2)
                    end).2 = comments db2) as ->
    by (by destruct (comment_view db2 (nextId db) comment)).
  subst db2. destruct (cb_parentComment b) as [parent|].
  - rewrite findByIdAndUpdate_lookup. subst db1. simpl.
    rewrite lookup_insert_ne by done.
    case_decide as Hp; [|by left]. subst parent.
    destruct (comments db !! j) as [c|] eqn:Hc; [|by left].
    right. split; [done|]. exists c. done.
  - subst db1. simpl. rewrite lookup_insert_ne by done. by left.
Qed.

Lemma delete_comment_lookup now id c db j :
  comments (delete_comment now id c db).2 !! j
  = if decide (id = j) then None
    else if decide (cm_parentComment c = Some j)
    then (λ d, Comments.set_updatedAt now
                 (set_replies (filter (λ r, r ≠ id) (cm_replies d)) d))
           <$> comments db !! j
    else comments db !! j.
Proof.
  unfold delete_comment. simpl. rewrite lookup_delete.
  case_decide; [done|].
  destruct (cm_parentComment c) as [parent|]; [|by rewrite decide_False].
  rewrite findByIdAndUpdate_lookup.
  destruct (decide (parent = j)) as [->|Hne].
  - by rewrite decide_True.
  - by rewrite decide_False by congruence.
Qed.

Lemma like_comment_lookup now u id db j :
  comments (like_comment now u id db).2 !! j = comments db !! j
  ∨ (id = j ∧ ∃ c, comments db !! j = Some c
       ∧ comments (like_comment now u id db).2 !! j
         = Some (Comments.set_updatedAt now
                   (set_likes (toggle_like (pr_id u) (cm_likes c)) c))).
Proof.
  unfold like_comment. destruct (comments db !! id) as [c|] eqn:Hc; [|by left].
  pose proof (save_lookup now id c
                (set_likes (toggle_like (pr_id u) (cm_likes c)) c) db j) as Hs.
  destruct (save _ _ _ _ _) as [saved db']. simpl in *. rewrite Hs.
  repeat case_decide; subst; eauto.
Qed.

Lemma approve_comment_lookup now id a db j :
  comments (approve_comment now id a db).2 !! j = comments db !! j
  ∨ (id = j ∧ ∃ c, comments db !! j = Some c
       ∧ comments (approve_comment now id a db).2 !! j
         = Some (Comments.set_updatedAt now (set_isApproved a c))).
Proof.
  unfold approve_comment. destruct (comments db !! id) as [c|] eqn:Hc; [|by left].
  pose proof (save_lookup now id c (set_isApproved a c) db j) as Hs.
  destruct (save _ _ _ _ _) as [saved db']. simpl in *. rewrite Hs.
  repeat case_decide; subst; eauto.
Qed.

(** What a request to the comments router can do to a stored comment [c]
    whose id is not the next one: leave it as it is; or, when the request
    creates or deletes a reply to it, give it another [replies] array; or,
    for an authenticated principal, toggle that principal's like; or, for
    an admin, set its approval; or, for its author or an admin, replace its
    text and mark it as edited, or delete it. *)
Lemma handle_footprint now auth r db j c :
  comments db !! j = Some c → j ≠ nextId db →
  let after := comments (handle now auth r db) !! j in
  after = Some c
  ∨ (∃ l, after = Some (Comments.set_updatedAt now (set_replies l c)))
  ∨ ∃ u, auth = Some u
      ∧ ((r = ReqLike j
          ∧ after = Some (Comments.set_updatedAt now
                            (set_likes (toggle_like (pr_id u) (cm_likes c)) c)))
         ∨ (pr_role u = role_admin
            ∧ ∃ a, r = ReqApprove j a
                   ∧ after = Some (Comments.set_updatedAt now (set_isApproved a c)))
         ∨ ((cm_author c = pr_id u ∨ pr_role u = role_admin)
            ∧ ((∃ text t, r = ReqUpdate j text
                  ∧ after = Some (Comments.set_updatedAt now
                                    (set_isEdited true (set_text t c))))
               ∨ (r = ReqDelete j ∧ after = None)))).
Proof.
  intros Hc Hj after. subst after.
  destruct auth as [u|];
    [|left; destruct r; simpl; unfold drop_body, Guard.protect; simpl; done].
  assert (Hallowed : ∀ d : Comment,
            bool_decide (cm_author d = pr_id u)
            || bool_decide (pr_role u = role_admin) = true →
            cm_author d = pr_id u ∨ pr_role u = role_admin).
  { intros d [H|H]%orb_true_iff; [left|right]; by apply bool_decide_eq_true in H. }
  destruct r as [b|id text|id|id|id a]; simpl;
    unfold drop_body, Guard.protect, Guard.isAuthor, Guard.authorize.
  - destruct (create_comment_lookup now u b db j Hj) as [->|(_ & c' & Hc' & ->)];
      [by left|].
    right; left. assert (c' = c) as -> by congruence. eauto.
  - destruct (comments db !! id) as [d|] eqn:Hd; [|by left].
    destruct (bool_decide _ || bool_decide _) eqn:Ha; [|by left].
    destruct (update_comment_lookup now id text d db j) as [->|(-> & t & ->)];
      [by left|].
    assert (d = c) as -> by congruence.
    right; right. exists u. split; [done|]. right; right.
    split; [by apply Hallowed|]. left. eauto.
  - destruct (comments db !! id) as [d|] eqn:Hd; [|by left].
    destruct (bool_decide _ || bool_decide _) eqn:Ha; [|by left].
    rewrite delete_comment_lookup.
    destruct (decide (id = j)) as [->|Hne].
    + assert (d = c) as -> by congruence.
      right; right. exists u. split; [done|]. right; right.
      split; [by apply Hallowed|]. by right.
    + destruct (decide (cm_parentComment d = Some j)); [|by left].
      rewrite Hc. right; left. simpl. eauto.
  - destruct (like_comment_lookup now u id db j) as [->|(-> & c' & Hc' & ->)];
      [by left|].
    assert (c' = c) as -> by congruence.
    right; right. exists u. split; [done|]. by left.
  - destruct (bool_decide (pr_role u ∈ [role_admin])) eqn:Hadm;
      [|left; simpl; done].
    apply bool_decide_eq_true, list_elem_of_singleton in Hadm.
    destruct (approve_comment_lookup now id a db j) as [->|(-> & c' & Hc' & ->)];
      [by left|].
    assert (c' = c) as -> by congruence.
    right; right. exists u. split; [done|]. right; left. eauto.
Qed.

Lemma handle_unauthenticated now r db : handle now None r db = db.
Proof. by destruct r. Qed.

(** X22.  No request to the comments router moves a stored comment to
    another post, changes its author, its parent or its creation time, or
    resets its edited flag; and a stored comment disappears only through the
    deletion of that very comment by its author or an admin. *)
Theorem comment_identity_kept now auth r db j c :
  comments db !! j = Some c → j ≠ nextId db →
  match comments (handle now auth r db) !! j with
  | Some c' => same_identity c c' ∧ cm_parentComment c' = cm_parentComment c
  | None =>
      r = ReqDelete j
      ∧ ∃ u, auth = Some u ∧ (cm_author c = pr_id u ∨ pr_role u = role_admin)
  end.
Proof.
  intros Hc Hj.
  destruct (handle_footprint now auth r db j c Hc Hj)
    as [->|[[l ->]|(u & -> & [[_ ->]|[(_ & a & _ & ->)
                                     |(Hu & [(text & t & _ & ->)|[-> ->]])]])]];
    try (by repeat split).
  split; [done|]. eauto.
Qed.

(** X23.  A request made without a principal leaves every stored comment as
    it is.  A request of a principal who is neither the author of a stored
    comment nor an admin leaves the comment stored, with its text, its
    edited flag and its approval as they were. *)
Theorem comment_protected_from_others now auth r db j c :
  comments db !! j = Some c → j ≠ nextId db →
  (∀ u, auth = Some u → cm_author c ≠ pr_id u ∧ pr_role u ≠ role_admin) →
  ∃ c', comments (handle now auth r db) !! j = Some c'
        ∧ same_content c c' ∧ (auth = None → c' = c).
Proof.
  intros Hc Hj Hother.
  destruct auth as [v|]; [|exists c; rewrite handle_unauthenticated;
                            by repeat split].
  destruct (handle_footprint now (Some v) r db j c Hc Hj)
    as [->|[[l ->]|(u & [= ->] & Hcases)]].
  - exists c. by repeat split.
  - eexists. split; [done|]. by repeat split.
  - destruct (Hother u eq_refl) as [Hna Hnadm].
    destruct Hcases as [[_ ->]|[(Hadm & _)|([?|?] & _)]]; try done.
    eexists. split; [done|]. split; [by repeat split|done].
Qed.

End comment_footprint.
(** ** The [replies] arrays and the parent links *)

Section replies_arrays.
Import Store Comments Shape Tree.

Lemma tree_of_lookup db j : tree_of db !! j = links <$> comments db !! j.
Proof. unfold tree_of. apply lookup_fmap. Qed.

Lemma tree_of_Some db db' j c' :
  tree_of db' = tree_of db → comments db' !! j = Some c' →
  ∃ c, comments db !! j = Some c
       ∧ cm_parentComment c = cm_parentComment c'
       ∧ cm_replies c = cm_replies c'.
Proof.
  intros Ht Hc'. pose proof (tree_of_lookup db' j) as H'.
  rewrite Ht, tree_of_lookup, Hc' in H'.
  destruct (comments db !! j) as [c|]; [|done].
  exists c. simpl in H'. injection H' as H1 H2. done.
Qed.

Lemma consistent_tree db db' :
  tree_of db' = tree_of db → replies_consistent db → replies_consistent db'.
Proof.
  intros Ht (H1 & H2 & H3). split; [|split].
  - intros p c' r Hc' Hr.
    destruct (tree_of_Some _ _ _ _ Ht Hc') as (c & Hc & _ & Hrep).
    rewrite <- Hrep in Hr. destruct (H1 p c r Hc Hr) as (d & Hd & Hpar).
    destruct (tree_of_Some _ _ _ _ (eq_sym Ht) Hd) as (d' & Hd' & Hpar' & _).
    exists d'. split; [done|]. congruence.
  - intros r d' p c' Hd' Hpar Hc'.
    destruct (tree_of_Some _ _ _ _ Ht Hd') as (d & Hd & Hp & _).
    destruct (tree_of_Some _ _ _ _ Ht Hc') as (c & Hc & _ & Hrep).
    rewrite <- Hrep. apply (H2 r d p c); congruence.
  - intros p c' Hc'.
    destruct (tree_of_Some _ _ _ _ Ht Hc') as (c & Hc & _ & Hrep).
    rewrite <- Hrep. by apply (H3 p c).
Qed.

Lemma save_tree now id old new db :
  comments db !! id = Some old → links new = links old →
  tree_of (save now id old new db).2 = tree_of db.
Proof.
  intros Hold Hl. unfold save. case_decide; [done|]. simpl.
  unfold tree_of. simpl. rewrite fmap_insert. apply insert_id.
  rewrite lookup_fmap, Hold. simpl. f_equal. exact (eq_sym Hl).
Qed.

Lemma update_comment_tree now id text c db :
  comments db !! id = Some c →
  tree_of (update_comment now id text c db).2 = tree_of db.
Proof.
  intros Hc. unfold update_comment.
  destruct (check_length _ _ _) as [[t|]|]; try done.
  pose proof (save_tree now id c (set_isEdited true (set_text t c)) db Hc eq_refl)
    as Hs.
  destruct (save _ _ _ _ _) as [saved db']. simpl in Hs.
  by destruct (comment_view db' id saved).
Qed.

Lemma like_comment_tree now u id db :
  tree_of (like_comment now u id db).2 = tree_of db.
Proof.
  unfold like_comment. destruct (comments db !! id) as [c|] eqn:Hc; [|done].
  pose proof (save_tree now id c
                (set_likes (toggle_like (pr_id u) (cm_likes c)) c) db Hc eq_refl)
    as Hs.
  by destruct (save _ _ _ _ _) as [saved db'].
Qed.

Lemma approve_comment_tree now id a db :
  tree_of (approve_comment now id a db).2 = tree_of db.
Proof.
  unfold approve_comment. destruct (comments db !! id) as [c|] eqn:Hc; [|done].
  pose proof (save_tree now id c (set_isApproved a c) db Hc eq_refl) as Hs.
  by destruct (save _ _ _ _ _) as [saved db'].
Qed.

(** The comments after a creation that went through. *)
Lemma create_comment_shape now u b db :
  parents_older db →
  (create_comment now u b db).2 = db
  ∨ ∃ text,
      parent_missing (cb_parentComment b) db = false
      ∧ ∀ j, comments (create_comment now u b db).2 !! j
             = if decide (cb_parentComment b = Some j)
               then (λ c, Comments.set_updatedAt now
                            (set_replies (cm_replies c ++ [nextId db]) c))
                      <$> comments db !! j
               else if decide (j = nextId db)
               then Some (mkComment text (cb_post b) (pr_id u)
                                    (cb_parentComment b) [] [] true false now now)
               else comments db !! j.
Proof.
  intros Hwn. unfold create_comment.
  destruct (check_length _ _ _) as [[text|]|]; [|by left..].
  destruct (posts db !! cb_post b); [|by left].
  destruct (parent_missing _ _) eqn:Hmiss; [by left|].
  right. exists text. split; [done|]. intros j.
  set (comment := mkComment text _ _ _ _ _ _ _ _ _).
  set (db1 := mkDB _ _ _ _ _).
  set (db2 := match cb_parentComment b with Some _ => _ | None => _ end).
  assert (comments (match comment_view db2 (nextId db) comment with
                    | Some v => (Created v, db2)
                    | None => (ServerError, db2)
                    end).2 = comments db2) as ->
    by (by destruct (comment_view db2 (nextId db) comment)).
  subst db2. destruct (cb_parentComment b) as [parent|] eqn:Hb.
  - rewrite findByIdAndUpdate_lookup. subst db1. simpl.
    unfold parent_missing in Hmiss.
    destruct (comments db !! parent) as [cp|] eqn:Hcp; [|done].
    assert (parent ≠ nextId db) as Hne.
    { destruct (Hwn parent cp Hcp) as [? _]. lia. }
    destruct (decide (parent = j)) as [->|Hpj].
    + rewrite decide_True by done. by rewrite lookup_insert_ne.
    + rewrite decide_False by congruence. rewrite lookup_insert.
      repeat case_decide; by subst.
  - subst db1. simpl. rewrite lookup_insert. repeat case_decide; by subst.
Qed.

Lemma create_comment_consistent now u b db :
  parents_older db → replies_consistent db →
  replies_consistent (create_comment now u b db).2.
Proof.
  intros Hwn Hcons.
  destruct (create_comment_shape now u b db Hwn) as [->|(text & Hmiss & Hlook)];
    [done|].
  destruct Hcons as (H1 & H2 & H3).
  set (n := nextId db) in *.
  assert (Hold : ∀ j c, comments db !! j = Some c → j ≠ n).
  { intros j c Hc. destruct (Hwn j c Hc) as [? _]. subst n. lia. }
  assert (Hself : ∀ j c, comments db !! j = Some c → cm_parentComment c ≠ Some j).
  { intros j c Hc Hp. destruct (Hwn j c Hc) as [_ Hlt]. specialize (Hlt j Hp). lia. }
  assert (Hpar : ∀ j c p, comments db !! j = Some c → cm_parentComment c = Some p →
                          p ≠ n).
  { intros j c p Hc Hp. destruct (Hwn j c Hc) as [? Hlt]. specialize (Hlt p Hp).
    subst n. lia. }
  assert (Hbp : ∀ p, cb_parentComment b = Some p → is_Some (comments db !! p)).
  { intros p Hp. unfold parent_missing in Hmiss. rewrite Hp in Hmiss.
    by destruct (comments db !! p). }
  split; [|split].
  - intros q c' r. rewrite Hlook. case_decide as Hq.
    + destruct (comments db !! q) as [cq|] eqn:Hcq; [|done]. simpl.
      intros [= <-]. simpl. intros [Hr| ->%list_elem_of_singleton]%elem_of_app.
      * destruct (H1 q cq r Hcq Hr) as (d & Hd & Hdp).
        exists d. split; [|done]. rewrite Hlook.
        rewrite decide_False.
        -- rewrite decide_False by (by eapply Hold). done.
        -- rewrite Hq. intros [= ->]. by eapply Hself.
      * eexists. rewrite Hlook. rewrite decide_False.
        -- rewrite decide_True by done. split; [done|]. done.
        -- rewrite Hq. intros [= ->]. by eapply Hold.
    + case_decide as Hn; [by intros [= <-] ?%elem_of_nil|].
      intros Hc' Hr. destruct (H1 q c' r Hc' Hr) as (d & Hd & Hdp).
      rewrite Hlook. rewrite Hd. case_decide; simpl.
      * eexists. split; [done|]. done.
      * rewrite decide_False by (by eapply Hold). eauto.
  - intros r d' q c'. rewrite !Hlook. case_decide as Hr.
    + destruct (comments db !! r) as [dr|] eqn:Hdr; [|done]. simpl.
      intros [= <-]. simpl. intros Hp.
      rewrite decide_False by (rewrite Hr; intros [= ->]; by eapply Hself).
      rewrite decide_False by (by eapply Hpar).
      intros Hq. by eapply H2.
    + case_decide as Hn.
      * intros [= <-]. simpl. intros Hp. rewrite decide_True by done.
        destruct (Hbp q Hp) as [cq ->]. simpl. intros [= <-]. simpl.
        apply elem_of_app. right. subst r. by left.
      * intros Hd Hp. case_decide as Hq.
        -- destruct (comments db !! q) as [cq|] eqn:Hcq; [|done]. simpl.
           intros [= <-]. simpl. apply elem_of_app. left. by eapply H2.
        -- rewrite decide_False by (by eapply Hpar). intros Hq'. by eapply H2.
  - intros p c'. rewrite Hlook. case_decide as Hq.
    + destruct (comments db !! p) as [cp|] eqn:Hcp; [|done]. simpl.
      intros [= <-]. simpl. apply NoDup_app. split; [by eapply H3|].
      split; [|apply NoDup_singleton].
      intros x Hx ->%list_elem_of_singleton.
      destruct (H1 p cp n Hcp Hx) as (d & Hd & _). by eapply Hold.
    + case_decide; [intros [= <-]; constructor|]. by apply H3.
Qed.

Lemma delete_comment_consistent now id c db :
  parents_older db → replies_consistent db → comments db !! id = Some c →
  replies_consistent (delete_comment now id c db).2.
Proof.
  intros Hwn (H1 & H2 & H3) Hc.
  assert (Hself : ∀ j d, comments db !! j = Some d → cm_parentComment d ≠ Some j).
  { intros j d Hd Hp. destruct (Hwn j d Hd) as [_ Hlt]. specialize (Hlt j Hp). lia. }
  pose proof (delete_comment_lookup now id c db) as Hlook.
  set (db' := (delete_comment now id c db).2) in *. clearbody db'.
  split; [|split].
  - intros q c' r. rewrite Hlook.
    case_decide as Hq; [done|]. case_decide as Hp.
    + destruct (comments db !! q) as [cq|] eqn:Hcq; [|done]. simpl.
      intros [= <-]. simpl. intros [Hne Hr]%list_elem_of_filter.
      destruct (H1 q cq r Hcq Hr) as (d & Hd & Hdp).
      exists d. split; [|done]. rewrite Hlook.
      rewrite decide_False by done.
      rewrite decide_False; [done|].
      rewrite Hp. intros [= ->]. by eapply Hself.
    + intros Hc' Hr. destruct (H1 q c' r Hc' Hr) as (d & Hd & Hdp).
      assert (r ≠ id) as Hne.
      { intros ->. apply Hp. congruence. }
      rewrite Hlook, Hd. rewrite decide_False by done.
      case_decide; simpl; eauto.
  - intros r d' q c'. rewrite !Hlook.
    case_decide as Hr; [done|]. case_decide as Hrp.
    + destruct (comments db !! r) as [dr|] eqn:Hdr; [|done]. simpl.
      intros [= <-]. simpl. intros Hp.
      case_decide as Hq; [done|].
      rewrite decide_False by (rewrite Hrp; intros [= ->]; by eapply Hself).
      intros Hq'. by eapply H2.
    + intros Hd Hp. case_decide as Hq; [done|]. case_decide as Hqp.
      * destruct (comments db !! q) as [cq|] eqn:Hcq; [|done]. simpl.
        intros [= <-]. simpl. apply list_elem_of_filter.
        split; [done|]. by eapply H2.
      * intros Hq'. by eapply H2.
  - intros p c'. rewrite Hlook.
    case_decide; [done|]. case_decide.
    + destruct (comments db !! p) as [cp|] eqn:Hcp; [|done]. simpl.
      intros [= <-]. simpl. apply NoDup_filter. by eapply H3.
    + by apply H3.
Qed.

Lemma handle_consistent now auth r db :
  parents_older db → replies_consistent db →
  replies_consistent (handle now auth r db).
Proof.
  intros Hwn Hcons.
  destruct auth as [u|]; [|by rewrite handle_unauthenticated].
  destruct r as [b|id text|id|id|id a]; simpl;
    unfold drop_body, Guard.protect, Guard.isAuthor, Guard.authorize.
  - by apply create_comment_consistent.
  - destruct (comments db !! id) as [c|] eqn:Hc; [|done].
    destruct (bool_decide _ || bool_decide _); [|done].
    eapply consistent_tree; [by apply update_comment_tree|done].
  - destruct (comments db !! id) as [c|] eqn:Hc; [|done].
    destruct (bool_decide _ || bool_decide _); [|done].
    by apply delete_comment_consistent.
  - eapply consistent_tree; [apply like_comment_tree|done].
  - destruct (bool_decide _); [|done].
    eapply consistent_tree; [apply approve_comment_tree|done].
Qed.

Lemma fresh_seed_consistent db :
  fresh_seed db → parents_older db ∧ replies_consistent db.
Proof.
  intros Hs. split.
  - intros j c Hc. destruct (Hs j c Hc) as (? & Hp & _). split; [done|].
    by rewrite Hp.
  - split; [|split].
    + intros p c r Hc. destruct (Hs p c Hc) as (_ & _ & ->).
      by intros ?%elem_of_nil.
    + intros r d p c Hd Hp. destruct (Hs r d Hd) as (_ & Hnone & _). congruence.
    + intros p c Hc. destruct (Hs p c Hc) as (_ & _ & ->). constructor.
Qed.

Lemma reaches_invariants db0 db :
  fresh_seed db0 → reaches db0 db → parents_older db ∧ replies_consistent db.
Proof.
  intros Hs. induction 1 as [|db now auth r _ [IHo IHc]].
  - by apply fresh_seed_consistent.
  - split.
    + eapply parents_older_step; [exact IHo|apply handle_adds_child_only].
    + by apply handle_consistent.
Qed.

(** X24.  In every store reached by requests to the comments router from a
    store as the seeder leaves it, the [replies] arrays agree with the parent
    links: the ids in the [replies] of a stored comment are exactly the ids
    of the stored comments that name it as parent, and none is listed
    twice. *)
Theorem replies_match_children db0 db :
  fresh_seed db0 → reaches db0 db →
  ∀ p c, comments db !! p = Some c →
    NoDup (cm_replies c)
    ∧ ∀ r, r ∈ cm_replies c
           ↔ ∃ d, comments db !! r = Some d ∧ cm_parentComment d = Some p.
Proof.
  intros Hs Hr p c Hc.
  destruct (reaches_invariants db0 db Hs Hr) as [_ (H1 & H2 & H3)].
  split; [by eapply H3|]. intros r. split.
  - intros Hin. by eapply H1.
  - intros (d & Hd & Hp). by eapply H2.
Qed.

End replies_arrays.
(** ** Replies, approval and creation *)

Section comment_counts.
Import Store Comments CommentsRead Shape.

Variable castObjectId : string → option ObjectId.
Variable regex_i : string → option (string → bool).

Lemma populate_replies_sublist db c :
  (populate_replies db c).*1 `sublist_of` cm_replies c.
Proof.
  unfold populate_replies. induction (cm_replies c) as [|r l IH]; [done|].
  csimpl. destruct (comments db !! r) as [d|]; simpl.
  - destruct (cm_isApproved d); csimpl; by constructor.
  - by constructor.
Qed.

Lemma comments_for_post_items postId page limit db body item :
  (comments_for_post castObjectId postId page limit db).1 = Ok body →
  item ∈ cb_comments body →
  ∃ pid c, castObjectId postId = Some pid
           ∧ comments db !! ci_id item = Some c
           ∧ top_level_approved pid (ci_id item, c) = true
           ∧ ci_replies item
             = Some (Z.of_nat (length (populate_replies db c))).
Proof.
  intros (pid & found & Hcast & _ & Hskip & Hitems & _)%comments_for_post_found
         Hitem.
  apply mapM_Some_1 in Hitems.
  apply list_elem_of_lookup in Hitem as [i Hi].
  destruct (Forall2_lookup_r _ _ _ _ _ Hitems Hi) as (kc & Hkc & Hv).
  apply list_elem_of_lookup_2, (skip_limit_subseteq _ _ _ _ Hskip) in Hkc.
  rewrite merge_sort_Permutation in Hkc.
  apply matching_comments_elem in Hkc as [Hstored Hq].
  apply listing_item_fields in Hv as (-> & _ & _ & _ & ->).
  exists pid, kc.2. by destruct kc.
Qed.

(** X25.  In a store reached from a seeded one by requests to the comments
    router, the number of replies that the listing of a post's comments shows
    for a comment is the [count] that [GET /:id/replies] gives for that
    comment. *)
Theorem reply_counts_agree db0 db postId page limit body item s n items :
  fresh_seed db0 → reaches db0 db →
  (comments_for_post castObjectId postId page limit db).1 = Ok body →
  item ∈ cb_comments body →
  castObjectId s = Some (ci_id item) →
  (replies_of castObjectId s db).1 = Ok (n, items) →
  ci_replies item = Some n.
Proof.
  intros Hs Hr Hb Hitem Hcast Hrep.
  destruct (reaches_invariants db0 db Hs Hr) as [_ (H1 & H2 & H3)].
  destruct (comments_for_post_items _ _ _ _ _ _ Hb Hitem)
    as (pid & c & _ & Hc & _ & ->).
  apply replies_of_found in Hrep as (cid & Hcast' & _ & Hitems & ->).
  assert (cid = ci_id item) as -> by congruence.
  apply mapM_Some_1, Forall2_length in Hitems. rewrite <- Hitems.
  rewrite (Permutation_length (merge_sort_Permutation _ _)).
  do 2 f_equal. apply Permutation_length.
  apply NoDup_Permutation.
  - apply (NoDup_fmap_1 fst).
    eapply sublist_NoDup; [by eapply H3|apply populate_replies_sublist].
  - apply (NoDup_fmap_1 fst), matching_comments_NoDup.
  - intros rd. rewrite populate_replies_elem, matching_comments_elem.
    unfold approved_reply_to. rewrite andb_true_iff, bool_decide_eq_true.
    split.
    + intros (Hin & Hd & Ha). destruct (H1 _ _ _ Hc Hin) as (d & Hd' & Hp).
      split; [done|]. split; [congruence|done].
    + intros (Hd & Hp & Ha). split; [by eapply H2|done].
Qed.

Lemma approve_comment_store now id a c db :
  comments db !! id = Some c →
  ∃ c', comments (approve_comment now id a db).2 !! id = Some c'
        ∧ cm_isApproved c' = a ∧ cm_text c' = cm_text c
        ∧ cm_likes c' = cm_likes c ∧ cm_replies c' = cm_replies c
        ∧ cm_parentComment c' = cm_parentComment c
        ∧ (approve_comment now id a db).1 = Ok (id, a).
Proof.
  intros Hc. unfold approve_comment, save. rewrite Hc.
  destruct (decide (set_isApproved a c = c)) as [Heq|Hne]; simpl.
  - exists c. rewrite Hc. apply (f_equal cm_isApproved) in Heq. simpl in Heq.
    rewrite <- Heq. done.
  - rewrite lookup_insert_eq. eexists. split; [done|]. done.
Qed.

(** X26.  Disapproving a stored comment answers 200 and keeps the comment
    in the store, with its text, likes, replies and parent, but no public
    listing shows it any more: not the comments of a post, not the replies
    of a comment, not the comments embedded in the list of posts. *)
Theorem disapproved_comment_hidden now id c db :
  comments db !! id = Some c →
  let db' := (approve_comment now id false db).2 in
  (approve_comment now id false db).1 = Ok (id, false)
  ∧ (∃ c', comments db' !! id = Some c' ∧ cm_isApproved c' = false
           ∧ cm_text c' = cm_text c ∧ cm_likes c' = cm_likes c
           ∧ cm_replies c' = cm_replies c
           ∧ cm_parentComment c' = cm_parentComment c)
  ∧ (∀ postId page limit body,
       (comments_for_post castObjectId postId page limit db').1 = Ok body →
       id ∉ ci_id <$> cb_comments body)
  ∧ (∀ s n items,
       (replies_of castObjectId s db').1 = Ok (n, items) →
       id ∉ ci_id <$> items)
  ∧ (∀ q body v,
       (Posts.list_posts castObjectId regex_i q db').1 = Ok body →
       v ∈ Posts.lb_posts body → id ∉ Posts.v_comments v).
Proof.
  intros Hc db'.
  destruct (approve_comment_store now id false c db Hc)
    as (c' & Hc' & Ha & Ht & Hl & Hr & Hp & Hresp).
  fold db' in Hc'.
  split; [done|]. split; [by exists c'|]. split; [|split].
  - intros postId page limit body Hb (item & -> & Hitem)%list_elem_of_fmap.
    destruct (comments_for_post_items _ _ _ _ _ _ Hb Hitem)
      as (pid & d & _ & Hd & Hq & _).
    unfold top_level_approved in Hq. apply andb_true_iff in Hq as [_ Hq].
    simpl in Hq. congruence.
  - intros s n items Hb (item & -> & Hitem)%list_elem_of_fmap.
    apply replies_of_found in Hb as (cid & _ & _ & Hitems & _).
    destruct (mapM_elem _ _ _ _ Hitems Hitem) as (kc & Hkc & Hv).
    rewrite merge_sort_Permutation in Hkc.
    apply matching_comments_elem in Hkc as [Hstored Hq].
    apply reply_item_fields in Hv as (Hid & _). rewrite Hid in Hc'.
    unfold approved_reply_to in Hq. apply andb_true_iff in Hq as [_ Hq].
    congruence.
  - intros q body v. unfold Posts.list_posts.
    destruct (Posts.list_query _ _ q db') as [query|]; [|done]. simpl.
    intros Hb Hv Hin.
    destruct (paginated_elem _ _ _ _ _ _ Hb Hv) as (kp & _ & Hview).
    unfold Posts.list_view in Hview. simplify_option_eq.
    apply subseteq_take, list_elem_of_fmap in Hin as (kc & -> & Hkc).
    apply approved_comments_of_elem in Hkc as (Hs & _ & Happ). congruence.
Qed.

(** X27.  When [POST /] of the comments router answers 201, the store holds
    one comment more, under the id that its counter gave out: a comment by
    the principal on a stored post, with the trimmed text of the body, of 1
    to 1000 characters, approved, not edited, without likes and replies; if
    it names a parent, the parent is a stored comment and has the new id at
    the end of its [replies]; every other comment is as before.  When it
    answers 400 or 404 the store is as before. *)
Theorem create_comment_stores now u b db r db' :
  (∀ j, is_Some (comments db !! j) → (j < nextId db)%nat) →
  create_comment now u b db = (r, db') →
  (∀ v, r = Created v →
     ∃ text,
       comments db' !! nextId db
       = Some (mkComment text (cb_post b) (pr_id u) (cb_parentComment b)
                         [] [] true false now now)
       ∧ text = trim (default "" (cb_text b))
       ∧ (1 ≤ String.length text ≤ 1000)%nat
       ∧ is_Some (posts db !! cb_post b)
       ∧ (∀ p, cb_parentComment b = Some p →
            ∃ cp, comments db !! p = Some cp
                  ∧ comments db' !! p
                    = Some (Comments.set_updatedAt now
                              (set_replies (cm_replies cp ++ [nextId db]) cp)))
       ∧ (∀ j, j ≠ nextId db → cb_parentComment b ≠ Some j →
            comments db' !! j = comments db !! j)
       ∧ w_id v = nextId db ∧ nextId db' = S (nextId db)
       ∧ posts db' = posts db)
  ∧ (∀ msg, r = NotFound msg ∨ r = BadRequest msg → db' = db).
Proof.
  intros Hids. unfold create_comment.
  destruct (check_length _ _ _) as [[text|]|] eqn:Ht;
    try (intros [= <- <-]; split; [by intros ? [=] | done]).
  destruct (posts db !! cb_post b) as [post|] eqn:Hpost;
    try (intros [= <- <-]; split; [by intros ? [=] | done]).
  destruct (parent_missing _ _) eqn:Hmiss;
    try (intros [= <- <-]; split; [by intros ? [=] | done]).
  apply check_length_bounds in Ht as (Ht & Hlo & Hhi).
  set (comment := mkComment text _ _ _ _ _ _ _ _ _).
  set (db1 := mkDB _ _ _ _ _).
  set (db2 := match cb_parentComment b with Some _ => _ | None => _ end).
  assert (Hparent : ∀ p, cb_parentComment b = Some p →
            ∃ cp, comments db !! p = Some cp ∧ p ≠ nextId db).
  { intros p Hp. unfold parent_missing in Hmiss. rewrite Hp in Hmiss.
    destruct (comments db !! p) as [cp|] eqn:Hcp; [|done].
    exists cp. split; [done|].
    pose proof (Hids p ltac:(by rewrite Hcp)). lia. }
  assert (Hlook : ∀ j, comments db2 !! j
            = if decide (cb_parentComment b = Some j)
              then (λ c, Comments.set_updatedAt now
                           (set_replies (cm_replies c ++ [nextId db]) c))
                     <$> comments db !! j
              else if decide (j = nextId db) then Some comment
              else comments db !! j).
  { intros j. subst db2. destruct (cb_parentComment b) as [parent|] eqn:Hb.
    - destruct (Hparent parent eq_refl) as (cp & Hcp & Hne).
      rewrite findByIdAndUpdate_lookup. subst db1. simpl.
      destruct (decide (parent = j)) as [->|Hpj].
      + rewrite decide_True by done. by rewrite lookup_insert_ne.
      + rewrite decide_False by congruence. rewrite lookup_insert.
        repeat case_decide; by subst.
    - subst db1. simpl. rewrite lookup_insert. repeat case_decide; by subst. }
  assert (Hrest : nextId db2 = S (nextId db) ∧ posts db2 = posts db).
  { subst db2. destruct (cb_parentComment b); [|done].
    destruct (findByIdAndUpdate_rest now n
                (λ p, set_replies (cm_replies p ++ [nextId db]) p) db1)
      as (-> & _ & _ & ->). done. }
  destruct (comment_view db2 (nextId db) comment) as [view|] eqn:Hv;
    intros [= <- <-]; (split; [|by intros ? [[=]|[=]]]); [|by intros ? [=]].
  intros v [= <-]. exists text.
  split.
  { rewrite Hlook. rewrite decide_False.
    - by rewrite decide_True.
    - intros Hp. destruct (Hparent _ Hp) as (_ & _ & Hne). done. }
  split; [done|]. split; [split; [done|by apply Hhi]|].
  split; [done|]. split.
  { intros p Hp. destruct (Hparent p Hp) as (cp & Hcp & _).
    exists cp. split; [done|]. rewrite Hlook, decide_True by done.
    by rewrite Hcp. }
  split.
  { intros j Hj Hp. rewrite Hlook. by rewrite !decide_False. }
  split; [|done]. unfold comment_view in Hv. by simplify_option_eq.
Qed.

End comment_counts.
(** ** The properties above on the sample stores *)

Lemma sample_posts_numbered k :
  is_Some (Store.posts Sample.db !! k) → (k < Store.nextId Sample.db)%nat.
Proof.
  assert (map_Forall (λ k _, (k < 10)%nat) (Store.posts Sample.db)) as HF.
  { apply (bool_decide_unpack _). vm_compute. exact I. }
  intros [p Hp]. exact (HF k p Hp).
Defined.

Lemma sample_comments_numbered k :
  is_Some (Store.comments Sample.db !! k) → (k < Store.nextId Sample.db)%nat.
Proof.
  assert (map_Forall (λ k _, (k < 10)%nat) (Store.comments Sample.db)) as HF.
  { apply (bool_decide_unpack _). vm_compute. exact I. }
  intros [p Hp]. exact (HF k p Hp).
Defined.

Lemma seed_db_fresh : Shape.fresh_seed Sample.seed_db.
Proof.
  intros id c Hc. unfold Sample.seed_db in *. simpl in *.
  apply lookup_singleton_Some in Hc as [<- <-].
  split; [lia|]. split; reflexivity.
Defined.

Lemma list_category_filter_witness :
  Posts.list_posts Sample.castObjectId Sample.regex_i
    (Posts.mkListQuery None None (Some "Technology") None) Sample.db
  = (Store.ServerError, Sample.db)
  ∧ Posts.list_posts Sample.castObjectId Sample.regex_i
      (Posts.mkListQuery None None (Some "77") None) Sample.db
    = Posts.list_posts Sample.castObjectId Sample.regex_i
        (Posts.mkListQuery None None None None) Sample.db.
Proof.
  split.
  - exact (proj1 (list_category_filter Sample.castObjectId Sample.regex_i
                    (Posts.mkListQuery None None (Some "Technology") None)
                    "Technology" Sample.db eq_refl ltac:(discriminate))
             eq_refl).
  - apply (proj1 (proj2 (list_category_filter Sample.castObjectId
                           Sample.regex_i
                           (Posts.mkListQuery None None (Some "77") None) "77"
                           Sample.db eq_refl ltac:(discriminate))
                    77%nat eq_refl)).
    intros cid c Hc. unfold Sample.db in Hc. simpl in Hc.
    apply lookup_singleton_Some in Hc as [<- <-]. split; [lia|discriminate].
Defined.

Lemma list_search_matches_witness :
  match (Posts.list_posts Sample.castObjectId Sample2.regex_i
           Sample2.search_node Sample.db).1 with
  | Store.Ok body =>
      Posts.v_id <$> Posts.lb_posts body = [5%nat]
      ∧ Forall (λ v, Sample2.occurs_in "node" (Posts.v_title v) = true
                     ∨ Sample2.occurs_in "node" (Posts.v_content v) = true)
               (Posts.lb_posts body)
  | _ => False
  end.
Proof.
  destruct (Posts.list_posts _ _ _ _).1 as [body| | | | | |] eqn:Hb;
    try (vm_compute in Hb; discriminate).
  split; [vm_compute in Hb; by injection Hb as <-|].
  apply Forall_forall. intros v Hv.
  exact (list_search_matches Sample.castObjectId Sample2.regex_i
           Sample2.search_node "node" (Sample2.occurs_in "node") Sample.db body v
           eq_refl ltac:(discriminate) eq_refl Hb Hv).
Defined.

Lemma list_page_ordered_witness :
  match (Posts.list_posts Sample.castObjectId Sample.regex_i
           Sample2.whole_list Sample.db).1 with
  | Store.Ok body =>
      fmap (M := list) (λ v, (Posts.v_id v, Posts.v_createdAt v))
        (Posts.lb_posts body)
      = [(6%nat, Some 60); (5%nat, Some 50)]
      ∧ (∀ i j a b, (i < j)%nat →
           Posts.lb_posts body !! i = Some a →
           Posts.lb_posts body !! j = Some b →
           ∃ x y, Posts.v_createdAt a = Some x ∧ Posts.v_createdAt b = Some y
                  ∧ y ≤ x)
      ∧ (length (Posts.lb_posts body) ≤ 10)%nat
      ∧ Posts.lb_count body = Z.of_nat (length (Posts.lb_posts body))
  | _ => False
  end.
Proof.
  destruct (Posts.list_posts _ _ _ _).1 as [body| | | | | |] eqn:Hb;
    try (vm_compute in Hb; discriminate).
  split; [vm_compute in Hb; by injection Hb as <-|].
  exact (list_page_ordered Sample.castObjectId Sample.regex_i
           Sample2.whole_list Sample.db body Hb).
Defined.


Lemma list_page_out_of_range_witness :
  (Posts.list_posts Sample.castObjectId Sample.regex_i
     (Posts.with_page 5 Sample2.first_page) Sample.db).1
  = Store.Ok (Posts.mkListBody 0 (Store.mkPagination 5 2 2) []).
Proof.
  apply (proj1 (list_page_out_of_range Sample.castObjectId Sample.regex_i
                  Sample2.first_page Sample.db _ 5 eq_refl eq_refl));
    vm_compute; discriminate.
Defined.

Lemma by_category_lists_category_witness :
  Posts.posts_by_category Sample.castObjectId "77" None None Sample.db
  = (Store.NotFound "Category not found", Sample.db).
Proof.
  apply (proj1 (by_category_lists_category Sample.castObjectId "77" 77%nat
                  None None Sample.db eq_refl)).
  reflexivity.
Defined.

Lemma visits_count_witness :
  Store.posts (Sequences.visits Sample.castObjectId [100; 200; 300] "5" Sample.db)
    !! 5%nat
  = Some (Store.mkPost "Introduction to Node.js" "Node.js is a powerful runtime"
            None 1 3 ["nodejs"] "" Store.published 7 false 50 300).
Proof.
  apply (visits_count Sample.castObjectId [100; 200; 300] "5" 5%nat
           Sample.intro_post Sample.db eq_refl eq_refl);
    vm_compute; discriminate.
Defined.

Lemma create_post_stores_witness :
  match PostsWrite.create_post Sample.castObjectId Sample2.regex_i 500
          Sample2.jane Sample2.new_post_body Sample.db with
  | (Store.Created v, db') =>
      ∃ post, Store.posts db' !! 10%nat = Some post
              ∧ Posts.v_id v = 10%nat
              ∧ Store.p_author post = 2%nat
              ∧ Store.p_title post = "Travelling light"
  | _ => False
  end.
Proof.
  destruct (PostsWrite.create_post _ _ _ _ _ _) as [r db'] eqn:Hc.
  destruct r as [|v| | | | |]; try (vm_compute in Hc; discriminate).
  destruct (proj1 (create_post_stores Sample.castObjectId Sample2.regex_i 500
                     Sample2.jane Sample2.new_post_body Sample.db _ _ Hc)
              v eq_refl)
    as (post & Hp & Hid & _ & Ha & Ht & _).
  exists post. split; [exact Hp|]. split; [exact Hid|]. split; [exact Ha|].
  rewrite Ht. vm_compute. reflexivity.
Defined.

Lemma delete_post_keeps_comments_witness :
  Store.comments_of 5 (PostsWrite.delete_post (Some Sample2.john) 5 Sample.db).2
  = Store.comments_of 5 Sample.db.
Proof.
  apply (delete_post_keeps_comments Sample2.john 5%nat Sample.intro_post
           Sample.db eq_refl).
  left. reflexivity.
Defined.

Lemma put_post_frame_witness :
  Store.comments
    (Posts.put_post Sample.castObjectId Sample.regex_i 300 (Some Sample2.john)
       5 Sample2.retitle_body Sample.db).2
  = Store.comments Sample.db.
Proof.
  exact (proj1 (proj2 (put_post_frame Sample.castObjectId Sample.regex_i 300
                         (Some Sample2.john) 5%nat Sample2.retitle_body
                         Sample.db 6%nat Sample.future_post eq_refl))).
Defined.

Lemma put_post_twice_witness :
  match Posts.put_post Sample.castObjectId Sample.regex_i 300
          (Some Sample2.john) 5 Sample2.retitle_body Sample.db with
  | (Store.Ok v, db') =>
      Posts.put_post Sample.castObjectId Sample.regex_i 400
        (Some Sample2.john) 5 Sample2.retitle_body db'
      = (Store.Ok v, db')
  | _ => False
  end.
Proof.
  destruct (Posts.put_post _ _ _ _ _ _ _) as [r db'] eqn:Hp.
  destruct r as [v| | | | | |]; try (vm_compute in Hp; discriminate).
  exact (put_post_twice Sample.castObjectId Sample.regex_i 300 400
           (Some Sample2.john) 5%nat Sample2.retitle_body Sample.db v db' Hp).
Defined.

Lemma posts_requests_keep_origin_witness :
  match Store.posts (PostsWrite.handle Sample.castObjectId Sample.regex_i 300
                       (Some Sample2.jane) (PostsWrite.ReqDelete 5) Sample.db)
          !! 5%nat with
  | Some p' => Shape.same_origin Sample.intro_post p'
  | None =>
      PostsWrite.ReqDelete 5 = PostsWrite.ReqDelete 5
      ∧ ∃ u, Some Sample2.jane = Some u
             ∧ (Store.p_author Sample.intro_post = Store.pr_id u
                ∨ Store.pr_role u = Store.role_admin)
  end.
Proof.
  exact (proj1 (posts_requests_keep_origin Sample.castObjectId Sample.regex_i
                  300 (Some Sample2.jane) (PostsWrite.ReqDelete 5) Sample.db
                  5%nat Sample.intro_post sample_posts_numbered eq_refl)).
Defined.

Lemma comments_listing_top_level_witness :
  match (CommentsRead.comments_for_post Sample.castObjectId "5" None None
           Sample.db).1 with
  | Store.Ok body =>
      CommentsRead.ci_id <$> CommentsRead.cb_comments body = [7%nat]
      ∧ Store.pg_total (CommentsRead.cb_pagination body) = 1
  | _ => False
  end.
Proof.
  destruct (CommentsRead.comments_for_post _ _ _ _ _).1 as [body| | | | | |]
    eqn:Hb; try (vm_compute in Hb; discriminate).
  split; [vm_compute in Hb; by injection Hb as <-|].
  destruct (proj2 (comments_listing_top_level Sample.castObjectId "5" 5%nat
                     None None Sample.db eq_refl) body Hb)
    as (_ & _ & _ & ->).
  vm_compute. reflexivity.
Defined.

Lemma replies_listing_witness :
  match (CommentsRead.replies_of Sample.castObjectId "7" Sample.db).1 with
  | Store.Ok (n, items) =>
      n = 1 ∧ NoDup (CommentsRead.ci_id <$> items)
  | _ => False
  end.
Proof.
  destruct (CommentsRead.replies_of _ _ _).1 as [[n items]| | | | | |] eqn:Hb;
    try (vm_compute in Hb; discriminate).
  split; [vm_compute in Hb; by injection Hb as <- _|].
  exact (proj1 (proj2 (proj2 (replies_listing Sample.castObjectId "7" 7%nat
                                Sample.db eq_refl) n items Hb))).
Defined.

Lemma deleted_parents_hide_children_witness :
  CommentsRead.replies_of Sample.castObjectId "8"
    (Comments.delete_comment 200 8 Sample.reply_comment Sample.db).2
  = (Store.NotFound "Comment not found",
     (Comments.delete_comment 200 8 Sample.reply_comment Sample.db).2).
Proof.
  exact (proj1 (proj1 (deleted_parents_hide_children Sample.castObjectId)
                  200 8%nat "8" Sample.reply_comment Sample.db eq_refl eq_refl)).
Defined.

Lemma comment_identity_kept_witness :
  match Store.comments
          (Comments.handle 300 (Some Sample2.john) (Comments.ReqLike 7) Sample.db)
          !! 7%nat with
  | Some c' =>
      Shape.same_identity Sample.top_comment c'
      ∧ Store.cm_parentComment c' = Store.cm_parentComment Sample.top_comment
  | None =>
      Comments.ReqLike 7 = Comments.ReqDelete 7
      ∧ ∃ u, Some Sample2.john = Some u
             ∧ (Store.cm_author Sample.top_comment = Store.pr_id u
                ∨ Store.pr_role u = Store.role_admin)
  end.
Proof.
  apply (comment_identity_kept 300 (Some Sample2.john) (Comments.ReqLike 7)
           Sample.db 7%nat Sample.top_comment eq_refl).
  vm_compute. lia.
Defined.

Lemma comment_protected_from_others_witness :
  ∃ c', Store.comments
          (Comments.handle 300 (Some Sample2.john) (Comments.ReqDelete 7)
             Sample.db) !! 7%nat = Some c'
        ∧ Shape.same_content Sample.top_comment c'
        ∧ (Some Sample2.john = None → c' = Sample.top_comment).
Proof.
  apply (comment_protected_from_others 300 (Some Sample2.john)
           (Comments.ReqDelete 7) Sample.db 7%nat Sample.top_comment eq_refl).
  - vm_compute. lia.
  - intros u [= <-]. split; [vm_compute; lia|discriminate].
Defined.

Lemma seed_reaches_replied : Shape.reaches Sample.seed_db Sample.replied_db.
Proof. apply Shape.reaches_handle, Shape.reaches_start. Defined.

Lemma replies_match_children_witness :
  match Store.comments Sample.replied_db !! 7%nat with
  | Some c =>
      NoDup (Store.cm_replies c)
      ∧ ∀ r, r ∈ Store.cm_replies c
             ↔ ∃ d, Store.comments Sample.replied_db !! r = Some d
                    ∧ Store.cm_parentComment d = Some 7%nat
  | None => False
  end.
Proof.
  destruct (Store.comments Sample.replied_db !! 7%nat) as [c|] eqn:Hc;
    [|vm_compute in Hc; discriminate].
  exact (replies_match_children Sample.seed_db Sample.replied_db seed_db_fresh
           seed_reaches_replied 7%nat c Hc).
Defined.

Lemma reply_counts_agree_witness :
  match (CommentsRead.comments_for_post Sample.castObjectId "5" None None
           Sample.replied_db).1,
        (CommentsRead.replies_of Sample.castObjectId "7" Sample.replied_db).1 with
  | Store.Ok body, Store.Ok (n, items) =>
      n = 1
      ∧ Forall (λ item, CommentsRead.ci_id item = 7%nat →
                        CommentsRead.ci_replies item = Some n)
               (CommentsRead.cb_comments body)
  | _, _ => False
  end.
Proof.
  destruct (CommentsRead.comments_for_post _ _ _ _ _).1 as [body| | | | | |]
    eqn:Hb; try (vm_compute in Hb; discriminate).
  destruct (CommentsRead.replies_of _ _ _).1 as [[n items]| | | | | |] eqn:Hr;
    try (vm_compute in Hr; discriminate).
  split; [vm_compute in Hr; by injection Hr as <- _|].
  apply Forall_forall. intros item Hitem Hid.
  apply (reply_counts_agree Sample.castObjectId Sample.seed_db Sample.replied_db
           "5" None None body item "7" n items seed_db_fresh
           seed_reaches_replied Hb Hitem); [|exact Hr].
  rewrite Hid. reflexivity.
Defined.

Lemma disapproved_comment_hidden_witness :
  (Comments.approve_comment 300 7 false Sample.db).1 = Store.Ok (7%nat, false).
Proof.
  exact (proj1 (disapproved_comment_hidden Sample.castObjectId Sample.regex_i
                  300 7%nat Sample.top_comment Sample.db eq_refl)).
Defined.

Lemma create_comment_stores_witness :
  match Comments.create_comment 300 Sample2.jane Sample2.reply_body Sample.db with
  | (Store.Created v, db') =>
      Comments.w_id v = 10%nat
      ∧ Store.cm_replies <$> Store.comments db' !! 8%nat = Some [9; 10]%nat
  | _ => False
  end.
Proof.
  destruct (Comments.create_comment _ _ _ _) as [r db'] eqn:Hc.
  destruct r as [|v| | | | |]; try (vm_compute in Hc; discriminate).
  destruct (proj1 (create_comment_stores 300 Sample2.jane Sample2.reply_body
                     Sample.db _ _ sample_comments_numbered Hc) v eq_refl)
    as (text & _ & _ & _ & _ & Hparent & _ & Hid & _).
  split; [exact Hid|].
  destruct (Hparent 8%nat eq_refl) as (cp & Hcp & ->).
  vm_compute in Hcp. injection Hcp as <-. reflexivity.
Defined.
